(** * Weather-Website: the backend proxy and the client cache/throttle layer

    A shallow embedding of the request logic of the weather application:
    - the Express backend (rate limiter, [/api/weather], [/api/weather/extended]);
    - the React front end's [fetchWeather] / [fetchExtended] cache, throttle
      and in-flight bookkeeping, and the temperature display helpers.

    JavaScript values are embedded in one universal type [value]; optional
    chaining [a?.b] is [get "b" a] and [a || b] is [or_ a b].  Strings are
    sequences of 8-bit code units.  Every reading of the wall clock
    ([Date.now()], [new Date()]) is an explicit argument. *)

From Stdlib Require Import ZArith QArith Qround Qabs Lia Lqa Ascii String.
From Stdlib Require Import PrimFloat.
From stdpp Require Import base option list gmap strings pretty.

Set Warnings "-register-all,-notation-for-abbreviation".
Close Scope Q_scope.
Local Open Scope string_scope.
Local Open Scope Z_scope.

(* ===================================================================== *)
(** * Part I: definitions *)
(* ===================================================================== *)

(** ** JavaScript values *)

Module Js.

(** A JSON value, or [undefined].  Finite doubles are rationals, so a JSON
    number is a [Q]; [NaN] and the infinities do not occur in JSON. *)
Inductive value : Type :=
| VUndef
| VNull
| VBool (b : bool)
| VNum (q : Q)
| VStr (s : string)
| VArr (items : list value)
| VObj (props : list (string * value)).

(** [Boolean(v)]. *)
Definition truthy (v : value) : bool :=
  match v with
  | VUndef | VNull => false
  | VBool b => b
  | VNum q => negb (Qeq_bool q 0)
  | VStr s => negb (String.eqb s "")
  | VArr _ | VObj _ => true
  end.

(** [a || b]. *)
Definition or_ (a b : value) : value := if truthy a then a else b.

(** Own property [k] of an object literal; the first binding of [k] is the
    visible one. *)
Fixpoint assoc (k : string) (props : list (string * value)) : value :=
  match props with
  | [] => VUndef
  | (k', v) :: rest => if String.eqb k k' then v else assoc k rest
  end.

(** [v?.k] for a data property name [k] that no prototype defines (none of
    the names the program reads is [length] or a method name): only plain
    objects carry it. *)
Definition get (k : string) (v : value) : value :=
  match v with
  | VObj props => assoc k props
  | _ => VUndef
  end.

(** [v?.[0]]: element 0 of an array, first code unit of a string, property
    ["0"] of an object. *)
Definition get0 (v : value) : value :=
  match v with
  | VArr (x :: _) => x
  | VStr (String c _) => VStr (String c "")
  | VObj props => assoc "0" props
  | _ => VUndef
  end.

(** Assigning property [key] of an object literal ([{...o, key: v}],
    [searchParams.set(key, v)]): overwrite the first [key], drop later
    duplicates, or append. *)
Fixpoint set_prop (key : string) (v : value) (ps : list (string * value))
  : list (string * value) :=
  match ps with
  | [] => [(key, v)]
  | (k, w) :: rest =>
      if String.eqb key k
      then (key, v) :: filter (fun kv => negb (String.eqb key kv.1) = true) rest
      else (k, w) :: set_prop key v rest
  end.

(** The own enumerable properties copied by [{...v}]. *)
Definition spread (v : value) : list (string * value) :=
  match v with
  | VObj props => props
  | VArr items => imap (fun i x => (pretty i, x)) items
  | VStr s => imap (fun i c => (pretty i, VStr (String c ""))) (list_ascii_of_string s)
  | _ => []
  end.

(** [s.startsWith(p)]. *)
Definition startsWith (p s : string) : bool := String.prefix p s.

(** White space removed by [String.prototype.trim], over 8-bit code units:
    TAB, LF, VT, FF, CR, SPACE and NBSP. *)
Definition is_space (c : ascii) : bool :=
  match N_of_ascii c with
  | 9%N | 10%N | 11%N | 12%N | 13%N | 32%N | 160%N => true
  | _ => false
  end.

Fixpoint trimStart (s : string) : string :=
  match s with
  | String c rest => if is_space c then trimStart rest else s
  | "" => ""
  end.

Fixpoint trimEnd (s : string) : string :=
  match s with
  | "" => ""
  | String c rest =>
      match trimEnd rest with
      | "" => if is_space c then "" else String c ""
      | r => String c r
      end
  end.

(** [s.trim()]. *)
Definition trim (s : string) : string := trimEnd (trimStart s).

(** [s.split(",")[0]]: the text before the first comma. *)
Fixpoint split_comma_0 (s : string) : string :=
  match s with
  | "" => ""
  | String c rest =>
      if Ascii.eqb c ","%char then "" else String c (split_comma_0 rest)
  end.

(** The lower-case form of an 8-bit code unit: the letters A-Z and the
    Latin-1 capitals (192-214 and 216-222; 215 is the multiplication sign)
    move up by 32. *)
Definition lower_char (c : ascii) : ascii :=
  let n := N_of_ascii c in
  if ((65 <=? n) && (n <=? 90) || (192 <=? n) && (n <=? 214)
      || (216 <=? n) && (n <=? 222))%N
  then ascii_of_N (n + 32) else c.

(** The upper-case form of an 8-bit code unit that has one of the same
    length: the letters a-z and the Latin-1 small letters (224-246 and
    248-254; 247 is the division sign) move down by 32. *)
Definition upper_char (c : ascii) : ascii :=
  let n := N_of_ascii c in
  if ((97 <=? n) && (n <=? 122) || (224 <=? n) && (n <=? 246)
      || (248 <=? n) && (n <=? 254))%N
  then ascii_of_N (n - 32) else c.

Fixpoint map_string (f : ascii -> ascii) (s : string) : string :=
  match s with
  | "" => ""
  | String c rest => String (f c) (map_string f rest)
  end.

(** [s.toLowerCase()]: lower-casing keeps 8-bit code units 8-bit. *)
Definition toLowerCase : string -> string := map_string lower_char.

(** [s.toUpperCase()]: the sharp s (223) becomes "SS".  The capitals of the
    micro sign (181) and of y with diaeresis (255) are not 8-bit code units;
    strings that hold them are outside these strings, and the two code units
    are left as they are. *)
Fixpoint toUpperCase (s : string) : string :=
  match s with
  | "" => ""
  | String c rest =>
      if (N_of_ascii c =? 223)%N then String "S" (String "S" (toUpperCase rest))
      else String (upper_char c) (toUpperCase rest)
  end.

(** A JavaScript number as a configuration value can also be [NaN] or
    infinite ([Number(undefined)], [Number("Infinity")]). *)
Inductive number : Type :=
| NaN
| NegInf
| PosInf
| Fin (q : Q).

Definition number_truthy (n : number) : bool :=
  match n with
  | NaN => false
  | Fin q => negb (Qeq_bool q 0)
  | NegInf | PosInf => true
  end.

(** [n || d] on numbers. *)
Definition number_or (n d : number) : number :=
  if number_truthy n then n else d.

(** [Math.max(a, b)]. *)
Definition Math_max (a b : number) : number :=
  match a, b with
  | NaN, _ | _, NaN => NaN
  | PosInf, _ | _, PosInf => PosInf
  | NegInf, x | x, NegInf => x
  | Fin x, Fin y => if Qle_bool x y then Fin y else Fin x
  end.

(** [a >= b] for an integer [a] and a number [b]. *)
Definition ge_number (a : Z) (b : number) : bool :=
  match b with
  | NaN => false
  | NegInf => true
  | PosInf => false
  | Fin q => Qle_bool q (inject_Z a)
  end.

(** [a <= b] on numbers (false when either side is [NaN]). *)
Definition number_le (a b : number) : bool :=
  match a, b with
  | NaN, _ | _, NaN => false
  | NegInf, _ => true
  | _, PosInf => true
  | _, NegInf => false
  | PosInf, _ => false
  | Fin x, Fin y => Qle_bool x y
  end.

(** [Math.ceil(x / 1000)] for an integer [x]. *)
Definition ceil_div_1000 (x : Z) : Z := - ((- x) / 1000).

(** [Math.round(x)]: the nearest integer, ties towards plus infinity. *)
Definition Math_round (x : Q) : Z := Qfloor (x + (1 # 2))%Q.

(** [v === undefined || v === null]. *)
Definition nullish (v : value) : bool :=
  match v with
  | VUndef | VNull => true
  | _ => false
  end.

(** [s.split(",")]: the pieces between the commas, never an empty array. *)
Fixpoint split_comma (s : string) : list string :=
  match s with
  | "" => [""]
  | String c rest =>
      if Ascii.eqb c ","%char then "" :: split_comma rest
      else match split_comma rest with
           | piece :: pieces => String c piece :: pieces
           | [] => [String c ""]
           end
  end.

(** [items.join(sep)]. *)
Fixpoint join (sep : string) (items : list string) : string :=
  match items with
  | [] => ""
  | x :: rest =>
      match rest with
      | [] => x
      | _ => x +:+ sep +:+ join sep rest
      end
  end.

(** [hay.includes(needle)]. *)
Fixpoint includes (needle hay : string) : bool :=
  match hay with
  | "" => String.prefix needle ""
  | String _ rest => String.prefix needle hay || includes needle rest
  end.

(** [/(w1|w2|...)/.test(s)] for literal words. *)
Definition test_any (words : list string) (s : string) : bool :=
  existsb (fun w => includes w s) words.

End Js.

(** ** The backend: rate limiter *)

Module Server.
Import Js.

(** What the handlers read of an Express request.  [req.query] holds the
    parsed query string: strings, arrays and nested objects. *)
Record request : Type := {
  path : string;
  x_forwarded_for : option string;   (* req.headers["x-forwarded-for"] *)
  ip : option string;                (* req.ip *)
  remoteAddress : option string;     (* req.connection?.remoteAddress *)
  query : list (string * value)      (* req.query *)
}.

(** What a handler writes: [res.set], [res.status(..).json(..)]. *)
Record response : Type := {
  status : Z;
  headers : list (string * string);
  body : value
}.

(** [Number(process.env.RATE_LIMIT_MAX)] is the argument. *)
Definition rateLimitMax (env_max : number) : number :=
  Math_max (Fin 1) (number_or env_max (Fin 5)).

Definition rateLimitMessage : string :=
  "Too many requests, please try again later.".

(** One entry of [rateLimitStore]. *)
Record counter : Type := { count : Z; resetTime : Z }.

(** [a || d] for a string [a] that may be [undefined]: the empty string
    is falsy too. *)
Definition or_default (a : option string) (d : string) : string :=
  match a with
  | Some s => if String.eqb s "" then d else s
  | None => d
  end.

Definition getClientIp (req : request) : string :=
  let fallback :=
    or_default (ip req) (or_default (remoteAddress req) "unknown") in
  match x_forwarded_for req with
  | Some forwarded =>
      if negb (String.eqb forwarded "")
      then trim (split_comma_0 forwarded)
      else fallback
  | None => fallback
  end.

Definition shouldRateLimit (req : request) : bool :=
  startsWith "/api/weather" (path req).

(** Deleting the current key while iterating a [Map] is safe, so the loop
    keeps exactly the entries that have not expired. *)
Definition pruneRateLimitStore (now : Z) (store : gmap string counter)
  : gmap string counter :=
  if (Z.of_nat (size store) <? 1000) then store
  else filter (fun kv => negb (now >? resetTime kv.2) = true) store.

(** The middleware either calls [next()] or answers itself. *)
Inductive gate : Type :=
| Next
| Answer (r : response).

(** [Math.max(1, Math.ceil((resetTime - now) / 1000))]. *)
Definition retryAfterSeconds (resetTime now : Z) : Z :=
  Z.max 1 (ceil_div_1000 (resetTime - now)).

Section RateLimit.
(** The window is a whole number of milliseconds (60000 by default), so the
    reset times are integers like [Date.now()]. *)
Variable rateLimitWindowMs : Z.
Variable max : number.   (* rateLimitMax *)

Definition tooManyRequests (entry : counter) (now : Z) : response :=
  {| status := 429;
     headers := [("Retry-After", pretty (retryAfterSeconds (resetTime entry) now))];
     body := VObj [("error", VStr rateLimitMessage)] |}.

(** [rateLimit(req, res, next)] at clock reading [now]. *)
Definition rateLimit (req : request) (now : Z) (store : gmap string counter)
  : gmap string counter * gate :=
  if negb (shouldRateLimit req) then (store, Next)
  else
    let store := pruneRateLimitStore now store in
    let ip := getClientIp req in
    let fresh := {| count := 1; resetTime := now + rateLimitWindowMs |} in
    match store !! ip with
    | None => (<[ip := fresh]> store, Next)
    | Some entry =>
        if now >? resetTime entry then (<[ip := fresh]> store, Next)
        else if ge_number (count entry) max
        then (store, Answer (tooManyRequests entry now))
        else (<[ip := {| count := count entry + 1;
                         resetTime := resetTime entry |}]> store, Next)
    end.

(** A sequence of requests with their arrival times, served in order. *)
Fixpoint serve (reqs : list (request * Z)) (store : gmap string counter)
  : gmap string counter * list gate :=
  match reqs with
  | [] => (store, [])
  | (req, now) :: rest =>
      let '(store1, g) := rateLimit req now store in
      let '(store2, gs) := serve rest store1 in
      (store2, g :: gs)
  end.

End RateLimit.

(** Whether the middleware counts [req] against the key [k]. *)
Definition gated_for (k : string) (req : request) : bool :=
  shouldRateLimit req && bool_decide (getClientIp req = k).

(** The requests counted against [k]: arrival time and verdict, in
    order. *)
Fixpoint verdicts_for (k : string) (reqs : list (request * Z)) (gs : list gate)
  : list (Z * gate) :=
  match reqs, gs with
  | (req, now) :: reqs', g :: gs' =>
      if gated_for k req then (now, g) :: verdicts_for k reqs' gs'
      else verdicts_for k reqs' gs'
  | _, _ => []
  end.

(** A 429 answer with the fixed message and a [Retry-After] header of [n]
    seconds. *)
Definition too_many (n : Z) : gate :=
  Answer {| status := 429;
            headers := [("Retry-After", pretty n)];
            body := VObj [("error", VStr rateLimitMessage)] |}.

(** The entry a new window of length [W] starts with. *)
Definition opened (W now : Z) : counter :=
  {| count := 1; resetTime := now + W |}.

(** What the [i]-th verdict on a key must be when [c] of at most [m]
    requests are already counted in its window, which closes at [R]. *)
Definition verdict_ok (m R c : Z) (i : nat) (v : Z * gate) : Prop :=
  if decide (c + Z.of_nat i < m) then v.2 = Next
  else v.2 = too_many (retryAfterSeconds R v.1).

(** The default configuration: [RATE_LIMIT_WINDOW_MS] and [RATE_LIMIT_MAX]
    unset. *)
Definition window : Z := 60000.
Definition limit : number := rateLimitMax NaN.

(** The entry of [k] that still counts at time [now]: none once its
    window has closed. *)
Definition live_entry (now : Z) (store : gmap string counter) (k : string)
  : option counter :=
  match store !! k with
  | Some e => if now >? resetTime e then None else Some e
  | None => None
  end.

(** The arrival times of a trace never decrease. *)
Fixpoint in_time_order (reqs : list (request * Z)) : Prop :=
  match reqs with
  | [] => True
  | (_, now) :: rest =>
      Forall (fun rt => now <= rt.2) rest /\ in_time_order rest
  end.

(** A stored count is at least 1 and was reached under the maximum: it is
    1, or the count before it was below [max]. *)
Definition within_limit (max : number) (e : counter) : Prop :=
  1 <= count e /\ (count e = 1 \/ ge_number (count e - 1) max = false).

(** The requests of a trace that are counted against [k]. *)
Definition requests_of (k : string) (reqs : list (request * Z))
  : list (request * Z) :=
  filter (fun rt => gated_for k rt.1 = true) reqs.

(** ** The backend: upstream calls and the two weather routes *)

(** A request URL built with [new URL] and [searchParams.set]; a parameter
    keeps the JavaScript value whose [String()] conversion is sent. *)
Record url : Type := {
  base : string;
  endpoint : string;
  searchParams : list (string * value)
}.

(** What [await fetch(url)] followed by [await response.json()] yields. *)
Inductive reply : Type :=
| Unreachable                          (* either promise rejects *)
| Replied (ok : bool) (data : value).  (* response.ok and the parsed body *)

(** A handler is a program that returns or awaits an upstream call. *)
Inductive io (A : Type) : Type :=
| Ret (a : A)
| Fetch (u : url) (k : reply -> io A).
Arguments Ret {A} a.
Arguments Fetch {A} u k.

Fixpoint bind {A B : Type} (m : io A) (f : A -> io B) : io B :=
  match m with
  | Ret a => f a
  | Fetch u k => Fetch u (fun r => bind (k r) f)
  end.

(** [Promise.all(ms)]: the calls are issued in list order and the results
    are collected in list order.  All of them are issued before any reply is
    read; replies here do not depend on that. *)
Fixpoint all {A : Type} (ms : list (io A)) : io (list A) :=
  match ms with
  | [] => Ret []
  | m :: rest => bind m (fun a => bind (all rest) (fun l => Ret (a :: l)))
  end.

(** Run a program against an upstream [net]; the calls made are logged in
    order. *)
Fixpoint exec {A : Type} (net : url -> reply) (m : io A) : list url * A :=
  match m with
  | Ret a => ([], a)
  | Fetch u k => let '(calls, a) := exec net (k (net u)) in (u :: calls, a)
  end.

(** How an [async] route handler ends: a response is written, or a
    [TypeError] escapes and the handler writes nothing. *)
Inductive outcome : Type :=
| Sent (r : response)
| Uncaught.

(** [{ error }] or [{ data }], the value [requestWeather] resolves to. *)
Inductive result : Type :=
| Failure (error : value)
| Success (data : value).

Definition error_of (r : result) : value :=
  match r with Failure e => e | Success _ => VUndef end.
Definition data_of (r : result) : value :=
  match r with Failure _ => VUndef | Success d => d end.

(** [res.status(code).json(b)]. *)
Definition json (code : Z) (b : value) : response :=
  {| status := code; headers := []; body := b |}.

(** [None] when [icon.startsWith] is not a function. *)
Definition normalizeIconUrl (icon : value) : option string :=
  if negb (truthy icon) then Some ""
  else match icon with
       | VStr s => Some (if startsWith "http" s then s else "https:" +:+ s)
       | _ => None
       end.

(** What [requestWeather] makes of the upstream reply. *)
Definition settle (r : reply) : result :=
  match r with
  | Unreachable => Failure (VStr "Unable to reach weather service")
  | Replied ok data =>
      if negb ok || truthy (get "error" data)
      then Failure (or_ (get "message" (get "error" data))
                        (VStr "Weather service error"))
      else Success data
  end.

Definition requestWeather (u : url) : io result :=
  Fetch u (fun r => Ret (settle r)).

(** The message a failed upstream reply is reported with. *)
Definition failure_message (r : reply) : value :=
  match r with
  | Unreachable => VStr "Unable to reach weather service"
  | Replied _ data =>
      or_ (get "message" (get "error" data)) (VStr "Weather service error")
  end.

(** [data?.forecast?.forecastday?.[0]]. *)
Definition day0 (data : value) : value :=
  get0 (get "forecastday" (get "forecast" data)).


Definition mapForecastDay (day : value) : option value :=
  icon ← normalizeIconUrl (get "icon" (get "condition" (get "day" day)));
  Some (VObj [
    ("date", or_ (get "date" day) (VStr ""));
    ("maxTemp", get "maxtemp_c" (get "day" day));
    ("minTemp", get "mintemp_c" (get "day" day));
    ("avgTemp", get "avgtemp_c" (get "day" day));
    ("chanceOfRain", get "daily_chance_of_rain" (get "day" day));
    ("condition", or_ (get "text" (get "condition" (get "day" day))) (VStr ""));
    ("icon", VStr icon)]).

Definition mapHistoryDay (day : value) : option value :=
  icon ← normalizeIconUrl (get "icon" (get "condition" (get "day" day)));
  Some (VObj [
    ("date", or_ (get "date" day) (VStr ""));
    ("maxTemp", get "maxtemp_c" (get "day" day));
    ("minTemp", get "mintemp_c" (get "day" day));
    ("avgTemp", get "avgtemp_c" (get "day" day));
    ("totalPrecip", get "totalprecip_mm" (get "day" day));
    ("maxWind", get "maxwind_kph" (get "day" day));
    ("condition", or_ (get "text" (get "condition" (get "day" day))) (VStr ""));
    ("icon", VStr icon)]).

(** [forecastday?.slice(1)?.map(mapForecastDay) || []]: a missing
    [forecastday] gives the empty list, an array is cut and mapped, and on
    anything else [.slice] or [.map] is not a function ([None]). *)
Definition forecastDays (data : value) : option (list value) :=
  match get "forecastday" (get "forecast" data) with
  | VUndef | VNull => Some []
  | VArr items => mapM mapForecastDay (tail items)
  | _ => None
  end.

(** A day whose icon [normalizeIconUrl] accepts: falsy or a string. *)
Definition icon_ok (day : value) : Prop :=
  truthy (get "icon" (get "condition" (get "day" day))) = false
  \/ exists s, get "icon" (get "condition" (get "day" day)) = VStr s.

(** The shape of [forecastday] on which [forecastDays] does not throw. *)
Definition forecast_shape_ok (data : value) : Prop :=
  match get "forecastday" (get "forecast" data) with
  | VUndef | VNull => True
  | VArr items => Forall icon_ok (tail items)
  | _ => False
  end.

(** [historyResults.map(r => r.data?.forecast?.forecastday?.[0])
      .filter(Boolean).map(mapHistoryDay)]. *)
Definition historyDays (historyResults : list result) : option (list value) :=
  mapM mapHistoryDay
    (filter (fun v => truthy v = true)
       (map (fun r => get0 (get "forecastday" (get "forecast" (data_of r))))
            historyResults)).

(** [historyResults.find(r => r.error)?.error || ""]. *)
Definition historyError (historyResults : list result) : value :=
  or_ (from_option error_of VUndef
         (head (filter (fun r => truthy (error_of r) = true) historyResults)))
      (VStr "").

Definition location_of (data query : value) : value :=
  VObj [
    ("name", or_ (get "name" (get "location" data)) query);
    ("country", or_ (get "country" (get "location" data)) (VStr ""));
    ("localtime", or_ (get "localtime" (get "location" data)) (VStr ""))].

Section Routes.
(** [weatherApiBaseUrl] is a well-formed absolute URL, so [new URL] does
    not throw. *)
Variable weatherApiBaseUrl : string.
Variable accessKey : option string.   (* process.env.WEATHERAPI_KEY *)
(** [formatDate] of a [new Date()] moved back by [offset] days. *)
Variable historyDate : Z -> string.
(** [new Date().toISOString()] when the response is written. *)
Variable fetchedAt : string.

Definition buildWeatherUrl (path : string) (params : list (string * value)) : url :=
  {| base := weatherApiBaseUrl;
     endpoint := path;
     searchParams :=
       fold_left (fun acc kv =>
                    match kv.2 with
                    | VUndef | VNull => acc
                    | v => set_prop kv.1 v acc
                    end) params [] |}.

(** [req.query.query || req.query.location]. *)
Definition query_of (req : request) : value :=
  or_ (assoc "query" (query req)) (assoc "location" (query req)).

Definition missingQuery : response :=
  json 400 (VObj [("error", VStr "Missing query parameter")]).
Definition missingKey : response :=
  json 500 (VObj [("error", VStr "WEATHERAPI_KEY is not set")]).

Definition currentUrl (key : string) (q : value) : url :=
  buildWeatherUrl "current.json" [("key", VStr key); ("q", q); ("aqi", VStr "no")].

Definition currentBody (data q : value) (iconUrl : string) : value :=
  let conditionText :=
    or_ (get "text" (get "condition" (get "current" data))) (VStr "") in
  VObj [
    ("location", location_of data q);
    ("current", VObj [
       ("temperature", get "temp_c" (get "current" data));
       ("feelslike", get "feelslike_c" (get "current" data));
       ("humidity", get "humidity" (get "current" data));
       ("wind_speed", get "wind_kph" (get "current" data));
       ("wind_dir", get "wind_dir" (get "current" data));
       ("pressure", get "pressure_mb" (get "current" data));
       ("visibility", get "vis_km" (get "current" data));
       ("precip", get "precip_mm" (get "current" data));
       ("weather_descriptions",
          if truthy conditionText then VArr [conditionText] else VArr []);
       ("weather_icons",
          if negb (String.eqb iconUrl "") then VArr [VStr iconUrl] else VArr [])]);
    ("request", VObj [("query", q)]);
    ("fetchedAt", VStr fetchedAt)].

(** [app.get("/api/weather", ...)].  Everything after the URL is built runs
    inside [try]; any exception there answers 502. *)
Definition weatherRoute (req : request) : io outcome :=
  let q := query_of req in
  if negb (truthy q) then Ret (Sent missingQuery)
  else
    match accessKey with
    | None => Ret (Sent missingKey)
    | Some key =>
        if String.eqb key "" then Ret (Sent missingKey)
        else
          Fetch (currentUrl key q) (fun r =>
            Ret (Sent
              match r with
              | Unreachable =>
                  json 502 (VObj [("error", VStr "Unable to reach weather service")])
              | Replied ok data =>
                  if negb ok || truthy (get "error" data)
                  then json 502 (VObj [("error",
                         or_ (get "message" (get "error" data))
                             (VStr "Weather service error"))])
                  else
                    match normalizeIconUrl
                            (get "icon" (get "condition" (get "current" data))) with
                    | Some iconUrl => json 200 (currentBody data q iconUrl)
                    | None =>
                        json 502 (VObj [("error", VStr "Unable to reach weather service")])
                    end
              end))
    end.

Definition forecastUrl (key : string) (q : value) : url :=
  buildWeatherUrl "forecast.json"
    [("key", VStr key); ("q", q); ("days", VNum (inject_Z 3));
     ("aqi", VStr "no"); ("alerts", VStr "no")].

Definition historyUrl (key : string) (q : value) (date : string) : url :=
  buildWeatherUrl "history.json" [("key", VStr key); ("q", q); ("dt", VStr date)].

Definition extendedBody (forecastData q : value)
    (history forecast : list value) (hError : value) : value :=
  VObj [
    ("location", location_of forecastData q);
    ("history", VArr history);
    ("forecast", VArr forecast);
    ("historyError", hError);
    ("forecastError",
       VStr (if bool_decide (forecast = []) then "Forecast unavailable" else ""));
    ("fetchedAt", VStr fetchedAt)].

(** What the handler does once the three upstream results are in. *)
Definition merge (q : value) (forecastResult : result)
    (historyResults : list result) : outcome :=
  match historyDays historyResults with
  | None => Uncaught
  | Some history =>
      match forecastDays (data_of forecastResult) with
      | None => Uncaught
      | Some forecast =>
          Sent (json 200 (extendedBody (data_of forecastResult) q history forecast
                            (historyError historyResults)))
      end
  end.

(** [app.get("/api/weather/extended", ...)]. *)
Definition extendedRoute (req : request) : io outcome :=
  let q := query_of req in
  if negb (truthy q) then Ret (Sent missingQuery)
  else
    match accessKey with
    | None => Ret (Sent missingKey)
    | Some key =>
        if String.eqb key "" then Ret (Sent missingKey)
        else
          let historyDates := map historyDate [1; 2] in
          let historyUrls := map (historyUrl key q) historyDates in
          bind (requestWeather (forecastUrl key q)) (fun forecastResult =>
            if truthy (error_of forecastResult)
            then Ret (Sent (json 502 (VObj [("error", error_of forecastResult)])))
            else
              bind (all (map requestWeather historyUrls)) (fun historyResults =>
                Ret (merge q forecastResult historyResults)))
    end.

End Routes.

End Server.

(** ** The front end: cache, throttle and in-flight bookkeeping *)

Module Client.
Import Js.

(** The [status] / [extendedStatus] state: "idle", "loading", "ready",
    "error". *)
Inductive phase : Type := Idle | Loading | Ready | Failed.

(** The component state read and written by [fetchWeather] and
    [fetchExtended], with the two [useRef] maps.  [weather] and
    [extendedData] are [null] until something is shown. *)
Record state : Type := {
  weatherCache : gmap string value;
  extendedCache : gmap string value;
  requestCooldowns : gmap string Z;
  requestInFlight : gset string;
  activeLocation : string;
  weather : value;
  status : phase;
  error : string;
  extendedData : value;
  extendedStatus : phase;
  extendedError : string
}.

(** [cache[key]]: [undefined] when the cache has no such own property.
    The key is taken not to be a name the object inherits ("constructor",
    "toString" and the other members of [Object.prototype]), under which
    [cache[key]] finds the inherited member instead. *)
Definition cached_at_key (cache : gmap string value) (key : string) : value :=
  default VUndef (cache !! key).

(** [setWeatherCache((prev) => f(prev))]. *)
Definition setWeatherCache (f : gmap string value -> gmap string value) (st : state) : state :=
  {| weatherCache := f (weatherCache st);
     extendedCache := extendedCache st;
     requestCooldowns := requestCooldowns st;
     requestInFlight := requestInFlight st;
     activeLocation := activeLocation st;
     weather := weather st;
     status := status st;
     error := error st;
     extendedData := extendedData st;
     extendedStatus := extendedStatus st;
     extendedError := extendedError st |}.

(** [setExtendedCache((prev) => f(prev))]. *)
Definition setExtendedCache (f : gmap string value -> gmap string value) (st : state) : state :=
  {| weatherCache := weatherCache st;
     extendedCache := f (extendedCache st);
     requestCooldowns := requestCooldowns st;
     requestInFlight := requestInFlight st;
     activeLocation := activeLocation st;
     weather := weather st;
     status := status st;
     error := error st;
     extendedData := extendedData st;
     extendedStatus := extendedStatus st;
     extendedError := extendedError st |}.

(** [requestCooldowns.current[key] = now]. *)
Definition setCooldown (key : string) (now : Z) (st : state) : state :=
  {| weatherCache := weatherCache st;
     extendedCache := extendedCache st;
     requestCooldowns := <[key := now]> (requestCooldowns st);
     requestInFlight := requestInFlight st;
     activeLocation := activeLocation st;
     weather := weather st;
     status := status st;
     error := error st;
     extendedData := extendedData st;
     extendedStatus := extendedStatus st;
     extendedError := extendedError st |}.

(** [requestInFlight.current[key] = true]. *)
Definition markRequestStart (key : string) (st : state) : state :=
  {| weatherCache := weatherCache st;
     extendedCache := extendedCache st;
     requestCooldowns := requestCooldowns st;
     requestInFlight := {[key]} ∪ requestInFlight st;
     activeLocation := activeLocation st;
     weather := weather st;
     status := status st;
     error := error st;
     extendedData := extendedData st;
     extendedStatus := extendedStatus st;
     extendedError := extendedError st |}.

(** [delete requestInFlight.current[key]]. *)
Definition markRequestEnd (key : string) (st : state) : state :=
  {| weatherCache := weatherCache st;
     extendedCache := extendedCache st;
     requestCooldowns := requestCooldowns st;
     requestInFlight := requestInFlight st ∖ {[key]};
     activeLocation := activeLocation st;
     weather := weather st;
     status := status st;
     error := error st;
     extendedData := extendedData st;
     extendedStatus := extendedStatus st;
     extendedError := extendedError st |}.

(** [setActiveLocation(location)]. *)
Definition setActiveLocation (location : string) (st : state) : state :=
  {| weatherCache := weatherCache st;
     extendedCache := extendedCache st;
     requestCooldowns := requestCooldowns st;
     requestInFlight := requestInFlight st;
     activeLocation := location;
     weather := weather st;
     status := status st;
     error := error st;
     extendedData := extendedData st;
     extendedStatus := extendedStatus st;
     extendedError := extendedError st |}.

(** [setWeather(v)]. *)
Definition setWeather (v : value) (st : state) : state :=
  {| weatherCache := weatherCache st;
     extendedCache := extendedCache st;
     requestCooldowns := requestCooldowns st;
     requestInFlight := requestInFlight st;
     activeLocation := activeLocation st;
     weather := v;
     status := status st;
     error := error st;
     extendedData := extendedData st;
     extendedStatus := extendedStatus st;
     extendedError := extendedError st |}.

(** [setStatus(p)]. *)
Definition setStatus (p : phase) (st : state) : state :=
  {| weatherCache := weatherCache st;
     extendedCache := extendedCache st;
     requestCooldowns := requestCooldowns st;
     requestInFlight := requestInFlight st;
     activeLocation := activeLocation st;
     weather := weather st;
     status := p;
     error := error st;
     extendedData := extendedData st;
     extendedStatus := extendedStatus st;
     extendedError := extendedError st |}.

(** [setError(message)]. *)
Definition setError (message : string) (st : state) : state :=
  {| weatherCache := weatherCache st;
     extendedCache := extendedCache st;
     requestCooldowns := requestCooldowns st;
     requestInFlight := requestInFlight st;
     activeLocation := activeLocation st;
     weather := weather st;
     status := status st;
     error := message;
     extendedData := extendedData st;
     extendedStatus := extendedStatus st;
     extendedError := extendedError st |}.

(** [setExtendedData(v)]. *)
Definition setExtendedData (v : value) (st : state) : state :=
  {| weatherCache := weatherCache st;
     extendedCache := extendedCache st;
     requestCooldowns := requestCooldowns st;
     requestInFlight := requestInFlight st;
     activeLocation := activeLocation st;
     weather := weather st;
     status := status st;
     error := error st;
     extendedData := v;
     extendedStatus := extendedStatus st;
     extendedError := extendedError st |}.

(** [setExtendedStatus(p)]. *)
Definition setExtendedStatus (p : phase) (st : state) : state :=
  {| weatherCache := weatherCache st;
     extendedCache := extendedCache st;
     requestCooldowns := requestCooldowns st;
     requestInFlight := requestInFlight st;
     activeLocation := activeLocation st;
     weather := weather st;
     status := status st;
     error := error st;
     extendedData := extendedData st;
     extendedStatus := p;
     extendedError := extendedError st |}.

(** [setExtendedError(message)]. *)
Definition setExtendedError (message : string) (st : state) : state :=
  {| weatherCache := weatherCache st;
     extendedCache := extendedCache st;
     requestCooldowns := requestCooldowns st;
     requestInFlight := requestInFlight st;
     activeLocation := activeLocation st;
     weather := weather st;
     status := status st;
     error := error st;
     extendedData := extendedData st;
     extendedStatus := extendedStatus st;
     extendedError := message |}.

(** What the [fetch] of the front end yields. *)
Inductive reply : Type :=
| Rejected                             (* fetch or response.json() rejects *)
| Replied (ok : bool) (data : value).

(** The values [Date.now()] takes at the three places one synchronous run
    of [fetchWeather] / [fetchExtended] may read it. *)
Record readings : Type := {
  at_fresh : Z;      (* isCacheFresh in [isFresh] *)
  at_evict : Z;      (* isCacheFresh in the eviction test *)
  at_throttle : Z    (* shouldThrottle *)
}.

(** All three readings equal. *)
Definition at_time (t : Z) : readings :=
  {| at_fresh := t; at_evict := t; at_throttle := t |}.

(** Which endpoint a request goes to. *)
Inductive endpoint : Type := Weather | Extended.

(** [isInFlight(key)]. *)
Definition isInFlight (key : string) (st : state) : bool :=
  bool_decide (key ∈ requestInFlight st).

(** [{ ...data, cachedAt: Date.now() }]. *)
Definition stamp (data : value) (now : Z) : value :=
  VObj (set_prop "cachedAt" (VNum (inject_Z now)) (spread data)).

(** The updater that drops [cleaned]:
    [(prev) => { if (!prev[cleaned]) return prev; ... delete next[cleaned] }]. *)
Definition evict (cleaned : string) (prev : gmap string value)
  : gmap string value :=
  if negb (truthy (cached_at_key prev cleaned)) then prev else delete cleaned prev.

(** Showing a cache entry as the result: [setWeather(cached)],
    [setStatus("ready")], [setError("")].  The saved temperatures and the
    recent searches, updated on the same lines, are not part of [state]. *)
Definition showWeather (cached : value) (st : state) : state :=
  setError "" (setStatus Ready (setWeather cached st)).

Definition showExtended (cached : value) (st : state) : state :=
  setExtendedError "" (setExtendedStatus Ready (setExtendedData cached st)).

(** Whether the reply lets the handler go on, and with which body: a
    rejected promise, a [null] body (reading [data.error] throws), a non-2xx
    status and a truthy [data.error] all end in [catch]. *)
Definition reply_data (r : reply) : option value :=
  match r with
  | Rejected => None
  | Replied ok data =>
      match data with
      | VUndef | VNull => None
      | _ => if negb ok || truthy (get "error" data) then None else Some data
      end
  end.

Section Fetching.
(** Whole numbers of milliseconds (defaults 300000 and 1200). *)
Variable cacheTtlMs : Z.
Variable throttleMs : Z.
(** [Date.parse]: [None] is [NaN]. *)
Variable Date_parse : string -> option Z.
(** [err.message || fallback] for the exception a failed reply raises; the
    text of runtime exceptions and of [String(data.error)] is the
    runtime's. *)
Variable failureMessage : endpoint -> reply -> string.

Definition parse_string (v : value) : option Z :=
  match v with
  | VStr s => Date_parse s
  | _ => None
  end.

Definition parseCachedAt (entry : value) : Q :=
  match entry with
  | VArr _ | VObj _ =>
      match get "cachedAt" entry with
      | VNum q => q
      | cachedAt =>
          match parse_string cachedAt with
          | Some parsed => inject_Z parsed
          | None =>
              match parse_string (get "fetchedAt" entry) with
              | Some parsed => inject_Z parsed
              | None => 0%Q
              end
          end
      end
  | _ => 0%Q
  end.

Definition Qlt_bool (a b : Q) : bool := negb (Qle_bool b a).

(** [isCacheFresh(entry)] when [Date.now()] reads [now]. *)
Definition isCacheFresh (now : Z) (entry : value) : bool :=
  let cachedAt := parseCachedAt entry in
  if Qeq_bool cachedAt 0 then false
  else Qlt_bool (inject_Z now - cachedAt)%Q (inject_Z cacheTtlMs).

(** [pruneCache(cache)] on a stored object, when [Date.now()] reads [now]:
    the own properties of the object it returns.  The loop assigns
    [acc[key] = value] for every entry with a time stamp younger than the
    time to live; for the key "__proto__" that assignment sets the prototype
    of [acc] (a fresh entry is an object) and adds no property. *)
Definition pruneCache (now : Z) (cache : gmap string value)
  : gmap string value :=
  filter (fun kv => isCacheFresh now kv.2 = true /\ kv.1 <> "__proto__") cache.

(** [shouldThrottle(key, force)] when [Date.now()] reads [now]. *)
Definition shouldThrottle (key : string) (force : bool) (now : Z)
    (st : state) : bool * state :=
  if force then (false, st)
  else
    let last := default 0 (requestCooldowns st !! key) in
    if now - last <? throttleMs then (true, st)
    else (false, setCooldown key now st).

(** [isInFlight(key) || shouldThrottle(key, force)]. *)
Definition suppressed (key : string) (force : bool) (now : Z) (st : state)
  : bool * state :=
  if isInFlight key st then (true, st) else shouldThrottle key force now st.

(** When [suppressed] says yes: a request for [key] is in flight, or the
    call is not forced and the key's last stamp is younger than the
    throttle interval. *)
Definition blocked (key : string) (force : bool) (now : Z) (st : state) : Prop :=
  key ∈ requestInFlight st
  \/ (force = false
      /\ now - default 0 (requestCooldowns st !! key) < throttleMs).

(** [fetchWeather(location, { force })] up to its [await]: the new state and
    the location requested from [/api/weather], if a request is issued.
    The geolocation note and the suggestion list, reset on the way, are
    not part of [state]. *)
Definition fetchWeather (location : string) (force : bool) (clock : readings)
    (st : state) : state * option string :=
  let cleaned := trim location in
  if String.eqb cleaned "" then (st, None)
  else
    let cached := cached_at_key (weatherCache st) cleaned in
    let isFresh :=
      negb force && truthy cached && isCacheFresh (at_fresh clock) cached in
    let st :=
      if truthy cached && negb (isCacheFresh (at_evict clock) cached)
      then setWeatherCache (evict cleaned) st else st in
    let st := setActiveLocation cleaned st in
    if isFresh then (showWeather cached st, None)
    else
      let throttleKey := "weather:" +:+ toLowerCase cleaned in
      let '(skip, st) := suppressed throttleKey force (at_throttle clock) st in
      if skip
      then ((if truthy cached then showWeather cached st else st), None)
      else
        (markRequestStart throttleKey (setError "" (setStatus Loading st)),
         Some cleaned).

(** The state [fetchWeather] works on after its eviction test and
    [setActiveLocation]. *)
Definition entered (location : string) (clock : readings) (st : state) : state :=
  let cleaned := trim location in
  let cached := cached_at_key (weatherCache st) cleaned in
  setActiveLocation cleaned
    (if truthy cached && negb (isCacheFresh (at_evict clock) cached)
     then setWeatherCache (evict cleaned) st else st).

(** The rest of [fetchWeather] once the request for [cleaned] settles with
    [r], when [Date.now()] reads [now]. *)
Definition weatherSettled (cleaned : string) (r : reply) (now : Z)
    (st : state) : state :=
  let throttleKey := "weather:" +:+ toLowerCase cleaned in
  markRequestEnd throttleKey
    match reply_data r with
    | Some data =>
        let cachedData := stamp data now in
        setStatus Ready
          (setWeatherCache (fun prev => <[cleaned := cachedData]> prev)
             (setWeather cachedData st))
    | None => setError (failureMessage Weather r) (setStatus Failed st)
    end.

(** [fetchExtended(location, { force })] up to its [await]. *)
Definition fetchExtended (location : string) (force : bool) (clock : readings)
    (st : state) : state * option string :=
  let cleaned := trim location in
  if String.eqb cleaned "" then (st, None)
  else
    let cached := cached_at_key (extendedCache st) cleaned in
    let isFresh :=
      negb force && truthy cached && isCacheFresh (at_fresh clock) cached in
    let st :=
      if truthy cached && negb (isCacheFresh (at_evict clock) cached)
      then setExtendedCache (evict cleaned) st else st in
    if isFresh then (showExtended cached st, None)
    else
      let throttleKey := "extended:" +:+ toLowerCase cleaned in
      let '(skip, st) := suppressed throttleKey force (at_throttle clock) st in
      if skip
      then ((if truthy cached then showExtended cached st else st), None)
      else
        (markRequestStart throttleKey
           (setExtendedError "" (setExtendedStatus Loading st)),
         Some cleaned).

(** The state [fetchExtended] works on after its eviction test. *)
Definition enteredExtended (location : string) (clock : readings) (st : state)
  : state :=
  let cleaned := trim location in
  let cached := cached_at_key (extendedCache st) cleaned in
  if truthy cached && negb (isCacheFresh (at_evict clock) cached)
  then setExtendedCache (evict cleaned) st else st.

(** The rest of [fetchExtended] once its request settles. *)
Definition extendedSettled (cleaned : string) (r : reply) (now : Z)
    (st : state) : state :=
  let throttleKey := "extended:" +:+ toLowerCase cleaned in
  markRequestEnd throttleKey
    match reply_data r with
    | Some data =>
        let cachedData := stamp data now in
        setExtendedStatus Ready
          (setExtendedCache (fun prev => <[cleaned := cachedData]> prev)
             (setExtendedData cachedData st))
    | None =>
        setExtendedError (failureMessage Extended r)
          (setExtendedStatus Failed st)
    end.

(** The effect on [activeLocation]: the extended panel is cleared whenever
    the active location has changed. *)
Definition activeLocationEffect (before : string) (st : state) : state :=
  if String.eqb before (activeLocation st) then st
  else setExtendedError "" (setExtendedStatus Idle (setExtendedData VNull st)).

(** What happens to the component, one event at a time. *)
Inductive event : Type :=
| CallWeather (location : string) (force : bool) (clock : readings)
| WeatherReply (cleaned : string) (r : reply) (now : Z)
| CallExtended (location : string) (force : bool) (clock : readings)
| ExtendedReply (cleaned : string) (r : reply) (now : Z).

(** One event: the new state and the network request it issues, if any. *)
Definition step (st : state) (e : event) : state * option (endpoint * string) :=
  match e with
  | CallWeather location force clock =>
      let '(st1, req) := fetchWeather location force clock st in
      (activeLocationEffect (activeLocation st) st1, pair Weather <$> req)
  | WeatherReply cleaned r now => (weatherSettled cleaned r now st, None)
  | CallExtended location force clock =>
      let '(st1, req) := fetchExtended location force clock st in
      (st1, pair Extended <$> req)
  | ExtendedReply cleaned r now => (extendedSettled cleaned r now st, None)
  end.

(** A run: the final state and the network requests issued, in order. *)
Fixpoint run (st : state) (events : list event)
  : state * list (endpoint * string) :=
  match events with
  | [] => (st, [])
  | e :: rest =>
      let '(st1, req) := step st e in
      let '(st2, reqs) := run st1 rest in
      (st2, (option_list req ++ reqs)%list)
  end.

End Fetching.

(** Whether a request goes to [/api/weather] for a location with the
    lower-cased name [k]. *)
Definition request_for (k : string) (r : endpoint * string) : bool :=
  match r.1 with
  | Weather => String.eqb (toLowerCase r.2) k
  | Extended => false
  end.

(** Whether an event is a call of [fetchWeather] for the lower-cased
    name [k]. *)
Definition calls_for (k : string) (e : event) : bool :=
  match e with
  | CallWeather location _ _ => String.eqb (toLowerCase (trim location)) k
  | _ => false
  end.

(** Whether an event is the reply to a [/api/weather] request of
    [fetchWeather] for the lower-cased name [k]. *)
Definition replies_for (k : string) (e : event) : bool :=
  match e with
  | WeatherReply cleaned _ _ => String.eqb (toLowerCase cleaned) k
  | _ => false
  end.

(** ** The front end: the quick cards *)

(** What the [try] block of [fetchQuickTemperature] goes on with.  It reads
    [data?.error], so a [null] body of a 2xx reply is no failure. *)
Definition quick_reply_data (r : reply) : option value :=
  match r with
  | Rejected => None
  | Replied ok data =>
      if negb ok || truthy (get "error" data) then None else Some data
  end.

Section Quick.
Variable cacheTtlMs : Z.
Variable throttleMs : Z.
Variable Date_parse : string -> option Z.

(** [fetchQuickTemperature(location)] up to its [await]; [at_fresh] and
    [at_throttle] are the two readings of the clock.  The saved
    temperatures and the loading flags are not part of [state]. *)
Definition fetchQuickTemperature (location : string) (clock : readings)
    (st : state) : state * option string :=
  let cleaned := trim location in
  if String.eqb cleaned "" then (st, None)
  else
    let cached := cached_at_key (weatherCache st) cleaned in
    if isCacheFresh cacheTtlMs Date_parse (at_fresh clock) cached then (st, None)
    else
      let throttleKey := "quick:" +:+ toLowerCase cleaned in
      let '(skip, st) :=
        suppressed throttleMs throttleKey false (at_throttle clock) st in
      if skip then (st, None)
      else (markRequestStart throttleKey st, Some cleaned).

(** The rest of [fetchQuickTemperature] once its request settles. *)
Definition quickSettled (cleaned : string) (r : reply) (now : Z)
    (st : state) : state :=
  let throttleKey := "quick:" +:+ toLowerCase cleaned in
  markRequestEnd throttleKey
    match quick_reply_data r with
    | Some data =>
        let cachedData := stamp data now in
        setWeatherCache (fun prev => <[cleaned := cachedData]> prev) st
    | None => st
    end.

(** [showCachedWeather(location)]; [now] is the clock reading of its own
    freshness test, [clock] the readings of the [fetchWeather] it falls
    back to. *)
Definition showCachedWeather (location : string) (now : Z) (clock : readings)
    (st : state) : state * option string :=
  let cleaned := trim location in
  if String.eqb cleaned "" then (st, None)
  else
    let cached := cached_at_key (weatherCache st) cleaned in
    if truthy cached && isCacheFresh cacheTtlMs Date_parse now cached
    then (setError "" (setStatus Ready
            (setWeather cached (setActiveLocation cleaned st))), None)
    else fetchWeather cacheTtlMs throttleMs Date_parse cleaned true clock st.

(** [loadCache(storageKey)] when [Date.now()] reads [now]; [saved] is what
    [JSON.parse(localStorage.getItem(storageKey) || "null")] returns, [None]
    when it throws.  Only a plain object is pruned and kept.  The map holds
    the own properties of the cache that is returned. *)
Definition loadCache (now : Z) (saved : option value) : gmap string value :=
  match saved with
  | Some (VObj props) => pruneCache cacheTtlMs Date_parse now (list_to_map props)
  | _ => ∅
  end.

End Quick.

(** ** The front end: locations, recent searches and units *)

Definition defaultLocations : list string :=
  ["Copenhagen"; "Kyoto"; "Berlin"; "Dubai"].
Definition maxLocations : nat := 6.
Definition maxRecent : nat := 6.

(** The unit preferences. *)
Record units : Type := { temp : string; speed : string }.

Definition defaultUnits : units := {| temp := "c"; speed := "kph" |}.

(** [v === s] for a string literal [s]. *)
Definition is_string (s : string) (v : value) : bool :=
  match v with
  | VStr t => String.eqb t s
  | _ => false
  end.

(** [loadUnits()]; [saved] is the parsed item, [None] when [JSON.parse]
    throws. *)
Definition loadUnits (saved : option value) : units :=
  match saved with
  | Some (VObj props) =>
      {| temp := if is_string "f" (assoc "temp" props) then "f" else "c";
         speed := if is_string "mph" (assoc "speed" props) then "mph" else "kph" |}
  | _ => defaultUnits
  end.

(** What [JSON.stringify(units)] parses back to. *)
Definition storedUnits (u : units) : value :=
  VObj [("temp", VStr (temp u)); ("speed", VStr (speed u))].

(** [loadSavedTemps()]. *)
Definition loadSavedTemps (saved : option value) : gmap string value :=
  match saved with
  | Some (VObj props) => list_to_map props
  | _ => ∅
  end.

Section Loading.
(** [String(item)] for an element of a stored array; the conversion of
    numbers, arrays and objects is the runtime's. *)
Variable String_ : value -> string.

(** [loadLocations()]. *)
Definition loadLocations (saved : option value) : list string :=
  match saved with
  | Some (VArr items) =>
      let cleaned :=
        filter (fun item => negb (String.eqb item "") = true)
               (map (fun item => trim (String_ item)) items) in
      match cleaned with
      | [] => defaultLocations
      | _ => cleaned
      end
  | _ => defaultLocations
  end.

(** [loadRecentSearches()]. *)
Definition loadRecentSearches (saved : option value) : list string :=
  match saved with
  | Some (VArr items) =>
      take maxRecent
        (filter (fun item => negb (String.eqb item "") = true)
                (map (fun item => trim (String_ item)) items))
  | _ => []
  end.

End Loading.

(** What [JSON.stringify] of an array of strings parses back to. *)
Definition storedStrings (items : list string) : value := VArr (map VStr items).

Definition normalizeLocations (value : string) : list string :=
  take maxLocations
    (filter (fun item => negb (String.eqb item "") = true)
            (map trim (split_comma value))).

(** The submit handler of the location editor: the new [quickLocations]
    and the new [locationsDraft]. *)
Definition saveLocations (locationsDraft : string) : list string * string :=
  let next := normalizeLocations locationsDraft in
  let resolved := match next with [] => defaultLocations | _ => next end in
  (resolved, join ", " resolved).

(** Two names that differ in letter case only. *)
Definition same_name (a b : string) : bool :=
  String.eqb (toLowerCase a) (toLowerCase b).

(** A usable location name: not empty, without surrounding white space
    and without a comma. *)
Definition clean_name (x : string) : Prop :=
  x <> "" /\ trim x = x /\ includes "," x = false.

(** No two names of the list differ in letter case only. *)
Definition distinct_names (names : list string) : Prop :=
  NoDup (map toLowerCase names).

(** The submit handler of "Add City": the updater given to
    [setQuickLocations], applied to [prev]. *)
Definition addLocation (newLocation : string) (prev : list string) : list string :=
  let cleaned := trim newLocation in
  if String.eqb cleaned "" then prev
  else if existsb (fun item => same_name item cleaned) prev then prev
  else take maxLocations (prev ++ [cleaned]).

(** [addRecentSearch(value)]: the updater given to [setRecentSearches],
    applied to [prev]. *)
Definition addRecentSearch (value : string) (prev : list string) : list string :=
  let cleaned := trim value in
  if String.eqb cleaned "" then prev
  else
    take maxRecent
      (cleaned :: filter (fun item => negb (same_name item cleaned) = true) prev).

(** [recordSavedTemp(location, data)]: the updater given to
    [setSavedTemps], applied to [prev]; [nowIso] is
    [new Date().toISOString()]. *)
Definition recordSavedTemp (quickLocations : list string) (location : string)
    (data : value) (nowIso : string) (prev : gmap string value)
  : gmap string value :=
  let temp := get "temperature" (get "current" data) in
  match temp with
  | VUndef | VNull => prev
  | _ =>
      let fetchedAt := or_ (get "fetchedAt" data) (VStr nowIso) in
      let key :=
        match List.find (fun item => same_name item location) quickLocations with
        | Some item => if String.eqb item "" then location else item
        | None => location
        end in
      <[key := VObj [("temperature", temp); ("fetchedAt", fetchedAt)]]> prev
  end.

(** The loop of [suggestionItems] over the items left, with the set [seen]
    and the [results] so far.  The items are strings (recent searches, quick
    locations, cache keys), on which [String(item)] is the identity. *)
Fixpoint suggest (needle : string) (combined : list string)
    (seen : gset string) (results : list string) : list string :=
  match combined with
  | [] => results
  | item :: rest =>
      let cleaned := trim item in
      if String.eqb cleaned "" then suggest needle rest seen results
      else
        let lower := toLowerCase cleaned in
        if negb (includes needle lower) || String.eqb lower needle
        then suggest needle rest seen results
        else if bool_decide (lower ∈ seen) then suggest needle rest seen results
        else
          let results := (results ++ [cleaned])%list in
          if (6 <=? length results)%nat then results
          else suggest needle rest ({[lower]} ∪ seen) results
  end.

(** What makes [x] a suggestion for [needle] out of [pool]: it is the
    trimmed form of an item of the pool, not empty, and its lower-cased form
    contains the needle without being the needle. *)
Definition suggested (needle : string) (pool : list string) (x : string) : Prop :=
  includes needle (toLowerCase x) = true
  /\ toLowerCase x <> needle
  /\ x <> ""
  /\ exists item, item ∈ pool /\ x = trim item.

(** [suggestionItems]; [cacheKeys] is [Object.keys(weatherCache)]. *)
Definition suggestionItems (input : string)
    (recentSearches quickLocations cacheKeys : list string) : list string :=
  let needle := toLowerCase (trim input) in
  if String.eqb needle "" then []
  else suggest needle (recentSearches ++ quickLocations ++ cacheKeys)%list ∅ [].

(** [getWeatherEffect(condition)]; [None] when [(condition || "")] has no
    [toLowerCase]. *)
Definition getWeatherEffect (condition : value) : option string :=
  match or_ condition (VStr "") with
  | VStr s =>
      let normalized := toLowerCase s in
      Some (if String.eqb normalized "" then "clear"
            else if test_any ["snow"; "sleet"; "blizzard"; "ice"; "freezing"] normalized
            then "snow"
            else if test_any ["rain"; "drizzle"; "thunder"; "storm"] normalized
            then "rain"
            else if test_any ["mist"; "fog"; "haze"; "smoke"] normalized
            then "mist"
            else if test_any ["cloud"; "overcast"] normalized
            then "clouds"
            else "clear")
  | _ => None
  end.

(** ** The front end: temperature display *)

Definition toFahrenheit (value : Q) : Q := (value * 9 / 5 + 32)%Q.

(** The same expression on binary64 numbers, as the browser evaluates
    it. *)
Definition toFahrenheit64 (value : float) : float :=
  (value * 9 / 5 + 32)%float.

(** Modelled from the spec: the Fahrenheit-to-Celsius direction of the
    "Celsius<->Fahrenheit display conversion", which App.jsx does not
    define ([toFahrenheit] is the only temperature conversion there).  It is
    the arithmetic inverse of [toFahrenheit]. *)
Definition toCelsius (value : Q) : Q := ((value - 32) * 5 / 9)%Q.

Section Display.
(** [Number(value)]: [None] is [NaN].  The conversion of strings, arrays
    and objects is the runtime's. *)
Variable Number_ : value -> option Q.

Definition formatTemp (value : value) (unit : string) : string :=
  match value with
  | VUndef | VNull => "--"
  | _ =>
      match Number_ value with
      | None => "--"
      | Some numeric =>
          let converted :=
            if String.eqb unit "f" then toFahrenheit numeric else numeric in
          pretty (Math_round converted) +:+ " " +:+ toUpperCase unit
      end
  end.

End Display.

End Client.

(** ** Sample inputs *)

Module Samples.
Import Js.

Definition base : string := "http://api.weatherapi.com/v1".
Definition stamp_iso : string := "2026-01-03T12:00:00.000Z".
Definition dates (offset : Z) : string :=
  if offset =? 1 then "2026-01-02" else "2026-01-01".

(** [GET /api/weather?query=Berlin] through a proxy. *)
Definition probe : Server.request :=
  {| Server.path := "/api/weather";
     Server.x_forwarded_for := Some "203.0.113.7, 10.0.0.1";
     Server.ip := Some "10.0.0.1";
     Server.remoteAddress := None;
     Server.query := [("query", VStr "Berlin")] |}.

(** [GET /api/weather/extended?query=Berlin]. *)
Definition probe_extended : Server.request :=
  {| Server.path := "/api/weather/extended";
     Server.x_forwarded_for := None;
     Server.ip := Some "198.51.100.4";
     Server.remoteAddress := None;
     Server.query := [("query", VStr "Berlin")] |}.



(** [GET /api/health] from the client of [probe]. *)
Definition health : Server.request :=
  {| Server.path := "/api/health";
     Server.x_forwarded_for := Some "203.0.113.7";
     Server.ip := Some "10.0.0.1";
     Server.remoteAddress := None;
     Server.query := [] |}.

Definition condition (text icon : string) : value :=
  VObj [("text", VStr text); ("icon", VStr icon)].

Definition day (date : string) (maxtemp : Q) (icon : string) : value :=
  VObj [("date", VStr date);
        ("day", VObj [("maxtemp_c", VNum maxtemp);
                      ("condition", condition "Sunny" icon)])].

(** A provider payload for [current.json]. *)
Definition current_payload : value :=
  VObj [("location", VObj [("name", VStr "Berlin"); ("country", VStr "Germany")]);
        ("current", VObj [("temp_c", VNum (43 # 2));
                          ("condition", condition "Sunny" "//cdn/113.png")])].

(** A provider error with HTTP 200. *)
Definition error_payload : value :=
  VObj [("error", VObj [("code", VNum 1006);
                        ("message", VStr "No matching location found.")])].

(** A provider payload for [forecast.json] with three days. *)
Definition forecast_payload : value :=
  VObj [("location", VObj [("name", VStr "Berlin")]);
        ("forecast", VObj [("forecastday",
           VArr [day "2026-01-03" 3 "//cdn/113.png";
                 day "2026-01-04" 4 "//cdn/116.png";
                 day "2026-01-05" 5 "//cdn/119.png"])])].

(** A [forecast.json] body whose [forecastday] is not an array. *)
Definition odd_forecast_payload : value :=
  VObj [("forecast", VObj [("forecastday", VStr "x")])].

Definition history_payload (date : string) : value :=
  VObj [("forecast", VObj [("forecastday", VArr [day date 1 "//cdn/113.png"])])].

(** Upstreams: everything answers; everything is down; only the forecast
    answers; the forecast answers oddly and history is down. *)
Definition net_up (u : Server.url) : Server.reply :=
  if String.eqb (Server.endpoint u) "current.json"
  then Server.Replied true current_payload
  else if String.eqb (Server.endpoint u) "forecast.json"
  then Server.Replied true forecast_payload
  else Server.Replied true
         (history_payload
            match assoc "dt" (Server.searchParams u) with
            | VStr d => d
            | _ => ""
            end).

Definition net_down (u : Server.url) : Server.reply := Server.Unreachable.

Definition net_rejecting (u : Server.url) : Server.reply :=
  Server.Replied true error_payload.

Definition net_forecast_only (u : Server.url) : Server.reply :=
  if String.eqb (Server.endpoint u) "forecast.json"
  then Server.Replied true forecast_payload
  else Server.Replied false error_payload.

Definition net_odd_forecast (u : Server.url) : Server.reply :=
  if String.eqb (Server.endpoint u) "forecast.json"
  then Server.Replied true odd_forecast_payload
  else Server.Unreachable.

(** The front end's configuration defaults, a [Date.parse] that knows no
    date, and one text for every failure. *)
Definition ttl : Z := 300000.
Definition throttle : Z := 1200.
Definition no_dates (s : string) : option Z := None.
Definition failed_text (e : Client.endpoint) (r : Client.reply) : string :=
  "Unable to fetch weather data".

(** The component before anything was fetched. *)
Definition init : Client.state :=
  {| Client.weatherCache := ∅;
     Client.extendedCache := ∅;
     Client.requestCooldowns := ∅;
     Client.requestInFlight := ∅;
     Client.activeLocation := "Berlin";
     Client.weather := VNull;
     Client.status := Client.Idle;
     Client.error := "";
     Client.extendedData := VNull;
     Client.extendedStatus := Client.Idle;
     Client.extendedError := "" |}.

(** The body [/api/weather] answers with. *)
Definition snapshot (name : string) : value :=
  VObj [("location", VObj [("name", VStr name)]);
        ("current", VObj [("temperature", VNum (43 # 2))]);
        ("fetchedAt", VStr stamp_iso)].

(** [Number] on the values that are numbers already. *)
Definition Number_of_number (v : value) : option Q :=
  match v with
  | VNum q => Some q
  | _ => None
  end.

Definition go : Client.state -> list Client.event
    -> Client.state * list (Client.endpoint * string) :=
  Client.run ttl throttle no_dates failed_text.

(** "Berlin" was fetched at 2000 and cached at 2100. *)
Definition warm : Client.state :=
  (go init [Client.CallWeather "Berlin" false (Client.at_time 2000);
            Client.WeatherReply "Berlin" (Client.Replied true (snapshot "Berlin")) 2100]).1.

(** Then "Kyoto" is fetched and shown, and at 302000, with the "Berlin"
    entry still fresh, "Berlin" is searched: a forced call, whose request
    goes out. *)
Definition refreshing : Client.state :=
  (go warm [Client.CallWeather "Kyoto" false (Client.at_time 3000);
            Client.WeatherReply "Kyoto" (Client.Replied true (snapshot "Kyoto")) 3100;
            Client.CallWeather "Berlin" true (Client.at_time 302000)]).1.

(** Or, from [warm], a quick location spelled "berlin" is clicked at
    301700 and its request fails at 301800. *)
Definition searched : Client.state :=
  (go warm [Client.CallWeather "berlin" false (Client.at_time 301700);
            Client.WeatherReply "berlin" Client.Rejected 301800]).1.

End Samples.

(* ===================================================================== *)
(** * Part II: properties

    - [RateLimitFacts]: the fixed window (C1) and the clamp of the maximum
      (C10);
    - [RouteFacts]: missing query (C7), provider errors (C8), the forecast
      on the required path (C2) and the partial-failure merge (C3);
    - [ClientFacts]: stale entries (C4), the time-to-live boundary (C5),
      throttle and forced refresh (C6);
    - [DisplayFacts]: the temperature round trip (C9);
    - [TextFacts]: lemmas on [trim], [split(",")] and letter case;
    - [StoreFacts]: isolation of clients (X1), bound on the counts (X2),
      pruning (X3), the forwarded client key (X4), [Retry-After] (X5);
    - [UpstreamFacts]: icon URLs (X6), search parameters (X7), what every
      upstream call carries (X8), the missing credential (X9), the answers
      of [/api/weather] (X10), the forecast days (X11);
    - [CacheFacts]: replies and the cache (X12, X13), requests in flight
      (X14), independence of the two endpoints (X15), [loadCache] (X16),
      blank locations (X17), the quick cards (X18, X19);
    - [ListFacts]: the location editor (X20 - X22), recent searches (X23),
      "Add City" (X24), suggestions (X25), stored preferences (X26, X27),
      saved temperatures (X28), weather effects (X29). *)
(* ===================================================================== *)

(** ** The rate limiter *)

Module RateLimitFacts.
Import Js Server Samples.

Lemma ge_number_Fin (c m : Z) :
  ge_number c (Fin (inject_Z m)) = true <-> m <= c.
Proof.
  unfold ge_number. rewrite Qle_bool_iff, <- Zle_Qle. reflexivity.
Qed.

Lemma ge_number_Fin_false (c m : Z) :
  ge_number c (Fin (inject_Z m)) = false <-> c < m.
Proof.
  rewrite <- not_true_iff_false, ge_number_Fin. lia.
Qed.

(** [ceil_div_1000 x] is the least integer [c] with [x <= 1000 * c]. *)
Lemma ceil_div_1000_spec (x : Z) :
  1000 * (ceil_div_1000 x - 1) < x <= 1000 * ceil_div_1000 x.
Proof.
  unfold ceil_div_1000.
  pose proof (Z.div_mod (- x) 1000 ltac:(lia)).
  pose proof (Z.mod_pos_bound (- x) 1000 ltac:(lia)). lia.
Qed.

Lemma retryAfterSeconds_ge_1 (R now : Z) : 1 <= retryAfterSeconds R now.
Proof. unfold retryAfterSeconds. lia. Qed.

(** The header value is the remaining window in seconds, rounded up, and
    never less than one. *)
Lemma retryAfterSeconds_spec (R now : Z) :
  0 < R - now ->
  1000 * (retryAfterSeconds R now - 1) < R - now <= 1000 * retryAfterSeconds R now.
Proof.
  intros H. unfold retryAfterSeconds.
  pose proof (ceil_div_1000_spec (R - now)). lia.
Qed.

(** Pruning keeps every entry whose window is still open. *)
Lemma prune_keeps_live now (store : gmap string counter) k e :
  store !! k = Some e -> now <= resetTime e ->
  pruneRateLimitStore now store !! k = Some e.
Proof.
  intros Hk Hlive. unfold pruneRateLimitStore.
  destruct (Z.of_nat (size store) <? 1000); [done|].
  apply map_lookup_filter_Some. split; [done|]. simpl.
  destruct (now >? resetTime e) eqn:E; [|done].
  apply Z.gtb_lt in E. lia.
Qed.

(** Pruning only removes entries, and only expired ones. *)
Lemma prune_lookup now (store : gmap string counter) k :
  pruneRateLimitStore now store !! k = store !! k
  \/ (pruneRateLimitStore now store !! k = None
      /\ exists e, store !! k = Some e /\ resetTime e < now).
Proof.
  unfold pruneRateLimitStore.
  destruct (Z.of_nat (size store) <? 1000); [by left|].
  destruct (store !! k) as [e|] eqn:Hk.
  - destruct (now >? resetTime e) eqn:E.
    + right. split; [|exists e; split; [done|by apply Z.gtb_lt in E]].
      apply map_lookup_filter_None. right. intros e' He'. simpl.
      rewrite Hk in He'. injection He' as <-. by rewrite E.
    + left. apply map_lookup_filter_Some. split; [done|]. simpl. by rewrite E.
  - left. apply map_lookup_filter_None. left. done.
Qed.

Section Steps.
Variable W : Z.
Variable max : number.

(** No entry, or an expired one: the request passes and opens a window. *)
Lemma rateLimit_opens req now store :
  shouldRateLimit req = true ->
  (store !! getClientIp req = None
   \/ exists e, store !! getClientIp req = Some e /\ resetTime e < now) ->
  rateLimit W max req now store
  = (<[getClientIp req := opened W now]> (pruneRateLimitStore now store), Next).
Proof.
  intros Hgate Hk. unfold rateLimit. rewrite Hgate. simpl.
  destruct (prune_lookup now store (getClientIp req)) as [Heq|[Hnone _]].
  - rewrite Heq. destruct Hk as [->|(e & -> & Hexp)]; [done|].
    assert ((now >? resetTime e) = true) as -> by (apply Z.gtb_lt; lia). done.
  - by rewrite Hnone.
Qed.

(** Inside the window and under the maximum: the request passes and is
    counted. *)
Lemma rateLimit_counts req now store e :
  shouldRateLimit req = true ->
  store !! getClientIp req = Some e -> now <= resetTime e ->
  ge_number (count e) max = false ->
  rateLimit W max req now store
  = (<[getClientIp req := {| count := count e + 1; resetTime := resetTime e |}]>
       (pruneRateLimitStore now store), Next).
Proof.
  intros Hgate Hk Hlive Hmax. unfold rateLimit. rewrite Hgate. simpl.
  rewrite (prune_keeps_live _ _ _ _ Hk Hlive).
  assert ((now >? resetTime e) = false) as ->.
  { apply not_true_iff_false. rewrite Z.gtb_lt. lia. }
  by rewrite Hmax.
Qed.

(** Inside the window and at the maximum: 429, and nothing is counted. *)
Lemma rateLimit_rejects req now store e :
  shouldRateLimit req = true ->
  store !! getClientIp req = Some e -> now <= resetTime e ->
  ge_number (count e) max = true ->
  rateLimit W max req now store
  = (pruneRateLimitStore now store,
     too_many (retryAfterSeconds (resetTime e) now)).
Proof.
  intros Hgate Hk Hlive Hmax. unfold rateLimit. rewrite Hgate. simpl.
  rewrite (prune_keeps_live _ _ _ _ Hk Hlive).
  assert ((now >? resetTime e) = false) as ->.
  { apply not_true_iff_false. rewrite Z.gtb_lt. lia. }
  by rewrite Hmax.
Qed.

(** A request that is not counted against [k] leaves [k]'s open window
    alone. *)
Lemma rateLimit_other req now store k e :
  gated_for k req = false ->
  store !! k = Some e -> now <= resetTime e ->
  (rateLimit W max req now store).1 !! k = Some e.
Proof.
  intros Hother Hk Hlive. unfold rateLimit, gated_for in *.
  destruct (shouldRateLimit req); simpl in *; [|done].
  apply bool_decide_eq_false in Hother.
  pose proof (prune_keeps_live _ _ _ _ Hk Hlive) as Hp.
  destruct (pruneRateLimitStore now store !! getClientIp req) as [e'|];
    [destruct (now >? resetTime e'); [|destruct (ge_number (count e') max)]|];
    simpl; rewrite ?lookup_insert_ne; done.
Qed.

End Steps.

Lemma serve_cons W max req now rest store :
  serve W max ((req, now) :: rest) store
  = ((serve W max rest (rateLimit W max req now store).1).1,
     (rateLimit W max req now store).2
       :: (serve W max rest (rateLimit W max req now store).1).2).
Proof.
  simpl. destruct (rateLimit W max req now store) as [store1 g]. simpl.
  by destruct (serve W max rest store1).
Qed.

Section Window.
Variable W : Z.
Variable m : Z.              (* an integral maximum *)
Variable k : string.         (* the client key under observation *)
Variable R : Z.              (* the reset time of its open window *)

Let cap := Fin (inject_Z m).

(** While the window stays open, whatever else is served in between: the
    requests on [k] pass until the count reaches the maximum and are
    rejected from then on; the count grows by one per admitted request and
    stops at the maximum. *)
Lemma serve_in_window reqs : forall store e,
  store !! k = Some e -> resetTime e = R -> count e <= m ->
  Forall (fun rt => rt.2 <= R) reqs ->
  let out := serve W cap reqs store in
  let vs := verdicts_for k reqs out.2 in
  (exists e', out.1 !! k = Some e' /\ resetTime e' = R
              /\ count e' = Z.min m (count e + Z.of_nat (length vs)))
  /\ (forall i v, vs !! i = Some v -> verdict_ok m R (count e) i v).
Proof.
  induction reqs as [|[req now] rest IH]; intros store e Hk HR Hc Hall.
  - split; [|done]. exists e. repeat split; [done..|]. simpl. lia.
  - apply Forall_cons in Hall as [Hnow Hall]. simpl in Hnow.
    rewrite serve_cons. cbv zeta. simpl fst. simpl snd.
    cbn [verdicts_for].
    destruct (gated_for k req) eqn:Hg.
    + (* a request counted against [k] *)
      apply andb_true_iff in Hg as [Hgate Hip].
      apply bool_decide_eq_true in Hip. subst k.
      destruct (ge_number (count e) cap) eqn:Hmax.
      * (* at the maximum: rejected *)
        rewrite (rateLimit_rejects W cap req now store e) by (done || lia).
        simpl fst. simpl snd.
        apply ge_number_Fin in Hmax.
        destruct (IH (pruneRateLimitStore now store) e
                    (prune_keeps_live now store _ e Hk ltac:(lia)) HR Hc Hall)
          as [(e' & He' & HR' & Hc') Hvs].
        split.
        { exists e'. repeat split; [done..|]. simpl length. lia. }
        intros [|i] v Hi; simpl in Hi.
        { injection Hi as <-. unfold verdict_ok. rewrite decide_False by lia.
          simpl. by rewrite HR. }
        specialize (Hvs i v Hi). unfold verdict_ok in *.
        rewrite decide_False by lia. rewrite decide_False in Hvs by lia. done.
      * (* under the maximum: admitted and counted *)
        rewrite (rateLimit_counts W cap req now store e) by (done || lia).
        simpl fst. simpl snd.
        apply ge_number_Fin_false in Hmax.
        destruct (IH (<[getClientIp req :=
                         {| count := count e + 1; resetTime := resetTime e |}]>
                       (pruneRateLimitStore now store))
                    {| count := count e + 1; resetTime := resetTime e |}
                    (lookup_insert_eq _ _ _) HR ltac:(simpl; lia) Hall)
          as [(e' & He' & HR' & Hc') Hvs].
        simpl in Hc'.
        split.
        { exists e'. repeat split; [done..|]. simpl length. lia. }
        intros [|i] v Hi; simpl in Hi.
        { injection Hi as <-. unfold verdict_ok. rewrite decide_True by lia. done. }
        specialize (Hvs i v Hi). unfold verdict_ok in *. simpl in Hvs.
        replace (count e + Z.of_nat (S i)) with (count e + 1 + Z.of_nat i) by lia.
        done.
    + (* any other request *)
      pose proof (rateLimit_other W cap req now store k e Hg Hk ltac:(lia)) as H1.
      apply (IH _ e H1 HR Hc Hall).
Qed.

End Window.

(** Counts stay between 1 and an integral maximum in every store the
    middleware can reach from one where they do. *)
Lemma rateLimit_counts_bounded W (m : Z) req now (store : gmap string counter) :
  1 <= m ->
  (forall k e, store !! k = Some e -> 1 <= count e <= m) ->
  forall k e, (rateLimit W (Fin (inject_Z m)) req now store).1 !! k = Some e ->
              1 <= count e <= m.
Proof.
  intros Hm Hinv k e. unfold rateLimit.
  destruct (shouldRateLimit req); cbn [negb]; cbv zeta; [|apply Hinv].
  assert (Hp : forall k e, pruneRateLimitStore now store !! k = Some e ->
                           1 <= count e <= m).
  { intros k' e' H'. apply (Hinv k').
    destruct (prune_lookup now store k') as [<-|[Hnone _]]; congruence. }
  destruct (pruneRateLimitStore now store !! getClientIp req) as [e0|] eqn:E0;
    [destruct (now >? resetTime e0);
     [|destruct (ge_number (count e0) (Fin (inject_Z m))) eqn:Hmax]|];
    cbn [fst]; try apply Hp.
  all: destruct (decide (getClientIp req = k)) as [->|Hne];
    [rewrite lookup_insert_eq; intros [= <-]; simpl
    |rewrite lookup_insert_ne by done; apply Hp].
  - lia.
  - apply ge_number_Fin_false in Hmax. specialize (Hp _ _ E0). lia.
  - lia.
Qed.

Lemma serve_counts_bounded W (m : Z) reqs : forall (store : gmap string counter),
  1 <= m ->
  (forall k e, store !! k = Some e -> 1 <= count e <= m) ->
  forall k e, (serve W (Fin (inject_Z m)) reqs store).1 !! k = Some e ->
              1 <= count e <= m.
Proof.
  induction reqs as [|[req now] rest IH]; intros store Hm Hinv; [done|].
  rewrite serve_cons. simpl fst. apply IH; [done|].
  by apply rateLimit_counts_bounded.
Qed.

Lemma limit_is_5 : limit = Fin (inject_Z 5).
Proof. reflexivity. Qed.

(** The requests counted against a key are requests of the trace. *)
Lemma verdicts_for_times k reqs : forall gs i now g,
  verdicts_for k reqs gs !! i = Some (now, g) ->
  exists req, (req, now) ∈ reqs.
Proof.
  induction reqs as [|[req t] rest IH]; intros gs i now g Hi; [done|].
  destruct gs as [|g0 gs]; [done|]. cbn [verdicts_for] in Hi.
  destruct (gated_for k req).
  - destruct i as [|i]; simpl in Hi.
    + injection Hi as -> _. exists req. by left.
    + destruct (IH gs i now g Hi) as [req' Hin]. exists req'. by right.
  - destruct (IH gs i now g Hi) as [req' Hin]. exists req'. by right.
Qed.

(** C1.  Fixed window with max = 5 and window = 60000 ms.  Let a counted
    request of key [k] arrive at [t0] when [k] has no entry or an expired one,
    followed by any requests (of any keys, counted or not) that arrive no
    later than the reset time [t0 + 60000].  Then, of the requests counted
    against [k]: the first five pass; the sixth and every later one is
    answered 429 with a [Retry-After] header whose value [s] is the
    remaining window [t0 + 60000 - now] in seconds rounded up, and 1 when
    nothing remains: the remaining window is not negative,
    [1000 * (s - 1) < t0 + 60000 - now <= 1000 * s] when it is positive and
    [s = 1] when it is 0, so [s] is at least 1 throughout; the stored count
    is the number of requests so far capped at 5, and the reset time stays
    [t0 + 60000].  A request of [k] that arrives strictly after that reset
    time passes and replaces the entry by count 1 and reset time
    [now + 60000]. *)
Theorem rate_limit_fixed_window
    (store : gmap string counter) (req0 : request) (t0 : Z)
    (rest : list (request * Z)) :
  shouldRateLimit req0 = true ->
  (store !! getClientIp req0 = None
   \/ exists e, store !! getClientIp req0 = Some e /\ resetTime e < t0) ->
  Forall (fun rt => rt.2 <= t0 + window) rest ->
  let k := getClientIp req0 in
  let out := serve window limit ((req0, t0) :: rest) store in
  let vs := verdicts_for k ((req0, t0) :: rest) out.2 in
  (forall i now g, vs !! i = Some (now, g) -> (i < 5)%nat -> g = Next)
  /\ (forall i now g, vs !! i = Some (now, g) -> (5 <= i)%nat ->
        g = too_many (retryAfterSeconds (t0 + window) now)
        /\ 1 <= retryAfterSeconds (t0 + window) now
        /\ 0 <= t0 + window - now
        /\ (0 < t0 + window - now ->
            1000 * (retryAfterSeconds (t0 + window) now - 1)
            < t0 + window - now
            <= 1000 * retryAfterSeconds (t0 + window) now)
        /\ (t0 + window - now = 0 -> retryAfterSeconds (t0 + window) now = 1))
  /\ (exists e, out.1 !! k = Some e
                /\ count e = Z.min 5 (Z.of_nat (length vs))
                /\ 1 <= count e <= 5
                /\ resetTime e = t0 + window)
  /\ (forall req now,
        shouldRateLimit req = true -> getClientIp req = k ->
        t0 + window < now ->
        rateLimit window limit req now out.1
        = (<[k := {| count := 1; resetTime := now + window |}]>
             (pruneRateLimitStore now out.1), Next)).
Proof.
  intros Hgate Hnew Hall k out vs. subst out vs. rewrite limit_is_5.
  rewrite serve_cons.
  rewrite (rateLimit_opens window _ req0 t0 store Hgate Hnew).
  fold k. simpl fst. simpl snd. cbn [verdicts_for].
  assert (gated_for k req0 = true) as ->.
  { unfold gated_for. rewrite Hgate. simpl. by apply bool_decide_eq_true. }
  destruct (serve_in_window window 5 k (t0 + window) rest
              (<[k := opened window t0]> (pruneRateLimitStore t0 store))
              (opened window t0) (lookup_insert_eq _ _ _) eq_refl
              ltac:(simpl; lia) Hall) as [(e & He & HR & Hc) Hvs].
  simpl in Hc.
  split; [|split; [|split]].
  - intros [|i] now g Hi Hlt; simpl in Hi; [by injection Hi as _ <-|].
    specialize (Hvs i _ Hi). unfold verdict_ok in Hvs. simpl in Hvs.
    rewrite decide_True in Hvs by lia. done.
  - intros [|i] now g Hi Hge; [lia|]. simpl in Hi.
    assert (Hnow : now <= t0 + window).
    { destruct (verdicts_for_times _ _ _ _ _ _ Hi) as [req Hin].
      rewrite Forall_forall in Hall. apply (Hall _ Hin). }
    specialize (Hvs i _ Hi). unfold verdict_ok in Hvs. simpl in Hvs.
    rewrite decide_False in Hvs by lia.
    split; [done|]. split; [apply retryAfterSeconds_ge_1|].
    split; [lia|]. split.
    + apply retryAfterSeconds_spec.
    + intros H0. unfold retryAfterSeconds. rewrite H0. reflexivity.
  - exists e. repeat split; [done|simpl length; lia|lia|lia|done].
  - intros req now Hg <- Hlate.
    apply rateLimit_opens; [done|]. right. exists e. split; [done|lia].
Qed.

(** Seven requests of one client in one window: the sixth, 58500 ms before
    the reset, is told to retry after 59 seconds; the seventh, at the reset
    time itself, after 1 second. *)
Lemma rate_limit_fixed_window_witness :
  let rest := [(probe, 1001); (probe, 1002); (probe, 1003); (probe, 1004);
               (probe, 2500); (probe, 61000)] in
  let out := serve window limit ((probe, 1000) :: rest) ∅ in
  let vs := verdicts_for (getClientIp probe) ((probe, 1000) :: rest) out.2 in
  vs.*2 = [Next; Next; Next; Next; Next; too_many 59; too_many 1]
  /\ (forall i now g, vs !! i = Some (now, g) -> (i < 5)%nat -> g = Next)
  /\ (forall i now g, vs !! i = Some (now, g) -> (5 <= i)%nat ->
        g = too_many (retryAfterSeconds (1000 + window) now)
        /\ 1 <= retryAfterSeconds (1000 + window) now
        /\ 0 <= 1000 + window - now
        /\ (0 < 1000 + window - now ->
            1000 * (retryAfterSeconds (1000 + window) now - 1)
            < 1000 + window - now
            <= 1000 * retryAfterSeconds (1000 + window) now)
        /\ (1000 + window - now = 0 ->
            retryAfterSeconds (1000 + window) now = 1))
  /\ (exists e, out.1 !! getClientIp probe = Some e
                /\ count e = Z.min 5 (Z.of_nat (length vs))
                /\ 1 <= count e <= 5
                /\ resetTime e = 1000 + window)
  /\ (forall req now,
        shouldRateLimit req = true -> getClientIp req = getClientIp probe ->
        1000 + window < now ->
        rateLimit window limit req now out.1
        = (<[getClientIp probe := {| count := 1; resetTime := now + window |}]>
             (pruneRateLimitStore now out.1), Next)).
Proof.
  split; [vm_compute; reflexivity|].
  apply (rate_limit_fixed_window ∅ probe 1000).
  - reflexivity.
  - left. reflexivity.
  - repeat constructor; simpl; unfold window; lia.
Defined.

(** The run of the witness, spelled out. *)
Example six_then_reset :
  (serve window limit
     [(probe, 1000); (probe, 1001); (probe, 1002); (probe, 1003);
      (probe, 1004); (probe, 2500); (probe, 61000); (probe, 61001)] ∅).2
  = [Next; Next; Next; Next; Next; too_many 59; too_many 1; Next].
Proof. vm_compute. reflexivity. Qed.

Lemma rateLimitMax_ge_1 (env_max : number) :
  number_le (Fin 1) (rateLimitMax env_max) = true.
Proof.
  unfold rateLimitMax, number_or.
  destruct env_max as [| | |q]; simpl; try reflexivity.
  destruct (Qeq_bool q 0); simpl; [reflexivity|].
  destruct (Qle_bool 1 q) eqn:E; simpl; [done|reflexivity].
Qed.

(** From a cold start, the first counted request of a run passes. *)
Lemma serve_cold_start W max (reqs : list (request * Z)) :
  Exists (fun rt => shouldRateLimit rt.1 = true) reqs ->
  exists i req now,
    reqs !! i = Some (req, now) /\ shouldRateLimit req = true
    /\ (serve W max reqs ∅).2 !! i = Some Next.
Proof.
  induction reqs as [|[req now] rest IH]; intros Hex.
  - by apply Exists_nil in Hex.
  - destruct (shouldRateLimit req) eqn:Hgate.
    + exists 0%nat, req, now. repeat split; [done|].
      rewrite serve_cons.
      by rewrite (rateLimit_opens W max req now ∅ Hgate) by (left; apply lookup_empty).
    + apply Exists_cons in Hex as [Hex|Hex]; [simpl in Hex; congruence|].
      destruct (IH Hex) as (i & req' & now' & Hi & Hg & Hnext).
      exists (S i), req', now'. repeat split; [done..|].
      rewrite serve_cons. unfold rateLimit. by rewrite Hgate.
Qed.

(** C10.  Whatever [Number(process.env.RATE_LIMIT_MAX)] is (zero, negative,
    [NaN], fractional, infinite), the effective maximum is at least 1; a
    counted request that finds no entry or an expired entry for its key
    passes and opens a window with count 1; and in any run from a cold start
    that contains a counted request, some counted request passes. *)
Theorem first_request_always_allowed
    (env_max : number) (W : Z) (store : gmap string counter)
    (req : request) (now : Z) :
  shouldRateLimit req = true ->
  (store !! getClientIp req = None
   \/ exists e, store !! getClientIp req = Some e /\ resetTime e < now) ->
  number_le (Fin 1) (rateLimitMax env_max) = true
  /\ rateLimit W (rateLimitMax env_max) req now store
     = (<[getClientIp req := {| count := 1; resetTime := now + W |}]>
          (pruneRateLimitStore now store), Next)
  /\ (forall reqs,
        Exists (fun rt => shouldRateLimit rt.1 = true) reqs ->
        exists i req' now',
          reqs !! i = Some (req', now') /\ shouldRateLimit req' = true
          /\ (serve W (rateLimitMax env_max) reqs ∅).2 !! i = Some Next).
Proof.
  intros Hgate Hnew. split; [apply rateLimitMax_ge_1|]. split.
  - by apply rateLimit_opens.
  - apply serve_cold_start.
Qed.

(** [RATE_LIMIT_MAX=0], an expired entry that is at its count. *)
Lemma first_request_always_allowed_witness :
  let store : gmap string counter :=
    {[ "203.0.113.7" := {| count := 9; resetTime := 500 |} ]} in
  number_le (Fin 1) (rateLimitMax (Fin 0)) = true
  /\ rateLimit window (rateLimitMax (Fin 0)) probe 1000 store
     = (<[getClientIp probe := {| count := 1; resetTime := 1000 + window |}]>
          (pruneRateLimitStore 1000 store), Next)
  /\ (forall reqs,
        Exists (fun rt => shouldRateLimit rt.1 = true) reqs ->
        exists i req' now',
          reqs !! i = Some (req', now') /\ shouldRateLimit req' = true
          /\ (serve window (rateLimitMax (Fin 0)) reqs ∅).2 !! i = Some Next).
Proof.
  apply (first_request_always_allowed (Fin 0) window
           {[ "203.0.113.7" := {| count := 9; resetTime := 500 |} ]} probe 1000).
  - reflexivity.
  - right. exists {| count := 9; resetTime := 500 |}. split; [reflexivity|simpl; lia].
Defined.

(** The clamp at work: unset, zero, negative, fractional below one. *)
Example rateLimitMax_samples :
  rateLimitMax NaN = Fin 5 /\ rateLimitMax (Fin 0) = Fin 5
  /\ rateLimitMax (Fin (-3)) = Fin 1 /\ rateLimitMax (Fin (1 # 2)) = Fin 1
  /\ rateLimitMax NegInf = Fin 1 /\ rateLimitMax (Fin 2) = Fin 2.
Proof. repeat split. Qed.

End RateLimitFacts.

(** ** The weather routes *)

Module RouteFacts.
Import Js Server Samples.

Lemma truthy_or_r (a b : value) : truthy b = true -> truthy (or_ a b) = true.
Proof. intros Hb. unfold or_. by destruct (truthy a) eqn:Ha. Qed.

Lemma or_truthy (a b : value) : truthy a = true -> or_ a b = a.
Proof. intros Ha. unfold or_. by rewrite Ha. Qed.


(** A failed upstream call always carries a truthy message. *)
Lemma settle_failure_truthy (r : reply) (e : value) :
  settle r = Failure e -> truthy e = true.
Proof.
  destruct r as [|ok data]; simpl.
  - by intros [= <-].
  - destruct (negb ok || truthy (get "error" data)); [|done].
    intros [= <-]. by apply truthy_or_r.
Qed.

Lemma settle_success (r : reply) (d : value) :
  settle r = Success d <-> r = Replied true d /\ truthy (get "error" d) = false.
Proof.
  destruct r as [|ok data]; simpl.
  - split; [discriminate|intros [[=] _]].
  - destruct ok; simpl.
    + destruct (truthy (get "error" data)) eqn:E; simpl.
      * split; [discriminate|]. intros [[= ->] H]. congruence.
      * split; [intros [= ->]; done|intros [[= ->] _]; done].
    + split; [discriminate|intros [[=] _]].
Qed.

Lemma historyError_nil : historyError [] = VStr "".
Proof. reflexivity. Qed.

Lemma historyError_failure e rest :
  truthy e = true -> historyError (Failure e :: rest) = e.
Proof.
  intros He. unfold historyError. rewrite filter_cons_True by done. simpl.
  by apply or_truthy.
Qed.

Lemma historyError_success d rest :
  historyError (Success d :: rest) = historyError rest.
Proof. unfold historyError. by rewrite filter_cons_False by done. Qed.

Lemma historyDays_nil : historyDays [] = Some [].
Proof. reflexivity. Qed.

Lemma historyDays_failure e rest :
  historyDays (Failure e :: rest) = historyDays rest.
Proof. unfold historyDays. simpl. by rewrite filter_cons_False by done. Qed.

Lemma historyDays_success d rest m :
  truthy (day0 d) = true -> mapHistoryDay (day0 d) = Some m ->
  historyDays (Success d :: rest) = cons m <$> historyDays rest.
Proof.
  intros Hd Hm. unfold historyDays. simpl. fold (day0 d).
  rewrite filter_cons_True by done. simpl. rewrite Hm. simpl.
  by destruct (mapM mapHistoryDay _).
Qed.

Lemma normalizeIconUrl_defined (icon : value) :
  is_Some (normalizeIconUrl icon)
  <-> (truthy icon = false \/ exists s, icon = VStr s).
Proof.
  unfold normalizeIconUrl. destruct (truthy icon) eqn:Ht; simpl.
  - destruct icon; simpl in *; split;
      try (intros [? [=]]); try (intros [[=]|[? [=]]]); eauto.
  - split; eauto.
Qed.

Lemma mapHistoryDay_defined (day : value) :
  is_Some (mapHistoryDay day) <-> icon_ok day.
Proof.
  unfold icon_ok. rewrite <- normalizeIconUrl_defined. unfold mapHistoryDay.
  destruct (normalizeIconUrl _); simpl; split; intros [? [=]]; eauto.
Qed.

(** What the history results contribute: each one the first day of its
    reply, if it succeeded and the reply has one. *)
Lemma historyDays_pair h1 h2 :
  let fetched (h : result) :=
    match h with
    | Success d => if truthy (day0 d) then [day0 d] else []
    | Failure _ => []
    end in
  historyDays [h1; h2] = mapM mapHistoryDay (fetched h1 ++ fetched h2).
Proof.
  intros fetched. unfold historyDays, fetched, day0.
  destruct h1 as [e1|d1], h2 as [e2|d2]; cbn [map data_of];
    rewrite !filter_cons, filter_nil;
    repeat case_decide;
    repeat match goal with
      | H : truthy ?v = true |- _ => rewrite H
      | H : truthy ?v <> true |- _ => apply not_true_is_false in H; rewrite H
      end; try done.
Qed.

Section Routes.
Variable weatherApiBaseUrl : string.
Variable historyDate : Z -> string.
Variable fetchedAt : string.
Variable key : string.
Hypothesis key_set : key <> "".

Notation weatherRoute := (weatherRoute weatherApiBaseUrl (Some key) fetchedAt).
Notation extendedRoute :=
  (extendedRoute weatherApiBaseUrl (Some key) historyDate fetchedAt).
Notation currentUrl := (currentUrl weatherApiBaseUrl key).
Notation forecastUrl := (forecastUrl weatherApiBaseUrl key).
Notation historyUrl := (historyUrl weatherApiBaseUrl key).

Lemma key_eqb : String.eqb key "" = false.
Proof using key_set. by apply String.eqb_neq. Qed.

(** With a query and the credential, the weather route makes exactly one
    upstream call. *)
Lemma weatherRoute_calls (req : request) (net : url -> reply) :
  truthy (query_of req) = true ->
  exists r, exec net (weatherRoute req) = ([currentUrl (query_of req)], Sent r).
Proof using key_set.
  intros Hq. unfold Server.weatherRoute. rewrite Hq, key_eqb. simpl. eauto.
Qed.

(** With a query and the credential, the extended route starts with the
    forecast call and stops there with 502 if it fails; otherwise it goes on
    to the two history calls and merges. *)
Lemma extendedRoute_exec (req : request) (net : url -> reply) :
  truthy (query_of req) = true ->
  let q := query_of req in
  let forecastResult := settle (net (forecastUrl q)) in
  exec net (extendedRoute req)
  = if truthy (error_of forecastResult)
    then ([forecastUrl q],
          Sent (json 502 (VObj [("error", error_of forecastResult)])))
    else ([forecastUrl q; historyUrl q (historyDate 1);
           historyUrl q (historyDate 2)],
          merge fetchedAt q forecastResult
            [settle (net (historyUrl q (historyDate 1)));
             settle (net (historyUrl q (historyDate 2)))]).
Proof using key_set.
  intros Hq. unfold Server.extendedRoute. rewrite Hq, key_eqb. simpl.
  by destruct (truthy (error_of (settle (net _)))).
Qed.

(** C2.  With a query and the credential set, a forecast call that fails
    (unreachable upstream, HTTP error status, or a payload with an error
    object) ends the request with 502 and the forecast's error message; the
    forecast call is the only upstream call made, so the history replies do
    not matter. *)
Theorem forecast_failure_is_502 (req : request) (net : url -> reply) :
  truthy (query_of req) = true ->
  (net (forecastUrl (query_of req)) = Unreachable
   \/ exists ok data,
        net (forecastUrl (query_of req)) = Replied ok data
        /\ (ok = false \/ truthy (get "error" data) = true)) ->
  exec net (extendedRoute req)
  = ([forecastUrl (query_of req)],
     Sent (json 502 (VObj [("error",
             failure_message (net (forecastUrl (query_of req))))]))).
Proof using key_set.
  intros Hq Hfail. rewrite extendedRoute_exec by done.
  destruct Hfail as [->|(ok & data & -> & Hbad)]; simpl; [done|].
  assert (negb ok || truthy (get "error" data) = true) as ->.
  { destruct Hbad as [->| ->]; [done|]. by rewrite orb_true_r. }
  simpl. by rewrite truthy_or_r.
Qed.

(** C8.  With a query and the credential set, an upstream reply to the
    current-conditions call whose payload has a truthy [error] member is
    answered 502, whatever its HTTP status; the [error] field is the
    provider's [error.message] when that is truthy and the fixed text
    "Weather service error" otherwise. *)
Theorem provider_error_is_502
    (req : request) (net : url -> reply) (ok : bool) (data : value) :
  truthy (query_of req) = true ->
  net (currentUrl (query_of req)) = Replied ok data ->
  truthy (get "error" data) = true ->
  let message := get "message" (get "error" data) in
  exec net (weatherRoute req)
  = ([currentUrl (query_of req)],
     Sent (json 502 (VObj [("error",
             if truthy message then message
             else VStr "Weather service error")]))).
Proof using key_set.
  intros Hq Hnet Herr message. unfold Server.weatherRoute.
  rewrite Hq, key_eqb. simpl. rewrite Hnet, Herr, orb_true_r. done.
Qed.

(** X30.  The partial-failure merge of [GET /api/weather/extended] on the
    payloads it is written for.  Let the
    forecast call succeed with a payload from which the forecast days can be
    cut: [forecastDays] is defined, that is ([forecastDays_defined] below)
    [forecastday] is missing or an array whose days after the first have a
    falsy or textual icon.  Then:
    - if both history calls fail, the response is 200 with an empty
      [history], [historyError] the first call's message (which is truthy)
      and [forecast] the mapped days;
    - in every case, a history call contributes the first day of its reply
      if it succeeded and the reply has one, and nothing otherwise; when the
      days contributed can be mapped (they have a falsy or textual icon, and
      then they can), the response is 200, [history] holds them mapped,
      yesterday's before the one of two days ago, and [historyError] is the
      message of the first failed call, or empty when neither failed. *)
Theorem history_failures_are_partial
    (req : request) (net : url -> reply) (fdata : value) (fdays : list value) :
  truthy (query_of req) = true ->
  net (forecastUrl (query_of req)) = Replied true fdata ->
  truthy (get "error" fdata) = false ->
  forecastDays fdata = Some fdays ->
  let q := query_of req in
  let h1 := settle (net (historyUrl q (historyDate 1))) in
  let h2 := settle (net (historyUrl q (historyDate 2))) in
  let calls := [forecastUrl q; historyUrl q (historyDate 1);
                historyUrl q (historyDate 2)] in
  let answer history hError :=
    (calls, Sent (json 200 (extendedBody fetchedAt fdata q history fdays hError))) in
  let fetched (h : result) :=
    match h with
    | Success d => if truthy (day0 d) then [day0 d] else []
    | Failure _ => []
    end in
  let firstError :=
    match h1, h2 with
    | Failure e1, _ => e1
    | Success _, Failure e2 => e2
    | Success _, Success _ => VStr ""
    end in
  (forall e1 e2, h1 = Failure e1 -> h2 = Failure e2 ->
     exec net (extendedRoute req) = answer [] e1 /\ truthy e1 = true)
  /\ (forall d1 d2 m1 m2, h1 = Success d1 -> h2 = Success d2 ->
       truthy (day0 d1) = true -> truthy (day0 d2) = true ->
       mapHistoryDay (day0 d1) = Some m1 -> mapHistoryDay (day0 d2) = Some m2 ->
       exec net (extendedRoute req) = answer [m1; m2] (VStr ""))
  /\ (forall e1 d2 m2, h1 = Failure e1 -> h2 = Success d2 ->
       truthy (day0 d2) = true -> mapHistoryDay (day0 d2) = Some m2 ->
       exec net (extendedRoute req) = answer [m2] e1)
  /\ (forall d1 e2 m1, h1 = Success d1 -> h2 = Failure e2 ->
       truthy (day0 d1) = true -> mapHistoryDay (day0 d1) = Some m1 ->
       exec net (extendedRoute req) = answer [m1] e2)
  /\ (forall history,
        mapM mapHistoryDay (fetched h1 ++ fetched h2) = Some history ->
        exec net (extendedRoute req) = answer history firstError)
  /\ (Forall icon_ok (fetched h1 ++ fetched h2) ->
      is_Some (mapM mapHistoryDay (fetched h1 ++ fetched h2))).
Proof using key_set.
  intros Hq Hnet Herr Hdays q h1 h2 calls answer fetched firstError.
  assert (Hexec : exec net (extendedRoute req)
                  = (calls, merge fetchedAt q (Success fdata) [h1; h2])).
  { rewrite extendedRoute_exec by done. rewrite Hnet. simpl. by rewrite Herr. }
  rewrite Hexec.
  assert (Ht1 : forall e, h1 = Failure e -> truthy e = true)
    by (intros e; apply settle_failure_truthy).
  assert (Ht2 : forall e, h2 = Failure e -> truthy e = true)
    by (intros e; apply settle_failure_truthy).
  clearbody h1 h2. clear Hexec.
  unfold answer, merge. simpl data_of. rewrite Hdays.
  split; [|split; [|split; [|split; [|split]]]].
  - intros e1 e2 -> ->.
    rewrite !historyDays_failure, historyDays_nil.
    rewrite historyError_failure by auto. auto.
  - intros d1 d2 m1 m2 -> -> Hd1 Hd2 Hm1 Hm2.
    rewrite (historyDays_success d1 _ m1), (historyDays_success d2 _ m2) by done.
    by rewrite !historyError_success.
  - intros e1 d2 m2 -> -> Hd2 Hm2.
    rewrite historyDays_failure, (historyDays_success d2 _ m2) by done.
    by rewrite historyError_failure by auto.
  - intros d1 e2 m1 -> -> Hd1 Hm1.
    rewrite (historyDays_success d1 _ m1), historyDays_failure by done.
    by rewrite historyError_success, historyError_failure by auto.
  - intros history Hm.
    assert (Hdays' : historyDays [h1; h2] = Some history)
      by (rewrite <- Hm; apply historyDays_pair).
    rewrite Hdays'.
    assert (historyError [h1; h2] = firstError) as ->; [|done].
    unfold firstError.
    destruct h1 as [e1|d1]; [by rewrite historyError_failure by auto|].
    rewrite historyError_success.
    destruct h2 as [e2|d2]; [by rewrite historyError_failure by auto|].
    by rewrite historyError_success.
  - intros Hok. apply mapM_is_Some.
    apply Forall_forall. intros d Hd. apply mapHistoryDay_defined.
    rewrite Forall_forall in Hok. by apply Hok.
Qed.

End Routes.

Lemma mapForecastDay_defined (day : value) :
  is_Some (mapForecastDay day) <-> icon_ok day.
Proof.
  unfold icon_ok. rewrite <- normalizeIconUrl_defined. unfold mapForecastDay.
  destruct (normalizeIconUrl _); simpl; split; intros [? [=]]; eauto.
Qed.

(** [forecastDays] is defined exactly on the payloads of that shape. *)
Lemma forecastDays_defined (data : value) :
  is_Some (forecastDays data) <-> forecast_shape_ok data.
Proof.
  unfold forecastDays, forecast_shape_ok.
  destruct (get "forecastday" (get "forecast" data)) as [| | | | |items|].
  1, 2: split; eauto.
  4: { rewrite mapM_is_Some. apply Forall_iff. intros day.
       apply mapForecastDay_defined. }
  all: split; [intros [? [=]]|intros []].
Qed.

(** On payloads of the provider's shape the merge never throws: whatever
    the history calls did, the answer is 200. *)
Lemma merge_answers (fetchedAt : string) (q fdata : value)
    (historyResults : list result) :
  forecast_shape_ok fdata ->
  Forall (fun r => icon_ok (day0 (data_of r))) historyResults ->
  exists r, merge fetchedAt q (Success fdata) historyResults = Sent r
            /\ status r = 200.
Proof.
  intros Hf Hh. unfold merge.
  apply forecastDays_defined in Hf as [fdays Hf].
  assert (is_Some (historyDays historyResults)) as [hdays Hd].
  { unfold historyDays. apply mapM_is_Some.
    apply Forall_forall. intros d Hd. apply mapHistoryDay_defined.
    apply list_elem_of_filter in Hd as [_ Hd].
    apply list_elem_of_fmap in Hd as (r & -> & Hr).
    rewrite Forall_forall in Hh. by apply Hh. }
  rewrite Hd. simpl. rewrite Hf. eauto.
Qed.




Lemma forecast_failure_is_502_witness :
  exec net_down (extendedRoute base (Some "secret") dates stamp_iso probe_extended)
  = ([forecastUrl base "secret" (VStr "Berlin")],
     Sent (json 502 (VObj [("error", VStr "Unable to reach weather service")]))).
Proof.
  apply (forecast_failure_is_502 base dates stamp_iso "secret"
           ltac:(discriminate) probe_extended net_down).
  - reflexivity.
  - left. reflexivity.
Defined.

Lemma provider_error_is_502_witness :
  exec net_rejecting (weatherRoute base (Some "secret") stamp_iso probe)
  = ([currentUrl base "secret" (VStr "Berlin")],
     Sent (json 502 (VObj [("error", VStr "No matching location found.")]))).
Proof.
  apply (provider_error_is_502 base stamp_iso "secret" ltac:(discriminate)
           probe net_rejecting true error_payload); reflexivity.
Defined.

(** The forecast answers, both history calls are refused. *)
Lemma history_failures_are_partial_witness :
  exec net_forecast_only
    (extendedRoute base (Some "secret") dates stamp_iso probe_extended)
  = ([forecastUrl base "secret" (VStr "Berlin");
      historyUrl base "secret" (VStr "Berlin") "2026-01-02";
      historyUrl base "secret" (VStr "Berlin") "2026-01-01"],
     Sent (json 200
       (extendedBody stamp_iso forecast_payload (VStr "Berlin") []
          (default [] (forecastDays forecast_payload))
          (VStr "No matching location found."))))
  /\ length (default [] (forecastDays forecast_payload)) = 2%nat.
Proof.
  split; [|reflexivity].
  destruct (history_failures_are_partial base dates stamp_iso "secret"
              ltac:(discriminate) probe_extended net_forecast_only forecast_payload
              (default [] (forecastDays forecast_payload))
              eq_refl eq_refl eq_refl eq_refl) as [Hboth _].
  exact (proj1 (Hboth (VStr "No matching location found.")
                      (VStr "No matching location found.") eq_refl eq_refl)).
Defined.

(** C3.  A successful forecast reply whose [forecastday] is the text "x",
    with both history calls unreachable: the forecast call succeeds, both
    history calls fail, and the handler throws (["x".slice(1)] is the empty
    text, which has no [map]) outside any [try], so no response is written
    where a 200 with an empty [history], a [historyError] and the forecast
    is due.  The sibling route [GET /api/weather] wraps its body in
    [try]/[catch] and answers 502 instead. *)
Lemma odd_forecast_is_uncaught :
  settle (net_odd_forecast (forecastUrl base "secret" (VStr "Berlin")))
  = Success odd_forecast_payload
  /\ settle (net_odd_forecast (historyUrl base "secret" (VStr "Berlin") (dates 1)))
     = Failure (VStr "Unable to reach weather service")
  /\ settle (net_odd_forecast (historyUrl base "secret" (VStr "Berlin") (dates 2)))
     = Failure (VStr "Unable to reach weather service")
  /\ (exec net_odd_forecast
        (extendedRoute base (Some "secret") dates stamp_iso probe_extended)).2
     = Uncaught.
Proof. repeat split. Qed.

End RouteFacts.

(** ** The front end: cache and throttle *)

Module ClientFacts.
Import Js Client Samples.


Lemma assoc_set_prop (k : string) (v : value) ps : assoc k (set_prop k v ps) = v.
Proof.
  induction ps as [|[k' w] ps IH]; simpl.
  - by rewrite String.eqb_refl.
  - destruct (String.eqb k k') eqn:E; simpl; rewrite ?String.eqb_refl, ?E; done.
Qed.

(** Cache keys of the two functions never collide, and the weather key
    determines the lower-cased location. *)
Lemma weather_key_inj (a b : string) :
  "weather:" +:+ a = "weather:" +:+ b -> a = b.
Proof. intros H. by simplify_eq/=. Qed.

Lemma extended_key_not_weather (a b : string) :
  "extended:" +:+ a <> "weather:" +:+ b.
Proof. intros H. by simplify_eq/=. Qed.

Section Fetching.
Variable cacheTtlMs : Z.
Variable throttleMs : Z.
Variable Date_parse : string -> option Z.
Variable failureMessage : endpoint -> reply -> string.

Notation parseCachedAt := (parseCachedAt Date_parse).
Notation isCacheFresh := (isCacheFresh cacheTtlMs Date_parse).
Notation shouldThrottle := (shouldThrottle throttleMs).
Notation suppressed := (suppressed throttleMs).
Notation entered := (entered cacheTtlMs Date_parse).
Notation enteredExtended := (enteredExtended cacheTtlMs Date_parse).
Notation fetchWeather := (fetchWeather cacheTtlMs throttleMs Date_parse).
Notation fetchExtended := (fetchExtended cacheTtlMs throttleMs Date_parse).
Notation weatherSettled := (weatherSettled failureMessage).
Notation extendedSettled := (extendedSettled failureMessage).
Notation step := (step cacheTtlMs throttleMs Date_parse failureMessage).
Notation run := (run cacheTtlMs throttleMs Date_parse failureMessage).

(** An entry is fresh exactly when it has a time stamp and its age is below
    the time to live. *)
Lemma isCacheFresh_true (now : Z) (entry : value) :
  isCacheFresh now entry = true
  <-> (~ parseCachedAt entry == 0
       /\ inject_Z now - parseCachedAt entry < inject_Z cacheTtlMs)%Q.
Proof.
  unfold Client.isCacheFresh, Qlt_bool.
  destruct (Qeq_bool (parseCachedAt entry) 0) eqn:E.
  - apply Qeq_bool_iff in E. split; [done|]. intros [H _]. done.
  - apply Qeq_bool_neq in E. rewrite negb_true_iff.
    rewrite <- not_true_iff_false, Qle_bool_iff. split.
    + intros H. split; [done|]. by apply Qnot_le_lt.
    + intros [_ H]. by apply Qlt_not_le.
Qed.

Lemma isCacheFresh_stale (now : Z) (entry : value) :
  (inject_Z cacheTtlMs <= inject_Z now - parseCachedAt entry)%Q ->
  isCacheFresh now entry = false.
Proof.
  intros H. apply not_true_iff_false. rewrite isCacheFresh_true.
  intros [_ Hlt]. by apply Qlt_not_le in Hlt.
Qed.

(** What is loaded from storage is fresh at load time. *)
Lemma pruneCache_fresh (now : Z) (cache : gmap string value) k entry :
  Client.pruneCache cacheTtlMs Date_parse now cache !! k = Some entry ->
  cache !! k = Some entry /\ isCacheFresh now entry = true.
Proof.
  unfold Client.pruneCache. intros H.
  apply map_lookup_filter_Some in H as [Hk [Hf _]]. done.
Qed.

(** A stamped body carries its stamp. *)
Lemma parseCachedAt_stamp (data : value) (now : Z) :
  parseCachedAt (stamp data now) = inject_Z now.
Proof. unfold Client.parseCachedAt, stamp. simpl. by rewrite assoc_set_prop. Qed.

Lemma evict_truthy (cleaned : string) (cache : gmap string value) :
  truthy (cached_at_key cache cleaned) = true ->
  evict cleaned cache = delete cleaned cache.
Proof. intros H. unfold evict. by rewrite H. Qed.

(** An entry with a time stamp is an object, hence truthy. *)
Lemma stamped_truthy (entry : value) :
  (~ parseCachedAt entry == 0)%Q -> truthy entry = true.
Proof. destruct entry; simpl; try done; intros H; by destruct H. Qed.

Lemma suppressed_in_flight key force now st :
  key ∈ requestInFlight st -> suppressed key force now st = (true, st).
Proof.
  intros H. unfold Client.suppressed, isInFlight. by rewrite bool_decide_eq_true_2.
Qed.

Lemma suppressed_forced key now st :
  key ∉ requestInFlight st -> suppressed key true now st = (false, st).
Proof.
  intros H. unfold Client.suppressed, isInFlight.
  by rewrite bool_decide_eq_false_2.
Qed.

Lemma suppressed_throttled key now st :
  key ∉ requestInFlight st ->
  now - default 0 (requestCooldowns st !! key) < throttleMs ->
  suppressed key false now st = (true, st).
Proof.
  intros H Hlt. unfold Client.suppressed, isInFlight, Client.shouldThrottle.
  rewrite bool_decide_eq_false_2 by done.
  by rewrite (proj2 (Z.ltb_lt _ _) Hlt).
Qed.

Lemma suppressed_passes key now st :
  key ∉ requestInFlight st ->
  throttleMs <= now - default 0 (requestCooldowns st !! key) ->
  suppressed key false now st = (false, setCooldown key now st).
Proof.
  intros H Hge. unfold Client.suppressed, isInFlight, Client.shouldThrottle.
  rewrite bool_decide_eq_false_2 by done.
  by rewrite (proj2 (Z.ltb_ge _ _) Hge).
Qed.

(** A non-forced call is never let through while the key's last stamp is
    younger than the throttle interval. *)
Lemma suppressed_recent key now st (last : Z) :
  requestCooldowns st !! key = Some last -> now - last < throttleMs ->
  suppressed key false now st = (true, st).
Proof.
  intros Hlast Hlt.
  destruct (decide (key ∈ requestInFlight st)).
  - by apply suppressed_in_flight.
  - apply suppressed_throttled; [done|]. by rewrite Hlast.
Qed.

Lemma entered_refs location clock st :
  requestInFlight (entered location clock st) = requestInFlight st
  /\ requestCooldowns (entered location clock st) = requestCooldowns st
  /\ weather (entered location clock st) = weather st
  /\ status (entered location clock st) = status st.
Proof. unfold Client.entered. by destruct (_ && _). Qed.

(** The fresh path. *)
Lemma fetchWeather_fresh location clock st :
  let cleaned := trim location in
  let cached := cached_at_key (weatherCache st) cleaned in
  cleaned <> "" -> truthy cached = true ->
  isCacheFresh (at_fresh clock) cached = true ->
  fetchWeather location false clock st
  = (showWeather cached (entered location clock st), None).
Proof.
  intros cleaned cached Hne Ht Hf. unfold Client.fetchWeather.
  fold cleaned. rewrite (proj2 (String.eqb_neq _ _) Hne). fold cached.
  unfold Client.entered. fold cleaned cached. by rewrite Ht, Hf.
Qed.

(** Every other path goes through the suppression test. *)
Lemma fetchWeather_checked location force clock st :
  let cleaned := trim location in
  let cached := cached_at_key (weatherCache st) cleaned in
  let key := "weather:" +:+ toLowerCase cleaned in
  cleaned <> "" ->
  negb force && truthy cached && isCacheFresh (at_fresh clock) cached = false ->
  fetchWeather location force clock st
  = let out := suppressed key force (at_throttle clock)
                 (entered location clock st) in
    if out.1
    then ((if truthy cached then showWeather cached out.2 else out.2), None)
    else (markRequestStart key (setError "" (setStatus Loading out.2)),
          Some cleaned).
Proof.
  intros cleaned cached key Hne Hf. unfold Client.fetchWeather.
  fold cleaned. rewrite (proj2 (String.eqb_neq _ _) Hne). fold cached.
  rewrite Hf. fold key. unfold Client.entered. fold cleaned cached.
  by destruct (suppressed key force _ _) as [[] ?].
Qed.

Lemma entered_cache_stale location clock st :
  let cleaned := trim location in
  let cached := cached_at_key (weatherCache st) cleaned in
  truthy cached = true -> isCacheFresh (at_evict clock) cached = false ->
  weatherCache (entered location clock st) = delete cleaned (weatherCache st).
Proof.
  intros cleaned cached Ht Hs. unfold Client.entered. fold cleaned cached.
  rewrite Ht, Hs. simpl. by apply evict_truthy.
Qed.

Lemma enteredExtended_refs location clock st :
  requestInFlight (enteredExtended location clock st) = requestInFlight st
  /\ requestCooldowns (enteredExtended location clock st) = requestCooldowns st
  /\ extendedData (enteredExtended location clock st) = extendedData st
  /\ extendedStatus (enteredExtended location clock st) = extendedStatus st.
Proof. unfold Client.enteredExtended. by destruct (_ && _). Qed.

Lemma fetchExtended_checked location force clock st :
  let cleaned := trim location in
  let cached := cached_at_key (extendedCache st) cleaned in
  let key := "extended:" +:+ toLowerCase cleaned in
  cleaned <> "" ->
  negb force && truthy cached && isCacheFresh (at_fresh clock) cached = false ->
  fetchExtended location force clock st
  = let out := suppressed key force (at_throttle clock)
                 (enteredExtended location clock st) in
    if out.1
    then ((if truthy cached then showExtended cached out.2 else out.2), None)
    else (markRequestStart key
            (setExtendedError "" (setExtendedStatus Loading out.2)),
          Some cleaned).
Proof.
  intros cleaned cached key Hne Hf. unfold Client.fetchExtended.
  fold cleaned. rewrite (proj2 (String.eqb_neq _ _) Hne). fold cached.
  rewrite Hf. fold key. unfold Client.enteredExtended. fold cleaned cached.
  by destruct (suppressed key force _ _) as [[] ?].
Qed.

Lemma enteredExtended_cache_stale location clock st :
  let cleaned := trim location in
  let cached := cached_at_key (extendedCache st) cleaned in
  truthy cached = true -> isCacheFresh (at_evict clock) cached = false ->
  extendedCache (enteredExtended location clock st)
  = delete cleaned (extendedCache st).
Proof.
  intros cleaned cached Ht Hs. unfold Client.enteredExtended. fold cleaned cached.
  rewrite Ht, Hs. simpl. by apply evict_truthy.
Qed.

(** [suppressed] decides [blocked]. *)
Lemma suppressed_blocked key force now st :
  blocked throttleMs key force now st -> suppressed key force now st = (true, st).
Proof.
  intros [Hin|[-> Hlt]]; [by apply suppressed_in_flight|].
  destruct (decide (key ∈ requestInFlight st)).
  - by apply suppressed_in_flight.
  - by apply suppressed_throttled.
Qed.

Lemma suppressed_not_blocked key force now st :
  ~ blocked throttleMs key force now st ->
  (suppressed key force now st).1 = false
  /\ requestInFlight (suppressed key force now st).2 = requestInFlight st
  /\ weather (suppressed key force now st).2 = weather st
  /\ weatherCache (suppressed key force now st).2 = weatherCache st
  /\ extendedData (suppressed key force now st).2 = extendedData st
  /\ extendedCache (suppressed key force now st).2 = extendedCache st.
Proof.
  intros Hnb. unfold blocked in Hnb.
  assert (key ∉ requestInFlight st) as Hout by tauto.
  destruct force.
  - by rewrite suppressed_forced.
  - rewrite suppressed_passes; [done..|].
    destruct (Z_lt_ge_dec (now - default 0 (requestCooldowns st !! key))
                throttleMs); [|lia].
    exfalso. apply Hnb. right. done.
Qed.

#[local] Opaque Client.entered Client.enteredExtended.

(** C5, as the code has it.  Let the weather cache hold, under the trimmed
    location, an entry with a time stamp, and let [fetchWeather] be called
    without [force].
    - If the entry's age is below the time to live, it is shown with status
      "ready", no request is issued, and the throttle and in-flight maps are
      left as they were.
    - If its age is at least the time to live, the entry is removed from the
      cache; and when no request for the key is in flight and the key's last
      stamped request is at least the throttle interval old, a request for
      the location is issued and the status becomes "loading". *)
Theorem cache_ttl_boundary (st : state) (location : string) (clock : readings) :
  let cleaned := trim location in
  let cached := cached_at_key (weatherCache st) cleaned in
  let key := "weather:" +:+ toLowerCase cleaned in
  let out := fetchWeather location false clock st in
  cleaned <> "" ->
  (~ parseCachedAt cached == 0)%Q ->
  ((inject_Z (at_fresh clock) - parseCachedAt cached < inject_Z cacheTtlMs)%Q ->
     out.2 = None /\ weather out.1 = cached /\ status out.1 = Ready
     /\ requestCooldowns out.1 = requestCooldowns st
     /\ requestInFlight out.1 = requestInFlight st)
  /\ ((inject_Z cacheTtlMs <= inject_Z (at_fresh clock) - parseCachedAt cached)%Q ->
      (inject_Z cacheTtlMs <= inject_Z (at_evict clock) - parseCachedAt cached)%Q ->
      weatherCache out.1 = delete cleaned (weatherCache st)
      /\ (key ∉ requestInFlight st ->
          throttleMs <= at_throttle clock - default 0 (requestCooldowns st !! key) ->
          out.2 = Some cleaned /\ status out.1 = Loading
          /\ key ∈ requestInFlight out.1)).
Proof.
  intros cleaned cached key out Hne Hstamp. subst out.
  pose proof (stamped_truthy _ Hstamp) as Ht.
  destruct (entered_refs location clock st) as (Hfl & Hcd & _ & _).
  split.
  - intros Hage.
    rewrite fetchWeather_fresh by (done || by apply isCacheFresh_true).
    simpl. by rewrite Hfl, Hcd.
  - intros Hage1 Hage2.
    apply isCacheFresh_stale in Hage1, Hage2.
    rewrite fetchWeather_checked
      by (done || (fold cleaned cached; by rewrite Hage1, andb_false_r)).
    fold cleaned cached key. split.
    + pose proof (entered_cache_stale location clock st Ht Hage2) as Hev.
      destruct (decide (key ∈ requestInFlight st)) as [Hin|Hout].
      * rewrite suppressed_in_flight by (by rewrite Hfl). simpl.
        by rewrite Ht.
      * destruct (Z_lt_ge_dec
                    (at_throttle clock - default 0 (requestCooldowns st !! key))
                    throttleMs) as [Hlt|Hge].
        -- rewrite suppressed_throttled by (by rewrite ?Hfl, ?Hcd). simpl.
           by rewrite Ht.
        -- rewrite suppressed_passes by (rewrite ?Hfl, ?Hcd; done || lia).
           simpl. done.
    + intros Hout Hge.
      rewrite suppressed_passes by (by rewrite ?Hfl, ?Hcd). simpl.
      repeat split. apply elem_of_union_l. by apply elem_of_singleton.
Qed.

Lemma blocked_entered key force now location clock st :
  blocked throttleMs key force now (entered location clock st)
  <-> blocked throttleMs key force now st.
Proof.
  destruct (entered_refs location clock st) as (Hfl & Hcd & _).
  unfold blocked. by rewrite Hfl, Hcd.
Qed.

Lemma blocked_enteredExtended key force now location clock st :
  blocked throttleMs key force now (enteredExtended location clock st)
  <-> blocked throttleMs key force now st.
Proof.
  destruct (enteredExtended_refs location clock st) as (Hfl & Hcd & _).
  unfold blocked. by rewrite Hfl, Hcd.
Qed.

(** What [fetchWeather] does with an entry that is stale at both readings. *)
Lemma stale_weather (st : state) (location : string) (force : bool)
    (clock : readings) :
  let cleaned := trim location in
  let cached := cached_at_key (weatherCache st) cleaned in
  let key := "weather:" +:+ toLowerCase cleaned in
  let out := fetchWeather location force clock st in
  cleaned <> "" -> truthy cached = true ->
  (inject_Z cacheTtlMs <= inject_Z (at_fresh clock) - parseCachedAt cached)%Q ->
  (inject_Z cacheTtlMs <= inject_Z (at_evict clock) - parseCachedAt cached)%Q ->
  weatherCache out.1 = delete cleaned (weatherCache st)
  /\ (blocked throttleMs key force (at_throttle clock) st ->
      out.2 = None /\ weather out.1 = cached /\ status out.1 = Ready)
  /\ (~ blocked throttleMs key force (at_throttle clock) st ->
      out.2 = Some cleaned /\ weather out.1 = weather st
      /\ status out.1 = Loading).
Proof.
  intros cleaned cached key out Hne Ht Hage1 Hage2. subst out.
  apply isCacheFresh_stale in Hage1, Hage2.
  rewrite fetchWeather_checked
    by (done || (fold cleaned cached; by rewrite Hage1, andb_false_r)).
  fold cleaned cached key. cbv zeta.
  pose proof (entered_cache_stale location clock st Ht Hage2) as Hev.
  destruct (entered_refs location clock st) as (_ & _ & Hw & _).
  assert (Hcase : blocked throttleMs key force (at_throttle clock) st
                  \/ ~ blocked throttleMs key force (at_throttle clock) st).
  { unfold blocked. destruct (decide (key ∈ requestInFlight st)); [tauto|].
    destruct force; [right; intros [?|[? _]]; done|].
    destruct (Z_lt_ge_dec
                (at_throttle clock - default 0 (requestCooldowns st !! key))
                throttleMs); [tauto|].
    right. intros [?|[_ ?]]; [done|lia]. }
  destruct Hcase as [Hb|Hnb].
  - rewrite suppressed_blocked by (by apply blocked_entered).
    simpl. rewrite Ht. simpl. repeat split; tauto.
  - pose proof Hnb as Hnb'.
    rewrite <- (blocked_entered _ _ _ location clock) in Hnb'.
    destruct (suppressed_not_blocked _ _ _ _ Hnb') as (Hs & _ & Hw' & Hc' & _).
    rewrite Hs. simpl. rewrite Hc', Hw', Hw. repeat split; tauto.
Qed.

(** The same for [fetchExtended]. *)
Lemma stale_extended (st : state) (location : string) (force : bool)
    (clock : readings) :
  let cleaned := trim location in
  let cached := cached_at_key (extendedCache st) cleaned in
  let key := "extended:" +:+ toLowerCase cleaned in
  let out := fetchExtended location force clock st in
  cleaned <> "" -> truthy cached = true ->
  (inject_Z cacheTtlMs <= inject_Z (at_fresh clock) - parseCachedAt cached)%Q ->
  (inject_Z cacheTtlMs <= inject_Z (at_evict clock) - parseCachedAt cached)%Q ->
  extendedCache out.1 = delete cleaned (extendedCache st)
  /\ (blocked throttleMs key force (at_throttle clock) st ->
      out.2 = None /\ extendedData out.1 = cached
      /\ extendedStatus out.1 = Ready)
  /\ (~ blocked throttleMs key force (at_throttle clock) st ->
      out.2 = Some cleaned /\ extendedData out.1 = extendedData st
      /\ extendedStatus out.1 = Loading).
Proof.
  intros cleaned cached key out Hne Ht Hage1 Hage2. subst out.
  apply isCacheFresh_stale in Hage1, Hage2.
  rewrite fetchExtended_checked
    by (done || (fold cleaned cached; by rewrite Hage1, andb_false_r)).
  fold cleaned cached key. cbv zeta.
  pose proof (enteredExtended_cache_stale location clock st Ht Hage2) as Hev.
  destruct (enteredExtended_refs location clock st) as (_ & _ & Hw & _).
  assert (Hcase : blocked throttleMs key force (at_throttle clock) st
                  \/ ~ blocked throttleMs key force (at_throttle clock) st).
  { unfold blocked. destruct (decide (key ∈ requestInFlight st)); [tauto|].
    destruct force; [right; intros [?|[? _]]; done|].
    destruct (Z_lt_ge_dec
                (at_throttle clock - default 0 (requestCooldowns st !! key))
                throttleMs); [tauto|].
    right. intros [?|[_ ?]]; [done|lia]. }
  destruct Hcase as [Hb|Hnb].
  - rewrite suppressed_blocked by (by apply blocked_enteredExtended).
    simpl. rewrite Ht. simpl. repeat split; tauto.
  - pose proof Hnb as Hnb'.
    rewrite <- (blocked_enteredExtended _ _ _ location clock) in Hnb'.
    destruct (suppressed_not_blocked _ _ _ _ Hnb') as (Hs & _ & _ & _ & Hw' & Hc').
    rewrite Hs. simpl. rewrite Hc', Hw', Hw. repeat split; tauto.
Qed.

(** C4, as the code has it.  When [fetchWeather] or [fetchExtended] finds,
    under the trimmed location, a cache entry whose age is at least the time
    to live, the entry is removed from the cache and is never taken for a
    fresh hit.  If the call is blocked (a request for the key is in flight,
    or the call is not forced and the throttle interval has not elapsed) no
    request is issued and the stale entry the call has read is shown with
    status "ready"; otherwise a request is issued, the status becomes
    "loading" and what is shown stays as it was. *)
Theorem stale_entry_is_evicted (st : state) (location : string) (force : bool)
    (clock : readings) :
  let cleaned := trim location in
  let w := cached_at_key (weatherCache st) cleaned in
  let x := cached_at_key (extendedCache st) cleaned in
  let wkey := "weather:" +:+ toLowerCase cleaned in
  let xkey := "extended:" +:+ toLowerCase cleaned in
  let wout := fetchWeather location force clock st in
  let xout := fetchExtended location force clock st in
  cleaned <> "" ->
  (truthy w = true ->
   (inject_Z cacheTtlMs <= inject_Z (at_fresh clock) - parseCachedAt w)%Q ->
   (inject_Z cacheTtlMs <= inject_Z (at_evict clock) - parseCachedAt w)%Q ->
   weatherCache wout.1 = delete cleaned (weatherCache st)
   /\ (blocked throttleMs wkey force (at_throttle clock) st ->
       wout.2 = None /\ weather wout.1 = w /\ status wout.1 = Ready)
   /\ (~ blocked throttleMs wkey force (at_throttle clock) st ->
       wout.2 = Some cleaned /\ weather wout.1 = weather st
       /\ status wout.1 = Loading))
  /\ (truthy x = true ->
      (inject_Z cacheTtlMs <= inject_Z (at_fresh clock) - parseCachedAt x)%Q ->
      (inject_Z cacheTtlMs <= inject_Z (at_evict clock) - parseCachedAt x)%Q ->
      extendedCache xout.1 = delete cleaned (extendedCache st)
      /\ (blocked throttleMs xkey force (at_throttle clock) st ->
          xout.2 = None /\ extendedData xout.1 = x
          /\ extendedStatus xout.1 = Ready)
      /\ (~ blocked throttleMs xkey force (at_throttle clock) st ->
          xout.2 = Some cleaned /\ extendedData xout.1 = extendedData st
          /\ extendedStatus xout.1 = Loading)).
Proof.
  intros cleaned w x wkey xkey wout xout Hne. split.
  - intros. by apply stale_weather.
  - intros. by apply stale_extended.
Qed.


(** Cooldown stamps of other keys are not touched, and a request is always
    for the trimmed location. *)
Lemma fetchWeather_frame location force clock st :
  (forall key, key <> "weather:" +:+ toLowerCase (trim location) ->
     requestCooldowns (fetchWeather location force clock st).1 !! key
     = requestCooldowns st !! key)
  /\ (forall c, (fetchWeather location force clock st).2 = Some c ->
        c = trim location).
Proof.
  unfold Client.fetchWeather, Client.suppressed, Client.shouldThrottle.
  split; [intros key Hkey|intros c];
    repeat (match goal with
            | |- context [if ?b then _ else _] => destruct b
            end; simpl);
    rewrite ?lookup_insert_ne; congruence.
Qed.

Lemma fetchExtended_frame location force clock st :
  (forall key, key <> "extended:" +:+ toLowerCase (trim location) ->
     requestCooldowns (fetchExtended location force clock st).1 !! key
     = requestCooldowns st !! key)
  /\ (forall c, (fetchExtended location force clock st).2 = Some c ->
        c = trim location).
Proof.
  unfold Client.fetchExtended, Client.suppressed, Client.shouldThrottle.
  split; [intros key Hkey|intros c];
    repeat (match goal with
            | |- context [if ?b then _ else _] => destruct b
            end; simpl);
    rewrite ?lookup_insert_ne; congruence.
Qed.

Lemma activeLocationEffect_cooldowns before st :
  requestCooldowns (activeLocationEffect before st) = requestCooldowns st.
Proof. unfold activeLocationEffect. by destruct (String.eqb _ _). Qed.

(** An event that is not a [fetchWeather] call for [k] keeps the stamp of
    [k] and issues no weather request for [k]. *)
Lemma step_quiet (k : string) (st : state) (e : event) :
  calls_for k e = false ->
  requestCooldowns (step st e).1 !! ("weather:" +:+ k)
  = requestCooldowns st !! ("weather:" +:+ k)
  /\ (forall r, (step st e).2 = Some r -> request_for k r = false).
Proof.
  intros Hq. destruct e as [location force clock|cleaned r now
                            |location force clock|cleaned r now]; simpl in *.
  - apply String.eqb_neq in Hq.
    destruct (fetchWeather_frame location force clock st) as [Hcd Hreq].
    destruct (fetchWeather location force clock st) as [st1 req] eqn:E.
    simpl in *. rewrite activeLocationEffect_cooldowns. split.
    + apply Hcd. intros Heq. apply weather_key_inj in Heq. congruence.
    + intros r Hr. destruct req as [c|]; [|done]. injection Hr as <-.
      unfold request_for. simpl. rewrite (Hreq c eq_refl).
      by apply String.eqb_neq.
  - split; [|done]. unfold Client.weatherSettled. by destruct (reply_data r).
  - destruct (fetchExtended_frame location force clock st) as [Hcd Hreq].
    destruct (fetchExtended location force clock st) as [st1 req] eqn:E.
    simpl in *. split.
    + apply Hcd. intros Heq. symmetry in Heq.
      by apply extended_key_not_weather in Heq.
    + intros r Hr. by destruct req as [c|]; [injection Hr as <-|].
  - split; [|done]. unfold Client.extendedSettled. by destruct (reply_data r).
Qed.

Lemma run_app st es1 es2 :
  run st (es1 ++ es2)
  = ((run (run st es1).1 es2).1, (run st es1).2 ++ (run (run st es1).1 es2).2)%list.
Proof.
  revert st. induction es1 as [|e es1 IH]; intros st; simpl.
  - by destruct (run st es2).
  - destruct (step st e) as [st1 req]. rewrite IH.
    destruct (run st1 es1) as [st2 reqs]. simpl.
    by rewrite app_assoc.
Qed.

(** Across events that are no [fetchWeather] call for [k], the stamp of
    [k] stays and no weather request for [k] goes out. *)
Lemma run_quiet (k : string) (es : list event) : forall st,
  forallb (fun e => negb (calls_for k e)) es = true ->
  requestCooldowns (run st es).1 !! ("weather:" +:+ k)
  = requestCooldowns st !! ("weather:" +:+ k)
  /\ filter (fun r => request_for k r = true) (run st es).2 = [].
Proof.
  induction es as [|e es IH]; intros st Hall; simpl in *; [done|].
  apply andb_true_iff in Hall as [He Hall]. apply negb_true_iff in He.
  destruct (step_quiet k st e He) as [Hcd Hreq].
  destruct (step st e) as [st1 req]. simpl in *.
  destruct (IH st1 Hall) as [Hcd' Hreq'].
  destruct (run st1 es) as [st2 reqs]. simpl in *.
  split; [congruence|].
  rewrite filter_app, Hreq'. destruct req as [r|]; simpl; [|done].
  rewrite filter_cons_False, filter_nil; [done|].
  rewrite (Hreq r eq_refl). done.
Qed.

(** A non-forced call within the throttle interval of the key's stamp
    issues no request, whatever the cache holds. *)
Lemma fetchWeather_recent location clock st (last : Z) :
  requestCooldowns st !! ("weather:" +:+ toLowerCase (trim location)) = Some last ->
  at_throttle clock - last < throttleMs ->
  (fetchWeather location false clock st).2 = None.
Proof.
  intros Hlast Hlt.
  destruct (decide (trim location = "")) as [Hempty|Hne].
  { unfold Client.fetchWeather. by rewrite Hempty. }
  destruct (negb false && truthy (cached_at_key (weatherCache st) (trim location))
            && isCacheFresh (at_fresh clock)
                 (cached_at_key (weatherCache st) (trim location))) eqn:Hf.
  - apply andb_true_iff in Hf as [Ht Hf]. simpl in Ht.
    by rewrite fetchWeather_fresh.
  - rewrite fetchWeather_checked by done.
    destruct (entered_refs location clock st) as (_ & Hcd & _).
    rewrite (suppressed_recent _ _ _ last) by (by rewrite ?Hcd). done.
Qed.

(** A forced call goes out unless a request for the key is in flight. *)
Lemma fetchWeather_forced location clock st :
  let key := "weather:" +:+ toLowerCase (trim location) in
  trim location <> "" ->
  (key ∉ requestInFlight st ->
     (fetchWeather location true clock st).2 = Some (trim location)
     /\ requestCooldowns (fetchWeather location true clock st).1
        = requestCooldowns st)
  /\ (key ∈ requestInFlight st ->
      (fetchWeather location true clock st).2 = None).
Proof.
  intros key Hne. rewrite fetchWeather_checked by done. fold key.
  destruct (entered_refs location clock st) as (Hfl & Hcd & _).
  split; intros Hkey.
  - rewrite suppressed_forced by (by rewrite Hfl). simpl. by rewrite Hcd.
  - rewrite suppressed_in_flight by (by rewrite Hfl). done.
Qed.

(** What [fetchWeather] does to the in-flight set: nothing, or it adds its
    own key, and then it issues the request. *)
Lemma fetchWeather_in_flight location force clock st :
  let key := "weather:" +:+ toLowerCase (trim location) in
  let out := fetchWeather location force clock st in
  (out.2 = None /\ requestInFlight out.1 = requestInFlight st)
  \/ (out.2 = Some (trim location)
      /\ (key ∉ requestInFlight st)
      /\ requestInFlight out.1 = {[key]} ∪ requestInFlight st).
Proof.
  cbv zeta. unfold Client.fetchWeather.
  destruct (String.eqb (trim location) ""); [by left|].
  destruct (negb force && _ && _).
  { left. split; [done|]. simpl. by destruct (truthy _ && negb _). }
  unfold Client.suppressed, isInFlight, Client.shouldThrottle.
  destruct (truthy _ && negb _); simpl;
    destruct (bool_decide _) eqn:Hfl; simpl;
    try (left; split; [done|]; by destruct (truthy _));
    apply bool_decide_eq_false in Hfl;
    destruct force; simpl; try (by right);
    destruct (_ <? throttleMs); simpl;
    try (left; split; [done|]; by destruct (truthy _)); by right.
Qed.

Lemma fetchExtended_in_flight location force clock st :
  let key := "extended:" +:+ toLowerCase (trim location) in
  let out := fetchExtended location force clock st in
  (out.2 = None /\ requestInFlight out.1 = requestInFlight st)
  \/ (out.2 = Some (trim location)
      /\ (key ∉ requestInFlight st)
      /\ requestInFlight out.1 = {[key]} ∪ requestInFlight st).
Proof.
  cbv zeta. unfold Client.fetchExtended.
  destruct (String.eqb (trim location) ""); [by left|].
  destruct (negb force && _ && _).
  { left. split; [done|]. simpl. by destruct (truthy _ && negb _). }
  unfold Client.suppressed, isInFlight, Client.shouldThrottle.
  destruct (truthy _ && negb _); simpl;
    destruct (bool_decide _) eqn:Hfl; simpl;
    try (left; split; [done|]; by destruct (truthy _));
    apply bool_decide_eq_false in Hfl;
    destruct force; simpl; try (by right);
    destruct (_ <? throttleMs); simpl;
    try (left; split; [done|]; by destruct (truthy _)); by right.
Qed.

Lemma activeLocationEffect_in_flight before st :
  requestInFlight (activeLocationEffect before st) = requestInFlight st.
Proof. unfold activeLocationEffect. by destruct (String.eqb _ _). Qed.

Lemma weatherSettled_in_flight cleaned r now st :
  requestInFlight (weatherSettled cleaned r now st)
  = requestInFlight st ∖ {["weather:" +:+ toLowerCase cleaned]}.
Proof. unfold Client.weatherSettled. by destruct (reply_data r). Qed.

Lemma extendedSettled_in_flight cleaned r now st :
  requestInFlight (extendedSettled cleaned r now st)
  = requestInFlight st ∖ {["extended:" +:+ toLowerCase cleaned]}.
Proof. unfold Client.extendedSettled. by destruct (reply_data r). Qed.

Lemma step_in_flight (k : string) (st : state) (e : event) :
  "weather:" +:+ k ∈ requestInFlight st ->
  replies_for k e = false ->
  "weather:" +:+ k ∈ requestInFlight (step st e).1
  /\ (forall r, (step st e).2 = Some r -> request_for k r = false).
Proof.
  intros Hfl He.
  destruct e as [location force clock|cleaned r now|location force clock|cleaned r now];
    unfold Client.step.
  - pose proof (fetchWeather_in_flight location force clock st) as H.
    cbv zeta in H.
    destruct (fetchWeather location force clock st) as [st1 req] eqn:E.
    cbn [fst snd] in *. rewrite activeLocationEffect_in_flight.
    destruct H as [[-> ->]|(-> & Hnew & ->)].
    + split; [done|]. intros r [=].
    + split; [apply elem_of_union_r; done|].
      intros r [= <-]. unfold request_for. cbn [fst snd].
      apply String.eqb_neq. intros <-. done.
  - cbn [fst snd]. rewrite weatherSettled_in_flight. split; [|intros r' [=]].
    apply elem_of_difference. split; [done|].
    rewrite elem_of_singleton. intros Heq. apply weather_key_inj in Heq.
    cbn [replies_for] in He. apply String.eqb_neq in He. congruence.
  - pose proof (fetchExtended_in_flight location force clock st) as H.
    cbv zeta in H.
    destruct (fetchExtended location force clock st) as [st1 req] eqn:E.
    cbn [fst snd] in *.
    destruct H as [[-> ->]|(-> & Hnew & ->)].
    + split; [done|]. intros r [=].
    + split; [apply elem_of_union_r; done|]. by intros r [= <-].
  - cbn [fst snd]. rewrite extendedSettled_in_flight. split; [|intros r' [=]].
    apply elem_of_difference. split; [done|].
    rewrite elem_of_singleton. intros Heq. symmetry in Heq.
    by apply extended_key_not_weather in Heq.
Qed.

(** While a weather request for [k] is in flight, no run without the
    reply to it issues another one; the key stays in flight. *)
Lemma run_in_flight (k : string) (es : list event) :
  forall st,
  "weather:" +:+ k ∈ requestInFlight st ->
  forallb (fun e => negb (replies_for k e)) es = true ->
  filter (fun r => request_for k r = true) (run st es).2 = []
  /\ "weather:" +:+ k ∈ requestInFlight (run st es).1.
Proof.
  induction es as [|e es IH]; intros st Hfl Hes; [done|].
  simpl in Hes. apply andb_true_iff in Hes as [He Hes].
  apply negb_true_iff in He.
  destruct (step_in_flight k st e Hfl He) as [Hfl1 Hreq].
  simpl. destruct (step st e) as [st1 req] eqn:E1. simpl in *.
  destruct (IH st1 Hfl1 Hes) as [Hnone Hfl2].
  destruct (run st1 es) as [st2 reqs] eqn:E2. simpl in *.
  split; [|done].
  rewrite filter_app, Hnone, app_nil_r.
  destruct req as [r|]; [|done]. simpl.
  rewrite filter_cons_False; [done|]. rewrite (Hreq r eq_refl). done.
Qed.

Lemma toLowerCase_nonempty (s : string) : s <> "" -> toLowerCase s <> "".
Proof. by destruct s. Qed.

(** C6.  Let a non-forced [fetchWeather] call find no fresh cache entry, no
    request in flight for its key and the throttle interval elapsed, so that
    its request goes out.
    - Whatever happens in between short of further [fetchWeather] calls for
      that key (replies, calls for other locations, extended calls), a
      second non-forced call for the same lower-cased location less than the
      throttle interval later issues nothing: of the weather requests for
      the key, the run issues exactly the first.
    - While the request of the first call is in flight (whatever happens
      short of the reply to it), a forced call for the key issues nothing
      either.
    - Once the reply is in, a forced call for the key issues a request,
      although the reply may just have left a fresh cache entry and the
      stamp of the first call may be younger than the throttle interval.
    - On any state, a forced call issues a request whatever the cache and
      the cooldown stamps hold, and leaves the stamps alone, unless a
      request for its key is in flight; then it issues none. *)
Theorem throttle_and_forced_refresh
    (st : state) (first second : string) (clock1 clock2 : readings)
    (between : list event) :
  let k := toLowerCase (trim first) in
  let key := "weather:" +:+ k in
  let cached := cached_at_key (weatherCache st) (trim first) in
  trim first <> "" ->
  toLowerCase (trim second) = k ->
  truthy cached && isCacheFresh (at_fresh clock1) cached = false ->
  key ∉ requestInFlight st ->
  throttleMs <= at_throttle clock1 - default 0 (requestCooldowns st !! key) ->
  at_throttle clock2 - at_throttle clock1 < throttleMs ->
  forallb (fun e => negb (calls_for k e)) between = true ->
  filter (fun r => request_for k r = true)
    (run st (CallWeather first false clock1
               :: between ++ [CallWeather second false clock2])).2
  = [(Weather, trim first)]
  /\ (forall st' location clock,
        trim location <> "" ->
        "weather:" +:+ toLowerCase (trim location) ∉ requestInFlight st' ->
        (fetchWeather location true clock st').2 = Some (trim location)
        /\ requestCooldowns (fetchWeather location true clock st').1
           = requestCooldowns st')
  /\ (forall st' location clock,
        trim location <> "" ->
        "weather:" +:+ toLowerCase (trim location) ∈ requestInFlight st' ->
        (fetchWeather location true clock st').2 = None)
  /\ (forall pending clock3,
        forallb (fun e => negb (replies_for k e)) pending = true ->
        filter (fun r => request_for k r = true)
          (run st (CallWeather first false clock1
                     :: pending ++ [CallWeather second true clock3])).2
        = [(Weather, trim first)])
  /\ (forall r now clock3,
        filter (fun r => request_for k r = true)
          (run st [CallWeather first false clock1;
                   WeatherReply (trim first) r now;
                   CallWeather second true clock3]).2
        = [(Weather, trim first); (Weather, trim second)]).
Proof.
  intros k key cached Hne Hsame Hstale Hout Hcool Hgap Hquiet.
  (* the first call goes out, stamps the key and marks it in flight *)
  assert (Hfirst : (fetchWeather first false clock1 st).2 = Some (trim first)
                   /\ requestCooldowns (fetchWeather first false clock1 st).1 !! key
                      = Some (at_throttle clock1)).
  { rewrite fetchWeather_checked by done. fold k key.
    destruct (entered_refs first clock1 st) as (Hfl & Hcd & _).
    rewrite suppressed_passes by (by rewrite ?Hfl, ?Hcd). simpl.
    by rewrite lookup_insert_eq. }
  destruct Hfirst as [Hreq Hstamp].
  assert (Hflight : key ∈ requestInFlight (fetchWeather first false clock1 st).1).
  { destruct (fetchWeather_in_flight first false clock1 st)
      as [[Hnone _]|(_ & _ & ->)]; [congruence|].
    apply elem_of_union_l. by apply elem_of_singleton. }
  assert (Hmine : request_for k (Weather, trim first) = true).
  { unfold request_for. simpl. by apply String.eqb_eq. }
  assert (Hne2 : trim second <> "").
  { intros Hempty. rewrite Hempty in Hsame.
    by apply (toLowerCase_nonempty (trim first) Hne). }
  split; [|split; [|split; [|split]]].
  2: { intros st' location clock Hl. by apply fetchWeather_forced. }
  2: { intros st' location clock Hl. by apply fetchWeather_forced. }
  - change (CallWeather first false clock1
              :: between ++ [CallWeather second false clock2])
      with ([CallWeather first false clock1]
              ++ between ++ [CallWeather second false clock2])%list.
    rewrite !run_app. simpl.
    destruct (fetchWeather first false clock1 st) as [st1 req1] eqn:E1.
    simpl in *. subst req1. simpl.
    set (st1' := activeLocationEffect (activeLocation st) st1).
    assert (Hstamp' : requestCooldowns st1' !! key = Some (at_throttle clock1)).
    { unfold st1'. by rewrite activeLocationEffect_cooldowns. }
    destruct (run_quiet k between st1' Hquiet) as [Hcd Hnone].
    rewrite filter_cons_True by done.
    f_equal. rewrite filter_app, Hnone. simpl.
    pose proof (fetchWeather_recent second clock2 (run st1' between).1
                  (at_throttle clock1)) as Hlast.
    rewrite Hsame, Hcd in Hlast. specialize (Hlast Hstamp' Hgap).
    destruct (fetchWeather second false clock2 _) as [st3 req3].
    simpl in *. by subst req3.
  - intros pending clock3 Hpending.
    change (CallWeather first false clock1
              :: pending ++ [CallWeather second true clock3])
      with ([CallWeather first false clock1]
              ++ (pending ++ [CallWeather second true clock3]))%list.
    rewrite run_app. cbn [snd fst]. rewrite filter_app.
    assert (Hall : forallb (fun e => negb (replies_for k e))
                     (pending ++ [CallWeather second true clock3]) = true).
    { rewrite forallb_app, Hpending. reflexivity. }
    assert (Hstart : run st [CallWeather first false clock1]
                     = (activeLocationEffect (activeLocation st)
                          (fetchWeather first false clock1 st).1,
                        [(Weather, trim first)])).
    { simpl. destruct (fetchWeather first false clock1 st) as [st1 req1].
      simpl in *. by subst req1. }
    rewrite Hstart. cbn [snd fst].
    destruct (run_in_flight k _ (activeLocationEffect (activeLocation st)
                                   (fetchWeather first false clock1 st).1)
                ltac:(by rewrite activeLocationEffect_in_flight) Hall)
      as [Hnone _].
    rewrite Hnone, app_nil_r. by rewrite filter_cons_True by done.
  - intros r now clock3.
    assert (Hgone : key ∉ requestInFlight
                      (weatherSettled (trim first) r now
                         (activeLocationEffect (activeLocation st)
                            (fetchWeather first false clock1 st).1))).
    { rewrite weatherSettled_in_flight. fold k key.
      apply not_elem_of_difference. right. by apply elem_of_singleton. }
    destruct (fetchWeather_forced second clock3
                (weatherSettled (trim first) r now
                   (activeLocationEffect (activeLocation st)
                      (fetchWeather first false clock1 st).1)) Hne2)
      as [Hgo _].
    rewrite Hsame in Hgo. fold key in Hgo. destruct (Hgo Hgone) as [Hsecond _].
    unfold Client.run, Client.step.
    destruct (fetchWeather first false clock1 st) as [st1 req1] eqn:E1.
    cbn [fst snd] in *. subst req1.
    destruct (fetchWeather second true clock3 _) as [st3 req3] eqn:E3.
    cbn [fst snd] in *. subst req3. simpl.
    rewrite filter_cons_True by done.
    rewrite filter_cons_True; [done|].
    unfold request_for. simpl. by apply String.eqb_eq.
Qed.

#[local] Transparent Client.entered Client.enteredExtended.

End Fetching.

(** The boundary of the spec's scenario: an entry cached at 2100 is served
    at 2100 + ttl - 1 and refetched at 2100 + ttl + 1. *)
Lemma cache_ttl_boundary_witness :
  (fetchWeather ttl throttle no_dates "Berlin" false
     (at_time (2100 + ttl - 1)) warm).2 = None
  /\ (fetchWeather ttl throttle no_dates "Berlin" false
        (at_time (2100 + ttl + 1)) warm).2 = Some "Berlin".
Proof.
  split.
  - destruct (cache_ttl_boundary ttl throttle no_dates warm "Berlin"
                (at_time (2100 + ttl - 1)) ltac:(discriminate)
                ltac:(by vm_compute)) as [Hfresh _].
    apply Hfresh. by vm_compute.
  - destruct (cache_ttl_boundary ttl throttle no_dates warm "Berlin"
                (at_time (2100 + ttl + 1)) ltac:(discriminate)
                ltac:(by vm_compute)) as [_ Hstale].
    destruct Hstale as [_ Hgo]; [by vm_compute..|].
    apply Hgo; by vm_compute.
Defined.

(** C5 as stated fails: the entry is 300100 ms old and no request is in
    flight, yet the call issues none, because "berlin" stamped the same
    throttle key 500 ms earlier. *)
Lemma stale_but_throttled :
  parseCachedAt no_dates (cached_at_key (weatherCache searched) "Berlin")
  = inject_Z 2100
  /\ ttl <= 302200 - 2100
  /\ requestInFlight searched = ∅
  /\ requestCooldowns searched !! "weather:berlin" = Some 301700
  /\ (fetchWeather ttl throttle no_dates "Berlin" false (at_time 302200)
        searched).2 = None.
Proof. by vm_compute. Qed.

(** The same with one spelling and a time to live of one second, shorter
    than the throttle interval: fetched at 2000, cached at 2050, clicked
    again at 3100. *)
Example stale_but_throttled_short_ttl :
  let st := (run 1000 throttle no_dates failed_text init
               [CallWeather "Berlin" false (at_time 2000);
                WeatherReply "Berlin" (Replied true (snapshot "Berlin")) 2050]).1 in
  let out := fetchWeather 1000 throttle no_dates "Berlin" false (at_time 3100) st in
  isCacheFresh 1000 no_dates 3100 (cached_at_key (weatherCache st) "Berlin") = false
  /\ requestInFlight st = ∅
  /\ out.2 = None
  /\ weather out.1 = stamp (snapshot "Berlin") 2050
  /\ status out.1 = Ready.
Proof. by vm_compute. Qed.

(** A stale entry met while a forced refresh is in flight. *)
Lemma stale_entry_is_evicted_witness :
  let out := fetchWeather ttl throttle no_dates "Berlin" false
               (at_time 302200) refreshing in
  weatherCache out.1 = delete "Berlin" (weatherCache refreshing)
  /\ out.2 = None
  /\ weather out.1 = cached_at_key (weatherCache refreshing) "Berlin"
  /\ status out.1 = Ready.
Proof.
  destruct (stale_entry_is_evicted ttl throttle no_dates refreshing "Berlin"
              false (at_time 302200) ltac:(discriminate)) as [Hw _].
  destruct Hw as (Hcache & Hblocked & _); [by vm_compute..|].
  split; [exact Hcache|].
  apply Hblocked. left. by vm_compute.
Defined.

(** C4 as stated fails: "Kyoto" is on display and a refresh of "Berlin" is
    in flight; a click on "Berlin", whose entry is 300100 ms old, puts that
    stale entry on display with status "ready". *)
Lemma stale_entry_is_shown :
  let out := go refreshing [CallWeather "Berlin" false (at_time 302200)] in
  weather refreshing = stamp (snapshot "Kyoto") 3100
  /\ status refreshing = Loading
  /\ cached_at_key (weatherCache refreshing) "Berlin"
     = stamp (snapshot "Berlin") 2100
  /\ ttl <= 302200 - 2100
  /\ out.2 = []
  /\ weather out.1 = stamp (snapshot "Berlin") 2100
  /\ status out.1 = Ready.
Proof. by vm_compute. Qed.

(** Two clicks 500 ms apart, the reply in between. *)
Lemma throttle_and_forced_refresh_witness :
  filter (fun r => request_for "berlin" r = true)
    (go init (CallWeather "Berlin" false (at_time 2000)
                :: [WeatherReply "Berlin" (Replied true (snapshot "Berlin")) 2100]
                ++ [CallWeather " berlin" false (at_time 2500)])).2
  = [(Weather, "Berlin")]
  /\ (forall st' location clock,
        trim location <> "" ->
        "weather:" +:+ toLowerCase (trim location) ∉ requestInFlight st' ->
        (fetchWeather ttl throttle no_dates location true clock st').2
        = Some (trim location)
        /\ requestCooldowns
             (fetchWeather ttl throttle no_dates location true clock st').1
           = requestCooldowns st')
  /\ (forall st' location clock,
        trim location <> "" ->
        "weather:" +:+ toLowerCase (trim location) ∈ requestInFlight st' ->
        (fetchWeather ttl throttle no_dates location true clock st').2 = None)
  /\ filter (fun r => request_for "berlin" r = true)
       (go init (CallWeather "Berlin" false (at_time 2000)
                   :: [CallExtended "Berlin" false (at_time 2001);
                       WeatherReply "Kyoto" Rejected 2002]
                   ++ [CallWeather " berlin" true (at_time 2003)])).2
     = [(Weather, "Berlin")]
  /\ filter (fun r => request_for "berlin" r = true)
       (go init [CallWeather "Berlin" false (at_time 2000);
                 WeatherReply "Berlin" (Replied true (snapshot "Berlin")) 2100;
                 CallWeather " berlin" true (at_time 2101)]).2
     = [(Weather, "Berlin"); (Weather, "berlin")].
Proof.
  destruct (throttle_and_forced_refresh ttl throttle no_dates failed_text init
              "Berlin" " berlin" (at_time 2000) (at_time 2500)
              [WeatherReply "Berlin" (Replied true (snapshot "Berlin")) 2100]
              ltac:(discriminate) eq_refl eq_refl
              ltac:(by vm_compute) ltac:(by vm_compute) ltac:(by vm_compute)
              eq_refl)
    as (H1 & H2 & H3 & H4 & H5).
  split; [exact H1|]. split; [exact H2|]. split; [exact H3|]. split.
  - exact (H4 [CallExtended "Berlin" false (at_time 2001);
               WeatherReply "Kyoto" Rejected 2002] (at_time 2003) eq_refl).
  - exact (H5 (Replied true (snapshot "Berlin")) 2100 (at_time 2101)).
Defined.

(** A forced call right after the first one is held back while the first
    is in flight, and goes out once the reply is in. *)
Example forced_after_first :
  (go init [CallWeather "Berlin" false (at_time 2000);
            CallWeather "Berlin" true (at_time 2001)]).2
  = [(Weather, "Berlin")]
  /\ (go init [CallWeather "Berlin" false (at_time 2000);
               WeatherReply "Berlin" (Replied true (snapshot "Berlin")) 2100;
               CallWeather "Berlin" true (at_time 2101)]).2
     = [(Weather, "Berlin"); (Weather, "Berlin")].
Proof. by vm_compute. Qed.

End ClientFacts.

(** ** The front end: temperature display *)

Module DisplayFacts.
Import Js Client Samples.

Lemma toCelsius_toFahrenheit (x : Q) : (toCelsius (toFahrenheit x) == x)%Q.
Proof. unfold toCelsius, toFahrenheit. field. Qed.

(** Rounding moves a value by at most one half. *)
Lemma Math_round_near (x : Q) :
  (x - (1 # 2) < inject_Z (Math_round x) <= x + (1 # 2))%Q.
Proof.
  unfold Math_round. split.
  - pose proof (Qlt_floor (x + (1 # 2))) as H.
    rewrite inject_Z_plus in H. change (inject_Z 1) with 1%Q in H. lra.
  - apply Qfloor_le.
Qed.

(** Rounding the Fahrenheit value to a whole degree costs at most half a
    Fahrenheit degree, that is 5/18 of a Celsius degree. *)
Lemma round_trip_error (x : Q) :
  (Qabs (toCelsius (inject_Z (Math_round (toFahrenheit x))) - x) <= 5 # 18)%Q.
Proof.
  pose proof (Math_round_near (toFahrenheit x)) as [Hlo Hhi].
  set (n := inject_Z (Math_round (toFahrenheit x))) in *.
  assert (toCelsius n - x == (n - toFahrenheit x) * (5 # 9))%Q as ->.
  { unfold toCelsius, toFahrenheit. field. }
  apply Qabs_Qle_condition. split; lra.
Qed.

Section Display.
Variable Number_ : value -> option Q.
Hypothesis Number_number : forall q, Number_ (VNum q) = Some q.

(** C9.  A current temperature of 21.5 degrees Celsius is displayed as
    "71 F" ([toFahrenheit] gives 70.7, [formatTemp] rounds it); converting
    the displayed 71 back gives 21.5 up to 1/6 of a degree, within the 5/18
    that rounding to a whole Fahrenheit degree can cost for any value; shown
    in Celsius, the value that comes back reads "22 C" like the original.
    In exact arithmetic the inverse conversion after [toFahrenheit] is the
    identity. *)
Theorem temperature_round_trip :
  formatTemp Number_ (VNum (43 # 2)) "f" = "71 F"
  /\ Math_round (toFahrenheit (43 # 2)) = 71
  /\ (Qabs (toCelsius 71 - (43 # 2)) == 1 # 6)%Q
  /\ (forall x,
        Qabs (toCelsius (inject_Z (Math_round (toFahrenheit x))) - x) <= 5 # 18)%Q
  /\ formatTemp Number_ (VNum (toCelsius 71)) "c" = "22 C"
  /\ formatTemp Number_ (VNum (43 # 2)) "c" = "22 C"
  /\ (forall x, toCelsius (toFahrenheit x) == x)%Q.
Proof using Number_number.
  repeat split.
  - unfold formatTemp. by rewrite Number_number.
  - apply round_trip_error.
  - unfold formatTemp. by rewrite !Number_number.
  - unfold formatTemp. by rewrite !Number_number.
  - apply toCelsius_toFahrenheit.
Qed.

End Display.

Lemma temperature_round_trip_witness :
  formatTemp Number_of_number (VNum (43 # 2)) "f" = "71 F"
  /\ Math_round (toFahrenheit (43 # 2)) = 71
  /\ (Qabs (toCelsius 71 - (43 # 2)) == 1 # 6)%Q
  /\ (forall x,
        Qabs (toCelsius (inject_Z (Math_round (toFahrenheit x))) - x) <= 5 # 18)%Q
  /\ formatTemp Number_of_number (VNum (toCelsius 71)) "c" = "22 C"
  /\ formatTemp Number_of_number (VNum (43 # 2)) "c" = "22 C"
  /\ (forall x, toCelsius (toFahrenheit x) == x)%Q.
Proof.
  apply (temperature_round_trip Number_of_number). reflexivity.
Defined.

(** On binary64 numbers [toFahrenheit(21.5)] lies strictly between 70.5
    and 71.5, so [Math.round] gives 71 there as well. *)
Example toFahrenheit64_rounds_to_71 :
  (70.5 <? toFahrenheit64 21.5)%float = true
  /\ (toFahrenheit64 21.5 <? 71.5)%float = true.
Proof. split; reflexivity. Qed.

End DisplayFacts.

(** ** Strings: trimming, splitting and letter case *)

Module TextFacts.
Import Js.

Lemma trimStart_head (s : string) c r :
  trimStart s = String c r -> is_space c = false.
Proof.
  induction s as [|d s IH]; simpl; [done|].
  destruct (is_space d) eqn:E; [done|]. by intros [= <- _].
Qed.

Lemma trimStart_fixed c r : is_space c = false -> trimStart (String c r) = String c r.
Proof. intros H. simpl. by rewrite H. Qed.

Lemma trimEnd_idem (s : string) : trimEnd (trimEnd s) = trimEnd s.
Proof.
  induction s as [|c s IH]; simpl; [done|].
  destruct (trimEnd s) as [|d r] eqn:E.
  - destruct (is_space c) eqn:Hc; simpl; [done|]. by rewrite Hc.
  - change (trimEnd (String c (String d r)))
      with (match trimEnd (String d r) with
            | "" => if is_space c then "" else String c ""
            | r' => String c r'
            end).
    by rewrite IH.
Qed.

Lemma trimEnd_head c r :
  is_space c = false -> exists r', trimEnd (String c r) = String c r'.
Proof.
  intros Hc. simpl. destruct (trimEnd r); rewrite ?Hc; eauto.
Qed.

(** Trimming twice is trimming once. *)
Lemma trim_idem (s : string) : trim (trim s) = trim s.
Proof.
  unfold trim. destruct (trimStart s) as [|c r] eqn:E; [done|].
  apply trimStart_head in E.
  destruct (trimEnd_head c r E) as [r' Hr]. rewrite Hr.
  rewrite trimStart_fixed by done. rewrite <- Hr. apply trimEnd_idem.
Qed.

(** A string of white space only trims to the empty string. *)
Lemma trim_blank (s : string) :
  Forall (fun c => is_space c = true) (list_ascii_of_string s) -> trim s = "".
Proof.
  unfold trim. induction s as [|c s IH]; simpl; [done|].
  intros H. apply Forall_cons in H as [Hc H]. rewrite Hc. by apply IH.
Qed.

Lemma trim_space (s : string) : trim (String " " s) = trim s.
Proof. reflexivity. Qed.

Lemma comma_prefix (s : string) :
  String.prefix "," s = match s with String c _ => Ascii.eqb c ","%char | "" => false end.
Proof.
  destruct s as [|c s]; [done|].
  destruct c as [[] [] [] [] [] [] [] []]; destruct s; reflexivity.
Qed.

Lemma includes_comma_cons c (s : string) :
  includes "," (String c s) = Ascii.eqb c ","%char || includes "," s.
Proof.
  change (includes "," (String c s))
    with (String.prefix "," (String c s) || includes "," s).
  by rewrite comma_prefix.
Qed.

Lemma includes_comma_nil : includes "," "" = false.
Proof. reflexivity. Qed.

Lemma trimStart_no_comma (s : string) :
  includes "," s = false -> includes "," (trimStart s) = false.
Proof.
  induction s as [|c s IH]; [done|].
  rewrite includes_comma_cons. intros H. apply orb_false_iff in H as [Hc Hs].
  simpl. destruct (is_space c); [by apply IH|].
  rewrite includes_comma_cons. by rewrite Hc, Hs.
Qed.

Lemma trimEnd_no_comma (s : string) :
  includes "," s = false -> includes "," (trimEnd s) = false.
Proof.
  induction s as [|c s IH]; [done|].
  rewrite includes_comma_cons. intros H. apply orb_false_iff in H as [Hc Hs].
  specialize (IH Hs). simpl.
  destruct (trimEnd s) as [|d r].
  - destruct (is_space c); [done|]. rewrite includes_comma_cons. by rewrite Hc.
  - rewrite includes_comma_cons. by rewrite Hc, IH.
Qed.

Lemma trim_no_comma (s : string) :
  includes "," s = false -> includes "," (trim s) = false.
Proof. intros H. unfold trim. by apply trimEnd_no_comma, trimStart_no_comma. Qed.

Lemma split_comma_cons (s : string) : exists piece pieces, split_comma s = piece :: pieces.
Proof.
  induction s as [|c s (p & ps & IH)]; simpl; [eauto|].
  destruct (Ascii.eqb c ","); [eauto|]. rewrite IH. eauto.
Qed.

(** No piece of [split(",")] holds a comma. *)
Lemma split_comma_pieces (s : string) :
  Forall (fun piece => includes "," piece = false) (split_comma s).
Proof.
  induction s as [|c s IH]; simpl; [by repeat constructor|].
  destruct (Ascii.eqb c ",") eqn:Hc; [by constructor|].
  destruct (split_comma s) as [|p ps]; [repeat constructor|].
  - rewrite includes_comma_cons. by rewrite Hc.
  - apply Forall_cons in IH as [Hp Hps]. constructor; [|done].
    rewrite includes_comma_cons. by rewrite Hc, Hp.
Qed.

Lemma split_comma_whole (a : string) :
  includes "," a = false -> split_comma a = [a].
Proof.
  induction a as [|c a IH]; [done|].
  rewrite includes_comma_cons. intros H. apply orb_false_iff in H as [Hc Ha].
  simpl. rewrite Hc. by rewrite IH.
Qed.

Lemma split_comma_app (a b : string) :
  includes "," a = false ->
  split_comma (a +:+ String "," b) = a :: split_comma b.
Proof.
  induction a as [|c a IH].
  - intros _. reflexivity.
  - rewrite includes_comma_cons. intros H. apply orb_false_iff in H as [Hc Ha].
    simpl. rewrite Hc. by rewrite IH.
Qed.

Lemma split_comma_0_app (a b : string) :
  includes "," a = false -> split_comma_0 (a +:+ String "," b) = a.
Proof.
  induction a as [|c a IH].
  - intros _. reflexivity.
  - rewrite includes_comma_cons. intros H. apply orb_false_iff in H as [Hc Ha].
    simpl. rewrite Hc. by rewrite IH.
Qed.

Lemma split_comma_0_no_comma (s : string) : includes "," (split_comma_0 s) = false.
Proof.
  induction s as [|c s IH]; [done|]. simpl.
  destruct (Ascii.eqb c ",") eqn:Hc; [done|].
  rewrite includes_comma_cons. by rewrite Hc, IH.
Qed.

Lemma lower_char_idem c : lower_char (lower_char c) = lower_char c.
Proof.
  destruct c as [[] [] [] [] [] [] [] []]; reflexivity.
Qed.

Lemma toLowerCase_idem (s : string) : toLowerCase (toLowerCase s) = toLowerCase s.
Proof.
  unfold toLowerCase. induction s as [|c s IH]; simpl; [done|].
  by rewrite lower_char_idem, IH.
Qed.

End TextFacts.

(** ** The rate limiter: isolation, bounds and pruning *)

Module StoreFacts.
Import Js Server Samples RateLimitFacts TextFacts.

Lemma live_entry_prune t now (store : gmap string counter) k :
  t <= now ->
  live_entry now (pruneRateLimitStore t store) k = live_entry now store k.
Proof.
  intros Ht. unfold live_entry.
  destruct (prune_lookup t store k) as [->|[-> (e & -> & He)]]; [done|].
  assert ((now >? resetTime e) = true) as -> by (apply Z.gtb_lt; lia). done.
Qed.

Lemma live_entry_later t t' (s1 s2 : gmap string counter) k :
  t <= t' -> live_entry t s1 k = live_entry t s2 k ->
  live_entry t' s1 k = live_entry t' s2 k.
Proof.
  intros Ht. unfold live_entry.
  destruct (s1 !! k) as [e1|], (s2 !! k) as [e2|]; try done.
  - destruct (t >? resetTime e1) eqn:E1, (t >? resetTime e2) eqn:E2; try done.
    + apply Z.gtb_lt in E1, E2.
      assert ((t' >? resetTime e1) = true) as -> by (apply Z.gtb_lt; lia).
      assert ((t' >? resetTime e2) = true) as -> by (apply Z.gtb_lt; lia). done.
    + by intros [= ->].
  - destruct (t >? resetTime e1) eqn:E1; [|done]. intros _.
    apply Z.gtb_lt in E1.
    assert ((t' >? resetTime e1) = true) as -> by (apply Z.gtb_lt; lia). done.
  - destruct (t >? resetTime e2) eqn:E2; [|done]. intros _.
    apply Z.gtb_lt in E2.
    assert ((t' >? resetTime e2) = true) as -> by (apply Z.gtb_lt; lia). done.
Qed.

(** A counted request is decided by the live entry of its key alone. *)
Lemma rateLimit_by_live W max req now (store : gmap string counter) :
  shouldRateLimit req = true ->
  rateLimit W max req now store
  = match live_entry now store (getClientIp req) with
    | None =>
        (<[getClientIp req := opened W now]> (pruneRateLimitStore now store), Next)
    | Some e =>
        if ge_number (count e) max
        then (pruneRateLimitStore now store,
              too_many (retryAfterSeconds (resetTime e) now))
        else (<[getClientIp req := {| count := count e + 1;
                                      resetTime := resetTime e |}]>
                (pruneRateLimitStore now store), Next)
    end.
Proof.
  intros Hgate. unfold live_entry.
  destruct (store !! getClientIp req) as [e|] eqn:Hk.
  - destruct (now >? resetTime e) eqn:E.
    + apply Z.gtb_lt in E. apply rateLimit_opens; [done|]. right. eauto.
    + assert (now <= resetTime e).
      { apply not_true_iff_false in E. rewrite Z.gtb_lt in E. lia. }
      destruct (ge_number (count e) max) eqn:Hmax.
      * by apply rateLimit_rejects.
      * by apply rateLimit_counts.
  - apply rateLimit_opens; [done|]. by left.
Qed.

Lemma rateLimit_live_same W max req now (s1 s2 : gmap string counter) :
  shouldRateLimit req = true ->
  live_entry now s1 (getClientIp req) = live_entry now s2 (getClientIp req) ->
  (rateLimit W max req now s1).2 = (rateLimit W max req now s2).2
  /\ live_entry now (rateLimit W max req now s1).1 (getClientIp req)
     = live_entry now (rateLimit W max req now s2).1 (getClientIp req).
Proof.
  intros Hgate Hlive. rewrite !rateLimit_by_live by done. rewrite Hlive.
  destruct (live_entry now s2 (getClientIp req)) as [e|] eqn:E.
  - destruct (ge_number (count e) max); simpl.
    + split; [done|]. rewrite !live_entry_prune by lia. congruence.
    + split; [done|]. unfold live_entry. by rewrite !lookup_insert_eq.
  - simpl. split; [done|]. unfold live_entry. by rewrite !lookup_insert_eq.
Qed.

Lemma rateLimit_other_live W max req now (store : gmap string counter) k :
  gated_for k req = false ->
  live_entry now (rateLimit W max req now store).1 k = live_entry now store k.
Proof.
  intros Hother. unfold rateLimit, gated_for in *.
  destruct (shouldRateLimit req); simpl in *; [|done].
  apply bool_decide_eq_false in Hother.
  rewrite <- (live_entry_prune now now store k) by lia.
  destruct (pruneRateLimitStore now store !! getClientIp req) as [e'|];
    [destruct (now >? resetTime e'); [|destruct (ge_number (count e') max)]|];
    simpl; unfold live_entry; rewrite ?lookup_insert_ne; done.
Qed.

Lemma serve_isolated W max k reqs : forall t (s1 s2 : gmap string counter),
  Forall (fun rt => t <= rt.2) reqs ->
  in_time_order reqs ->
  live_entry t s1 k = live_entry t s2 k ->
  (verdicts_for k reqs (serve W max reqs s1).2).*2
  = (serve W max (requests_of k reqs) s2).2.
Proof.
  induction reqs as [|[req now] rest IH]; intros t s1 s2 Hall Hsort Hlive; [done|].
  apply Forall_cons in Hall as [Hnow Hall]. simpl in Hnow.
  destruct Hsort as [Hrest Hsort].
  pose proof (live_entry_later t now s1 s2 k Hnow Hlive) as Hlive'.
  rewrite serve_cons. cbn [verdicts_for snd]. unfold requests_of.
  destruct (gated_for k req) eqn:Hg.
  - rewrite filter_cons_True by done. rewrite serve_cons. cbn [snd fst fmap list_fmap].
    pose proof Hg as Hg'. apply andb_true_iff in Hg' as [Hgate Hip].
    apply bool_decide_eq_true in Hip. subst k.
    destruct (rateLimit_live_same W max req now s1 s2 Hgate Hlive') as [Hv Hl].
    simpl. f_equal; [done|]. by apply (IH now).
  - rewrite filter_cons_False by (simpl; congruence).
    apply (IH now); [done..|].
    by rewrite rateLimit_other_live.
Qed.

(** X1.  Clients are isolated.  When the arrival times of a trace never
    decrease, the verdicts the limiter gives on the requests counted against
    a key [k], while the whole trace is served, are exactly the verdicts it
    gives when only those requests are served, from the same store.  The
    requests of other clients, the requests outside [/api/weather] and the
    pruning they trigger change nothing for [k]. *)
Theorem clients_are_isolated W max k (reqs : list (request * Z))
    (store : gmap string counter) :
  in_time_order reqs ->
  (verdicts_for k reqs (serve W max reqs store).2).*2
  = (serve W max (requests_of k reqs) store).2.
Proof.
  intros Hsort.
  destruct reqs as [|[req now] rest]; [done|].
  apply (serve_isolated W max k _ now); [|done..].
  destruct Hsort as [Hle _]. constructor; [simpl; lia|done].
Qed.

Lemma clients_are_isolated_witness :
  (verdicts_for "203.0.113.7"
     [(probe, 1000); (probe_extended, 1001); (health, 1002); (probe, 1003)]
     (serve window limit
        [(probe, 1000); (probe_extended, 1001); (health, 1002); (probe, 1003)] ∅).2).*2
  = (serve window limit
       (requests_of "203.0.113.7"
          [(probe, 1000); (probe_extended, 1001); (health, 1002); (probe, 1003)]) ∅).2.
Proof.
  apply (clients_are_isolated window limit "203.0.113.7"
           [(probe, 1000); (probe_extended, 1001); (health, 1002); (probe, 1003)] ∅).
  simpl. repeat split; repeat constructor; simpl; lia.
Defined.

Lemma rateLimit_within_limit W max req now (store : gmap string counter) :
  (forall k e, store !! k = Some e -> within_limit max e) ->
  forall k e, (rateLimit W max req now store).1 !! k = Some e -> within_limit max e.
Proof.
  intros Hinv k e. unfold rateLimit.
  destruct (shouldRateLimit req); cbn [negb]; cbv zeta; [|apply Hinv].
  assert (Hp : forall k e, pruneRateLimitStore now store !! k = Some e ->
                           within_limit max e).
  { intros k' e' H'. apply (Hinv k').
    destruct (prune_lookup now store k') as [<-|[Hnone _]]; congruence. }
  destruct (pruneRateLimitStore now store !! getClientIp req) as [e0|] eqn:E0;
    [destruct (now >? resetTime e0);
     [|destruct (ge_number (count e0) max) eqn:Hmax]|];
    cbn [fst]; try apply Hp.
  all: destruct (decide (getClientIp req = k)) as [->|Hne];
    [rewrite lookup_insert_eq; intros [= <-]; unfold within_limit; simpl
    |rewrite lookup_insert_ne by done; apply Hp].
  - lia.
  - destruct (Hp _ _ E0) as [H1 _]. split; [lia|]. right.
    by replace (count e0 + 1 - 1) with (count e0) by lia.
  - lia.
Qed.

Lemma serve_within_limit W max reqs : forall (store : gmap string counter),
  (forall k e, store !! k = Some e -> within_limit max e) ->
  forall k e, (serve W max reqs store).1 !! k = Some e -> within_limit max e.
Proof.
  induction reqs as [|[req now] rest IH]; intros store Hinv; [done|].
  rewrite serve_cons. simpl fst. apply IH.
  by apply rateLimit_within_limit.
Qed.

Lemma rateLimitMax_above_0 (env_max : number) :
  ge_number 0 (rateLimitMax env_max) = false.
Proof.
  unfold rateLimitMax, number_or.
  destruct env_max as [| | |q]; simpl; try reflexivity.
  destruct (Qeq_bool q 0); simpl; [reflexivity|].
  destruct (Qle_bool 1 q) eqn:E; simpl; [|reflexivity].
  apply not_true_iff_false. rewrite Qle_bool_iff. apply Qle_bool_iff in E.
  change (inject_Z 0) with 0%Q. lra.
Qed.

(** X2.  From an empty store, whatever [Number(process.env.RATE_LIMIT_MAX)]
    is and whatever is served, every stored counter has a count of at least
    1 and its count minus one is below the effective maximum; when the
    maximum is a whole number [m], the count is at most [m]. *)
Theorem counts_never_exceed_max (env_max : number) (W : Z)
    (reqs : list (request * Z)) (k : string) (e : counter) :
  (serve W (rateLimitMax env_max) reqs ∅).1 !! k = Some e ->
  1 <= count e
  /\ ge_number (count e - 1) (rateLimitMax env_max) = false
  /\ (forall m, rateLimitMax env_max = Fin (inject_Z m) -> count e <= m).
Proof.
  intros He.
  destruct (serve_within_limit W (rateLimitMax env_max) reqs ∅
              ltac:(intros ? ? H; by rewrite lookup_empty in H) k e He)
    as [H1 H2].
  assert (Hlt : ge_number (count e - 1) (rateLimitMax env_max) = false).
  { destruct H2 as [->|H2]; [apply rateLimitMax_above_0|done]. }
  split; [done|]. split; [done|].
  intros m Hm. rewrite Hm in Hlt. apply ge_number_Fin_false in Hlt. lia.
Qed.

Lemma counts_never_exceed_max_witness :
  1 <= 5
  /\ ge_number (5 - 1) (rateLimitMax NaN) = false
  /\ (forall m, rateLimitMax NaN = Fin (inject_Z m) -> 5 <= m).
Proof.
  apply (counts_never_exceed_max NaN window
           [(probe, 1000); (probe, 1001); (probe, 1002); (probe, 1003);
            (probe, 1004); (probe, 1005); (probe, 1006)] "203.0.113.7"
           {| count := 5; resetTime := 61000 |}).
  vm_compute. reflexivity.
Defined.

(** X3.  Pruning the store at a time [t] no later than the arrival of a
    request does not change the verdict on that request.  Pruning only
    removes entries, and never one whose window is still open at [t]. *)
Theorem pruning_is_unobservable W max (req : request) (t now : Z)
    (store : gmap string counter) :
  t <= now ->
  (rateLimit W max req now (pruneRateLimitStore t store)).2
  = (rateLimit W max req now store).2
  /\ (forall k e, pruneRateLimitStore t store !! k = Some e -> store !! k = Some e)
  /\ (forall k e, store !! k = Some e -> t <= resetTime e ->
        pruneRateLimitStore t store !! k = Some e).
Proof.
  intros Ht. split; [|split].
  - destruct (shouldRateLimit req) eqn:Hgate.
    + apply rateLimit_live_same; [done|]. by apply live_entry_prune.
    + unfold rateLimit. by rewrite Hgate.
  - intros k e He.
    destruct (prune_lookup t store k) as [<-|[Hnone _]]; congruence.
  - intros k e. apply prune_keeps_live.
Qed.

Lemma pruning_is_unobservable_witness :
  let store : gmap string counter :=
    {[ "203.0.113.7" := {| count := 5; resetTime := 61000 |} ]} in
  (rateLimit window limit probe 2000 (pruneRateLimitStore 1500 store)).2
  = (rateLimit window limit probe 2000 store).2
  /\ (forall k e, pruneRateLimitStore 1500 store !! k = Some e -> store !! k = Some e)
  /\ (forall k e, store !! k = Some e -> 1500 <= resetTime e ->
        pruneRateLimitStore 1500 store !! k = Some e).
Proof.
  apply (pruning_is_unobservable window limit probe 1500 2000
           {[ "203.0.113.7" := {| count := 5; resetTime := 61000 |} ]}).
  lia.
Defined.

(** X4.  When [X-Forwarded-For] is a comma-separated list, the limiter key
    is its first entry with the surrounding white space removed, whatever
    [req.ip] and the socket address are; the key has no surrounding white
    space and no comma. *)
Theorem forwarded_first_entry (req : request) (first rest : string) :
  x_forwarded_for req = Some (first +:+ String "," rest) ->
  includes "," first = false ->
  getClientIp req = trim first
  /\ trim (getClientIp req) = getClientIp req
  /\ includes "," (getClientIp req) = false.
Proof.
  intros Hx Hfirst.
  assert (getClientIp req = trim first) as ->.
  { unfold getClientIp. rewrite Hx.
    assert (String.eqb (first +:+ String "," rest) "" = false) as ->
      by (by destruct first).
    simpl. by rewrite split_comma_0_app. }
  split; [done|]. split; [apply trim_idem|by apply trim_no_comma].
Qed.

Lemma forwarded_first_entry_witness :
  getClientIp probe = trim "203.0.113.7"
  /\ trim (getClientIp probe) = getClientIp probe
  /\ includes "," (getClientIp probe) = false.
Proof.
  apply (forwarded_first_entry probe "203.0.113.7" " 10.0.0.1"); reflexivity.
Defined.

Lemma wait_covers_window (R now : Z) :
  R - now <= 1000 * retryAfterSeconds R now.
Proof.
  unfold retryAfterSeconds. pose proof (ceil_div_1000_spec (R - now)). lia.
Qed.

(** X5.  Let a counted request arrive at [now] inside the open window of
    its key, and let [wait] be 1000 times the [Retry-After] value computed
    at [now].  The same client is within_limit at every time later than
    [now + wait].  At [now + wait] itself, when that instant is the reset
    time and the count is at the maximum, it is rejected once more, with
    [Retry-After: 1]: the window closes strictly after its reset time. *)
Theorem retry_after_suffices W max (req : request) (now later : Z)
    (store : gmap string counter) (e : counter) :
  shouldRateLimit req = true ->
  store !! getClientIp req = Some e ->
  now <= resetTime e ->
  let wait := 1000 * retryAfterSeconds (resetTime e) now in
  (now + wait < later -> (rateLimit W max req later store).2 = Next)
  /\ (later = now + wait -> resetTime e - now = wait ->
      ge_number (count e) max = true ->
      (rateLimit W max req later store).2 = too_many 1).
Proof.
  intros Hgate Hk Hlive wait.
  pose proof (wait_covers_window (resetTime e) now) as Hw. fold wait in Hw.
  split.
  - intros Hlater.
    rewrite (rateLimit_opens W max req later store Hgate); [done|].
    right. exists e. split; [done|lia].
  - intros -> Hexact Hmax.
    rewrite (rateLimit_rejects W max req (now + wait) store e) by (done || lia).
    simpl. f_equal. unfold retryAfterSeconds.
    replace (resetTime e - (now + wait)) with 0 by lia. reflexivity.
Qed.

Lemma retry_after_suffices_witness :
  let store : gmap string counter :=
    {[ "203.0.113.7" := {| count := 5; resetTime := 61000 |} ]} in
  retryAfterSeconds 61000 1000 = 60
  /\ (rateLimit window limit probe 61001 store).2 = Next
  /\ (rateLimit window limit probe 61000 store).2 = too_many 1.
Proof.
  split; [reflexivity|]. split.
  - apply (retry_after_suffices window limit probe 1000 61001
             {[ "203.0.113.7" := {| count := 5; resetTime := 61000 |} ]}
             {| count := 5; resetTime := 61000 |}); [reflexivity| reflexivity|simpl; lia|].
    vm_compute. reflexivity.
  - apply (retry_after_suffices window limit probe 1000 61000
             {[ "203.0.113.7" := {| count := 5; resetTime := 61000 |} ]}
             {| count := 5; resetTime := 61000 |});
      [reflexivity|reflexivity|simpl; lia|reflexivity|reflexivity|reflexivity].
Defined.

End StoreFacts.

(** ** The weather routes: upstream calls and answers *)

Module UpstreamFacts.
Import Js Server Samples RouteFacts TextFacts.

(** X6.  Where [normalizeIconUrl] returns (the icon is falsy or a string),
    the result is empty or starts with "http", and normalizing the result
    again returns it unchanged. *)
Theorem normalizeIconUrl_idempotent (icon : value) (r : string) :
  normalizeIconUrl icon = Some r ->
  normalizeIconUrl (VStr r) = Some r
  /\ (r = "" \/ startsWith "http" r = true).
Proof.
  unfold normalizeIconUrl. destruct (truthy icon) eqn:Ht; simpl.
  - destruct icon as [| | | |s| |]; try discriminate.
    intros [= <-]. simpl in Ht.
    destruct (startsWith "http" s) eqn:Hs.
    + rewrite Ht. simpl. rewrite Hs. auto.
    + split; [reflexivity|]. right. reflexivity.
  - intros [= <-]. auto.
Qed.

Lemma normalizeIconUrl_idempotent_witness :
  normalizeIconUrl (VStr "https://cdn/113.png") = Some "https://cdn/113.png"
  /\ ("https://cdn/113.png" = "" \/ startsWith "http" "https://cdn/113.png" = true).
Proof.
  apply (normalizeIconUrl_idempotent (VStr "//cdn/113.png")). reflexivity.
Defined.

Lemma set_prop_fresh (k : string) (v : value) ps :
  k ∉ ps.*1 -> set_prop k v ps = (ps ++ [(k, v)])%list.
Proof.
  induction ps as [|[k' w] ps IH]; simpl; [done|].
  intros Hk. apply not_elem_of_cons in Hk as [Hne Hk].
  assert (String.eqb k k' = false) as -> by (by apply String.eqb_neq).
  by rewrite IH.
Qed.

Lemma buildWeatherUrl_fold (params : list (string * value)) : forall acc,
  NoDup (acc.*1 ++ params.*1)%list ->
  fold_left (fun acc kv =>
               match kv.2 with
               | VUndef | VNull => acc
               | v => set_prop kv.1 v acc
               end) params acc
  = (acc ++ filter (fun kv => nullish kv.2 = false) params)%list.
Proof.
  induction params as [|[k v] params IH]; intros acc Hnd; simpl.
  - by rewrite app_nil_r.
  - simpl in Hnd.
    assert (Hk : k ∉ acc.*1).
    { apply NoDup_app in Hnd as (_ & Hd & _). intros Hin.
      apply (Hd k Hin). left. }
    assert (Hnd' : NoDup (acc.*1 ++ params.*1)%list).
    { apply NoDup_app in Hnd as (Ha & Hd & Hp). apply NoDup_cons in Hp as [_ Hp].
      apply NoDup_app. split; [done|]. split; [|done].
      intros x Hx Hx'. apply (Hd x Hx). by right. }
    assert (Hnd'' : NoDup ((acc ++ [(k, v)]).*1 ++ params.*1)%list).
    { rewrite fmap_app. simpl. rewrite <- app_assoc. done. }
    destruct v; simpl;
      first [ rewrite filter_cons_False by (simpl; congruence); by apply IH
            | rewrite filter_cons_True by done;
              rewrite set_prop_fresh by done; rewrite IH by done;
              by rewrite <- app_assoc ].
Qed.

(** X7.  With distinct parameter names (as the keys of an object literal
    are), the search parameters set by [buildWeatherUrl] are exactly the
    parameters whose value is neither [undefined] nor [null], in the given
    order. *)
Theorem buildWeatherUrl_params (weatherApiBaseUrl path : string)
    (params : list (string * value)) :
  NoDup params.*1 ->
  searchParams (buildWeatherUrl weatherApiBaseUrl path params)
  = filter (fun kv => nullish kv.2 = false) params.
Proof.
  intros Hnd. unfold buildWeatherUrl. simpl.
  by rewrite buildWeatherUrl_fold.
Qed.

Lemma buildWeatherUrl_params_witness :
  searchParams (buildWeatherUrl base "history.json"
                  [("key", VStr "secret"); ("q", VNull); ("dt", VStr "2026-01-02")])
  = filter (fun kv => nullish kv.2 = false)
      [("key", VStr "secret"); ("q", VNull); ("dt", VStr "2026-01-02")].
Proof.
  apply (buildWeatherUrl_params base "history.json"
           [("key", VStr "secret"); ("q", VNull); ("dt", VStr "2026-01-02")]).
  apply (bool_decide_unpack _). vm_compute. exact I.
Defined.

Lemma truthy_not_nullish (v : value) : truthy v = true -> nullish v = false.
Proof. by destruct v. Qed.

(** Every upstream URL of the two routes is for the configured base and
    carries the credential and the query. *)
Lemma currentUrl_params base key (q : value) :
  truthy q = true ->
  Server.base (currentUrl base key q) = base
  /\ assoc "key" (searchParams (currentUrl base key q)) = VStr key
  /\ assoc "q" (searchParams (currentUrl base key q)) = q.
Proof.
  intros Hq. unfold currentUrl.
  unfold buildWeatherUrl. cbn [Server.base searchParams].
  rewrite buildWeatherUrl_fold by (apply (bool_decide_unpack _); vm_compute; exact I).
  rewrite app_nil_l.
  rewrite filter_cons_True by done.
  rewrite filter_cons_True by (by apply truthy_not_nullish).
  done.
Qed.

Lemma forecastUrl_params base key (q : value) :
  truthy q = true ->
  Server.base (forecastUrl base key q) = base
  /\ assoc "key" (searchParams (forecastUrl base key q)) = VStr key
  /\ assoc "q" (searchParams (forecastUrl base key q)) = q.
Proof.
  intros Hq. unfold forecastUrl.
  unfold buildWeatherUrl. cbn [Server.base searchParams].
  rewrite buildWeatherUrl_fold by (apply (bool_decide_unpack _); vm_compute; exact I).
  rewrite app_nil_l.
  rewrite filter_cons_True by done.
  rewrite filter_cons_True by (by apply truthy_not_nullish).
  done.
Qed.

Lemma historyUrl_params base key (q : value) date :
  truthy q = true ->
  Server.base (historyUrl base key q date) = base
  /\ assoc "key" (searchParams (historyUrl base key q date)) = VStr key
  /\ assoc "q" (searchParams (historyUrl base key q date)) = q.
Proof.
  intros Hq. unfold historyUrl.
  unfold buildWeatherUrl. cbn [Server.base searchParams].
  rewrite buildWeatherUrl_fold by (apply (bool_decide_unpack _); vm_compute; exact I).
  rewrite app_nil_l.
  rewrite filter_cons_True by done.
  rewrite filter_cons_True by (by apply truthy_not_nullish).
  done.
Qed.

(** X8.  Every upstream call made by either route goes to the configured
    base URL and carries the non-empty credential as [key] and the query of
    the request as [q].  So no upstream call is made without a credential or
    without a query. *)
Theorem upstream_calls_carry_key_and_query
    (weatherApiBaseUrl : string) (accessKey : option string)
    (historyDate : Z -> string) (fetchedAt : string)
    (req : request) (net : url -> reply) (u : url) :
  u ∈ (exec net (weatherRoute weatherApiBaseUrl accessKey fetchedAt req)).1
  \/ u ∈ (exec net (extendedRoute weatherApiBaseUrl accessKey historyDate
                      fetchedAt req)).1 ->
  exists key,
    accessKey = Some key /\ key <> ""
    /\ truthy (query_of req) = true
    /\ Server.base u = weatherApiBaseUrl
    /\ assoc "key" (searchParams u) = VStr key
    /\ assoc "q" (searchParams u) = query_of req.
Proof.
  intros Hu.
  destruct (truthy (query_of req)) eqn:Hq.
  2: { unfold weatherRoute, extendedRoute in Hu. rewrite Hq in Hu. simpl in Hu.
       destruct Hu as [Hu|Hu]; by apply elem_of_nil in Hu. }
  destruct accessKey as [key|].
  2: { unfold weatherRoute, extendedRoute in Hu. rewrite Hq in Hu. simpl in Hu.
       destruct Hu as [Hu|Hu]; by apply elem_of_nil in Hu. }
  destruct (String.eqb key "") eqn:Hk.
  { unfold weatherRoute, extendedRoute in Hu. rewrite Hq, Hk in Hu. simpl in Hu.
    destruct Hu as [Hu|Hu]; by apply elem_of_nil in Hu. }
  apply String.eqb_neq in Hk.
  exists key. split; [done|]. split; [done|]. split; [done|].
  destruct Hu as [Hu|Hu].
  - destruct (weatherRoute_calls weatherApiBaseUrl fetchedAt key Hk req net Hq)
      as [r Hr].
    rewrite Hr in Hu. apply list_elem_of_singleton in Hu as ->.
    by apply currentUrl_params.
  - rewrite (extendedRoute_exec weatherApiBaseUrl historyDate fetchedAt key Hk
               req net Hq) in Hu.
    cbv zeta in Hu.
    destruct (truthy (error_of (settle (net _)))); simpl in Hu.
    + apply list_elem_of_singleton in Hu as ->. by apply forecastUrl_params.
    + apply elem_of_cons in Hu as [->|Hu]; [by apply forecastUrl_params|].
      apply elem_of_cons in Hu as [->|Hu]; [by apply historyUrl_params|].
      apply list_elem_of_singleton in Hu as ->. by apply historyUrl_params.
Qed.

Lemma upstream_calls_carry_key_and_query_witness :
  exists key,
    Some "secret" = Some key /\ key <> ""
    /\ truthy (query_of probe_extended) = true
    /\ Server.base (historyUrl base "secret" (VStr "Berlin") "2026-01-01") = base
    /\ assoc "key" (searchParams (historyUrl base "secret" (VStr "Berlin") "2026-01-01"))
       = VStr key
    /\ assoc "q" (searchParams (historyUrl base "secret" (VStr "Berlin") "2026-01-01"))
       = query_of probe_extended.
Proof.
  apply (upstream_calls_carry_key_and_query base (Some "secret") dates stamp_iso
           probe_extended net_up).
  right. vm_compute. do 2 right. left.
Defined.

(** X9.  With a query present and [WEATHERAPI_KEY] unset or empty, both
    routes answer 500 "WEATHERAPI_KEY is not set" and make no upstream
    call. *)
Theorem missing_key_is_500
    (weatherApiBaseUrl : string) (accessKey : option string)
    (historyDate : Z -> string) (fetchedAt : string)
    (req : request) (net : url -> reply) :
  truthy (query_of req) = true ->
  accessKey = None \/ accessKey = Some "" ->
  exec net (weatherRoute weatherApiBaseUrl accessKey fetchedAt req)
  = ([], Sent missingKey)
  /\ exec net (extendedRoute weatherApiBaseUrl accessKey historyDate fetchedAt req)
     = ([], Sent missingKey)
  /\ status missingKey = 500
  /\ body missingKey = VObj [("error", VStr "WEATHERAPI_KEY is not set")].
Proof.
  intros Hq Hkey. unfold weatherRoute, extendedRoute. rewrite Hq.
  by destruct Hkey as [-> | ->].
Qed.

Lemma missing_key_is_500_witness :
  exec net_up (weatherRoute base (Some "") stamp_iso probe)
  = ([], Sent missingKey)
  /\ exec net_up (extendedRoute base (Some "") dates stamp_iso probe)
     = ([], Sent missingKey)
  /\ status missingKey = 500
  /\ body missingKey = VObj [("error", VStr "WEATHERAPI_KEY is not set")].
Proof.
  apply (missing_key_is_500 base (Some "") dates stamp_iso probe net_up);
    [reflexivity|by right].
Defined.


(** X11.  Let the forecast days be cut from a forecast payload without an
    exception.  If [forecastday] is an array, the forecast has one entry
    fewer than it, entry [i] being the mapped day [i + 1] (today is
    dropped), and [forecastError] is "Forecast unavailable" exactly when
    [forecastday] has at most one entry.  If [forecastday] is missing, the
    forecast is empty with that message.  In every case [forecastError] is
    that message or, with a non-empty forecast, the empty string. *)
Theorem forecast_drops_today (data : value) (fdays : list value)
    (fetchedAt : string) (q : value) (history : list value) (hError : value) :
  forecastDays data = Some fdays ->
  let answer := extendedBody fetchedAt data q history fdays hError in
  (forall items, get "forecastday" (get "forecast" data) = VArr items ->
     length fdays = pred (length items)
     /\ (forall i d, fdays !! i = Some d ->
           exists day, items !! S i = Some day /\ mapForecastDay day = Some d)
     /\ (get "forecastError" answer = VStr "Forecast unavailable"
         <-> (length items <= 1)%nat))
  /\ (nullish (get "forecastday" (get "forecast" data)) = true ->
      fdays = [] /\ get "forecastError" answer = VStr "Forecast unavailable")
  /\ (get "forecastError" answer = VStr "Forecast unavailable"
      \/ get "forecastError" answer = VStr "" /\ fdays <> []).
Proof.
  intros Hdays answer. unfold forecastDays in Hdays.
  assert (Herr : get "forecastError" answer
                 = VStr (if bool_decide (fdays = []) then "Forecast unavailable" else ""))
    by reflexivity.
  rewrite Herr. clear Herr. clearbody answer.
  split; [|split].
  - intros items Hitems. rewrite Hitems in Hdays.
    apply mapM_Some in Hdays.
    pose proof (Forall2_length _ _ _ Hdays) as Hlen.
    rewrite length_tl in Hlen.
    split; [lia|]. split.
    + intros i d Hd.
      destruct (Forall2_lookup_r _ _ _ _ _ Hdays Hd) as (day & Hday & Hmap).
      exists day. split; [|done]. by rewrite <- lookup_tail.
    + destruct fdays as [|d fdays]; simpl in *.
      * split; [lia|done].
      * split; [discriminate|lia].
  - intros Hnull.
    destruct (get "forecastday" (get "forecast" data)); try discriminate;
      injection Hdays as <-; done.
  - destruct fdays; [by left|right]. done.
Qed.

Lemma forecast_drops_today_witness :
  length (default [] (forecastDays forecast_payload)) = 2%nat
  /\ get "forecastError"
       (extendedBody stamp_iso forecast_payload (VStr "Berlin") []
          (default [] (forecastDays forecast_payload)) (VStr ""))
     = VStr "".
Proof.
  destruct (forecast_drops_today forecast_payload
              (default [] (forecastDays forecast_payload))
              stamp_iso (VStr "Berlin") [] (VStr "") eq_refl) as (H & _ & H').
  split; [exact (proj1 (H _ eq_refl))|].
  destruct H' as [H'|[H' _]]; [discriminate H'|exact H'].
Defined.

End UpstreamFacts.

(** ** The front end: replies, in-flight requests and stored caches *)

Module CacheFacts.
Import Js Client Samples ClientFacts TextFacts.

Lemma assoc_filter_ne (k k' : string) ps :
  k <> k' ->
  assoc k (filter (fun kv : string * value => negb (String.eqb k' kv.1) = true) ps)
  = assoc k ps.
Proof.
  intros Hne. induction ps as [|[k1 w] ps IH]; [done|].
  destruct (String.eqb k' k1) eqn:E.
  - rewrite filter_cons_False by (simpl; rewrite E; done).
    apply String.eqb_eq in E. subst k1. simpl.
    by rewrite (proj2 (String.eqb_neq _ _) Hne).
  - rewrite filter_cons_True by (simpl; rewrite E; done).
    simpl. by rewrite IH.
Qed.

Lemma assoc_set_prop_ne (k k' : string) (v : value) ps :
  k <> k' -> assoc k (set_prop k' v ps) = assoc k ps.
Proof.
  intros Hne. induction ps as [|[k1 w] ps IH]; simpl.
  - by rewrite (proj2 (String.eqb_neq _ _) Hne).
  - destruct (String.eqb k' k1) eqn:E; simpl.
    + apply String.eqb_eq in E. subst k1.
      rewrite (proj2 (String.eqb_neq _ _) Hne). by apply assoc_filter_ne.
    + by rewrite IH.
Qed.

(** A stamped object reply keeps every field of the reply. *)
Lemma stamp_fields props now k :
  k <> "cachedAt" -> get k (stamp (VObj props) now) = get k (VObj props).
Proof. intros Hk. unfold stamp. simpl. by apply assoc_set_prop_ne. Qed.

Lemma list_to_map_assoc (props : list (string * value)) (k : string) :
  assoc k props = default VUndef ((list_to_map props : gmap string value) !! k).
Proof.
  induction props as [|[k' v] props IH]; simpl; [done|].
  destruct (String.eqb k k') eqn:E.
  - apply String.eqb_eq in E. subst k'. by rewrite lookup_insert_eq.
  - apply String.eqb_neq in E. by rewrite lookup_insert_ne.
Qed.

Section Fetching.
Variable cacheTtlMs : Z.
Variable throttleMs : Z.
Variable Date_parse : string -> option Z.
Variable failureMessage : endpoint -> reply -> string.

Notation parseCachedAt := (parseCachedAt Date_parse).
Notation isCacheFresh := (isCacheFresh cacheTtlMs Date_parse).
Notation suppressed := (suppressed throttleMs).
Notation entered := (entered cacheTtlMs Date_parse).
Notation enteredExtended := (enteredExtended cacheTtlMs Date_parse).
Notation fetchWeather := (fetchWeather cacheTtlMs throttleMs Date_parse).
Notation fetchExtended := (fetchExtended cacheTtlMs throttleMs Date_parse).
Notation fetchQuickTemperature :=
  (fetchQuickTemperature cacheTtlMs throttleMs Date_parse).
Notation showCachedWeather := (showCachedWeather cacheTtlMs throttleMs Date_parse).
Notation loadCache := (loadCache cacheTtlMs Date_parse).
Notation weatherSettled := (weatherSettled failureMessage).
Notation extendedSettled := (extendedSettled failureMessage).
Notation step := (step cacheTtlMs throttleMs Date_parse failureMessage).
Notation run := (run cacheTtlMs throttleMs Date_parse failureMessage).

Lemma stamp_fresh (data : value) (T now : Z) :
  T <> 0 -> now - T < cacheTtlMs ->
  truthy (stamp data T) = true /\ isCacheFresh now (stamp data T) = true.
Proof.
  intros HT Hage. split; [done|].
  apply isCacheFresh_true. rewrite parseCachedAt_stamp. split.
  - unfold Qeq. simpl. lia.
  - unfold Qlt. simpl. lia.
Qed.

Lemma unstamped_not_fresh now : isCacheFresh now VUndef = false.
Proof. reflexivity. Qed.

(** The fresh path of [fetchExtended]. *)
Lemma fetchExtended_fresh location clock st :
  let cleaned := trim location in
  let cached := cached_at_key (extendedCache st) cleaned in
  cleaned <> "" -> truthy cached = true ->
  isCacheFresh (at_fresh clock) cached = true ->
  fetchExtended location false clock st
  = (showExtended cached (enteredExtended location clock st), None).
Proof.
  intros cleaned cached Hne Ht Hf. unfold Client.fetchExtended.
  fold cleaned. rewrite (proj2 (String.eqb_neq _ _) Hne). fold cached.
  unfold Client.enteredExtended. fold cleaned cached. by rewrite Ht, Hf.
Qed.

(** X12.  A successful reply stamped at [T] (not 0) is stored under the
    trimmed location, and a non-forced fetch of that location whose clock
    reads less than [T + cacheTtlMs] is served from it: no request, the
    stamped reply on display, status "ready".  This holds for [fetchWeather]
    with its reply handler and for [fetchExtended] with its own.  The
    stamped entry has [cachedAt = T] and every other field of an object
    reply. *)
Theorem reply_is_cached_for_ttl (st : state) (location : string)
    (r : reply) (data : value) (T : Z) (clock : readings) :
  let cleaned := trim location in
  cleaned <> "" ->
  reply_data r = Some data ->
  T <> 0 ->
  at_fresh clock - T < cacheTtlMs ->
  (let st' := weatherSettled cleaned r T st in
   let out := fetchWeather cleaned false clock st' in
   weatherCache st' !! cleaned = Some (stamp data T)
   /\ out.2 = None /\ weather out.1 = stamp data T /\ status out.1 = Ready)
  /\ (let st' := extendedSettled cleaned r T st in
      let out := fetchExtended cleaned false clock st' in
      extendedCache st' !! cleaned = Some (stamp data T)
      /\ out.2 = None /\ extendedData out.1 = stamp data T
      /\ extendedStatus out.1 = Ready)
  /\ get "cachedAt" (stamp data T) = VNum (inject_Z T)
  /\ (forall props k, data = VObj props -> k <> "cachedAt" ->
        get k (stamp data T) = get k data).
Proof.
  intros cleaned Hne Hr HT Hage.
  destruct (stamp_fresh data T (at_fresh clock) HT Hage) as [Ht Hf].
  assert (Htrim : trim cleaned = cleaned) by apply trim_idem.
  split; [|split; [|split]].
  - cbv zeta.
    assert (Hc : weatherCache (weatherSettled cleaned r T st) !! cleaned
                 = Some (stamp data T)).
    { unfold Client.weatherSettled. rewrite Hr. simpl. apply lookup_insert_eq. }
    split; [done|].
    rewrite fetchWeather_fresh.
    + rewrite Htrim. unfold cached_at_key. rewrite Hc. done.
    + by rewrite Htrim.
    + rewrite Htrim. unfold cached_at_key. by rewrite Hc.
    + rewrite Htrim. unfold cached_at_key. by rewrite Hc.
  - cbv zeta.
    assert (Hc : extendedCache (extendedSettled cleaned r T st) !! cleaned
                 = Some (stamp data T)).
    { unfold Client.extendedSettled. rewrite Hr. simpl. apply lookup_insert_eq. }
    split; [done|].
    rewrite fetchExtended_fresh.
    + rewrite Htrim. unfold cached_at_key. rewrite Hc. done.
    + by rewrite Htrim.
    + rewrite Htrim. unfold cached_at_key. by rewrite Hc.
    + rewrite Htrim. unfold cached_at_key. by rewrite Hc.
  - unfold stamp. simpl. apply assoc_set_prop.
  - intros props k -> Hk. by apply stamp_fields.
Qed.

(** Whether [fetchWeather] issues a request, read off the state it is
    called in. *)
Lemma fetchWeather_request location force clock st :
  (fetchWeather location force clock st).2
  = let cleaned := trim location in
    let cached := cached_at_key (weatherCache st) cleaned in
    let key := "weather:" +:+ toLowerCase cleaned in
    if String.eqb cleaned "" then None
    else if negb force && truthy cached && isCacheFresh (at_fresh clock) cached
    then None
    else if bool_decide (key ∈ requestInFlight st)
            || (negb force
                && (at_throttle clock - default 0 (requestCooldowns st !! key)
                    <? throttleMs))
    then None
    else Some cleaned.
Proof.
  cbv zeta. unfold Client.fetchWeather.
  destruct (String.eqb (trim location) ""); [done|].
  destruct (negb force && _ && _); [done|].
  unfold Client.suppressed, isInFlight, Client.shouldThrottle.
  destruct (truthy _ && negb _); simpl;
    destruct (bool_decide _); simpl; try done;
    destruct force; simpl; try done;
    destruct (_ <? throttleMs); done.
Qed.

Lemma fetchExtended_request location force clock st :
  (fetchExtended location force clock st).2
  = let cleaned := trim location in
    let cached := cached_at_key (extendedCache st) cleaned in
    let key := "extended:" +:+ toLowerCase cleaned in
    if String.eqb cleaned "" then None
    else if negb force && truthy cached && isCacheFresh (at_fresh clock) cached
    then None
    else if bool_decide (key ∈ requestInFlight st)
            || (negb force
                && (at_throttle clock - default 0 (requestCooldowns st !! key)
                    <? throttleMs))
    then None
    else Some cleaned.
Proof.
  cbv zeta. unfold Client.fetchExtended.
  destruct (String.eqb (trim location) ""); [done|].
  destruct (negb force && _ && _); [done|].
  unfold Client.suppressed, isInFlight, Client.shouldThrottle.
  destruct (truthy _ && negb _); simpl;
    destruct (bool_decide _); simpl; try done;
    destruct force; simpl; try done;
    destruct (_ <? throttleMs); done.
Qed.

(** X13.  Whatever the reply, once the request of [fetchWeather] settles
    its key is no longer in flight, the cooldown stamps are as before, and a
    forced fetch of the location issues a new request.  A failed reply
    leaves the cache and the weather on display as they were and sets the
    status "error" with the failure message. *)
Theorem reply_ends_the_request (st : state) (location : string) (r : reply)
    (now : Z) (clock : readings) :
  let cleaned := trim location in
  let key := "weather:" +:+ toLowerCase cleaned in
  let st' := weatherSettled cleaned r now st in
  cleaned <> "" ->
  (key ∉ requestInFlight st')
  /\ (fetchWeather cleaned true clock st').2 = Some cleaned
  /\ requestCooldowns st' = requestCooldowns st
  /\ (reply_data r = None ->
      weatherCache st' = weatherCache st /\ weather st' = weather st
      /\ status st' = Failed /\ error st' = failureMessage Weather r).
Proof.
  intros cleaned key st' Hne.
  assert (Hfl : key ∉ requestInFlight st').
  { unfold st'. rewrite weatherSettled_in_flight.
    apply not_elem_of_difference. right. by apply elem_of_singleton. }
  split; [done|]. split; [|split].
  - assert (Htrim : trim cleaned = cleaned) by apply trim_idem.
    rewrite fetchWeather_request. cbv zeta. rewrite Htrim. fold key.
    rewrite (proj2 (String.eqb_neq _ _) Hne). simpl.
    by rewrite bool_decide_eq_false_2.
  - unfold st', Client.weatherSettled. by destruct (reply_data r).
  - intros Hr. unfold st', Client.weatherSettled. by rewrite Hr.
Qed.

(** X14.  While a request of [fetchWeather] for a lower-cased location
    [k] is in flight, no run of [fetchWeather] and [fetchExtended] calls and
    replies that lacks the reply to it makes [fetchWeather] issue another
    request for [k], forced or not, in whatever letter case the location is
    typed; the key stays in flight. *)
Theorem in_flight_request_is_not_repeated (k : string) (es : list event) :
  forall st,
  "weather:" +:+ k ∈ requestInFlight st ->
  forallb (fun e => negb (replies_for k e)) es = true ->
  filter (fun r => request_for k r = true) (run st es).2 = []
  /\ "weather:" +:+ k ∈ requestInFlight (run st es).1.
Proof.
  exact (run_in_flight cacheTtlMs throttleMs Date_parse failureMessage k es).
Qed.

(** X15.  Whether [fetchExtended] issues a request is not changed by a
    preceding [fetchWeather] call or weather reply, for any locations; and
    whether [fetchWeather] issues one is not changed by a preceding
    [fetchExtended] call or extended reply. *)
Theorem endpoints_do_not_interfere (st : state) (e : event)
    (location : string) (force : bool) (clock : readings) :
  match e with
  | CallWeather _ _ _ | WeatherReply _ _ _ =>
      (fetchExtended location force clock (step st e).1).2
      = (fetchExtended location force clock st).2
  | CallExtended _ _ _ | ExtendedReply _ _ _ =>
      (fetchWeather location force clock (step st e).1).2
      = (fetchWeather location force clock st).2
  end.
Proof.
  destruct e as [l f c|cl r now|l f c|cl r now].
  - rewrite !fetchExtended_request. cbv zeta. unfold Client.step. cbn [fst snd].
    pose proof (fetchWeather_in_flight cacheTtlMs throttleMs Date_parse l f c st) as Hfl.
    pose proof (fetchWeather_frame cacheTtlMs throttleMs Date_parse l f c st) as [Hcd _].
    assert (Hx : extendedCache (fetchWeather l f c st).1 = extendedCache st).
    { unfold Client.fetchWeather.
      destruct (String.eqb (trim l) ""); [done|].
      destruct (negb f && _ && _).
      { simpl. by destruct (truthy _ && negb _). }
      unfold Client.suppressed, isInFlight, Client.shouldThrottle.
      destruct (truthy _ && negb _); simpl;
        destruct (bool_decide _); simpl;
        try (by destruct (truthy _));
        destruct f; simpl; try done;
        destruct (_ <? throttleMs); simpl; try done; by destruct (truthy _). }
    cbv zeta in Hfl.
    destruct (fetchWeather l f c st) as [st1 req] eqn:E. cbn [fst snd] in *.
    assert (Hxc : extendedCache (activeLocationEffect (activeLocation st) st1)
                  = extendedCache st).
    { unfold activeLocationEffect. by destruct (String.eqb _ _). }
    rewrite Hxc, activeLocationEffect_in_flight, activeLocationEffect_cooldowns.
    rewrite Hcd by (apply extended_key_not_weather).
    assert (Hin : bool_decide ("extended:" +:+ toLowerCase (trim location)
                               ∈ requestInFlight st1)
                  = bool_decide ("extended:" +:+ toLowerCase (trim location)
                                 ∈ requestInFlight st)).
    { apply bool_decide_ext.
      destruct Hfl as [[_ ->]|(_ & _ & ->)]; [done|].
      rewrite elem_of_union, elem_of_singleton. split; [|by right].
      intros [Heq|?]; [|done]. by apply extended_key_not_weather in Heq. }
    by rewrite Hin.
  - rewrite !fetchExtended_request. cbv zeta. unfold Client.step. cbn [fst snd].
    rewrite weatherSettled_in_flight.
    assert (Hx : extendedCache (weatherSettled cl r now st) = extendedCache st)
      by (unfold Client.weatherSettled; by destruct (reply_data r)).
    assert (Hcd : requestCooldowns (weatherSettled cl r now st) = requestCooldowns st)
      by (unfold Client.weatherSettled; by destruct (reply_data r)).
    rewrite Hx, Hcd.
    assert (Hin : bool_decide ("extended:" +:+ toLowerCase (trim location)
                               ∈ requestInFlight st ∖ {["weather:" +:+ toLowerCase cl]})
                  = bool_decide ("extended:" +:+ toLowerCase (trim location)
                                 ∈ requestInFlight st)).
    { apply bool_decide_ext. rewrite elem_of_difference, elem_of_singleton.
      split; [by intros [? _]|]. intros H. split; [done|].
      apply extended_key_not_weather. }
    by rewrite Hin.
  - rewrite !fetchWeather_request. cbv zeta. unfold Client.step. cbn [fst snd].
    pose proof (fetchExtended_in_flight cacheTtlMs throttleMs Date_parse l f c st) as Hfl.
    pose proof (fetchExtended_frame cacheTtlMs throttleMs Date_parse l f c st) as [Hcd _].
    assert (Hx : weatherCache (fetchExtended l f c st).1 = weatherCache st).
    { unfold Client.fetchExtended.
      destruct (String.eqb (trim l) ""); [done|].
      destruct (negb f && _ && _).
      { simpl. by destruct (truthy _ && negb _). }
      unfold Client.suppressed, isInFlight, Client.shouldThrottle.
      destruct (truthy _ && negb _); simpl;
        destruct (bool_decide _); simpl;
        try (by destruct (truthy _));
        destruct f; simpl; try done;
        destruct (_ <? throttleMs); simpl; try done; by destruct (truthy _). }
    cbv zeta in Hfl.
    destruct (fetchExtended l f c st) as [st1 req] eqn:E. cbn [fst snd] in *.
    rewrite Hx.
    rewrite Hcd by (intros Heq; symmetry in Heq; by apply extended_key_not_weather in Heq).
    assert (Hin : bool_decide ("weather:" +:+ toLowerCase (trim location)
                               ∈ requestInFlight st1)
                  = bool_decide ("weather:" +:+ toLowerCase (trim location)
                                 ∈ requestInFlight st)).
    { apply bool_decide_ext.
      destruct Hfl as [[_ ->]|(_ & _ & ->)]; [done|].
      rewrite elem_of_union, elem_of_singleton. split; [|by right].
      intros [Heq|?]; [|done]. symmetry in Heq.
      by apply extended_key_not_weather in Heq. }
    by rewrite Hin.
  - rewrite !fetchWeather_request. cbv zeta. unfold Client.step. cbn [fst snd].
    rewrite extendedSettled_in_flight.
    assert (Hx : weatherCache (extendedSettled cl r now st) = weatherCache st)
      by (unfold Client.extendedSettled; by destruct (reply_data r)).
    assert (Hcd : requestCooldowns (extendedSettled cl r now st) = requestCooldowns st)
      by (unfold Client.extendedSettled; by destruct (reply_data r)).
    rewrite Hx, Hcd.
    assert (Hin : bool_decide ("weather:" +:+ toLowerCase (trim location)
                               ∈ requestInFlight st ∖ {["extended:" +:+ toLowerCase cl]})
                  = bool_decide ("weather:" +:+ toLowerCase (trim location)
                                 ∈ requestInFlight st)).
    { apply bool_decide_ext. rewrite elem_of_difference, elem_of_singleton.
      split; [by intros [? _]|]. intros H. split; [done|].
      intros Heq. symmetry in Heq. by apply extended_key_not_weather in Heq. }
    by rewrite Hin.
Qed.

(** X16.  [loadCache] keeps exactly the fresh entries of a stored plain
    object, the one named "__proto__" apart: a key is bound to [entry] in the
    loaded cache (it is an own property of it) if and only if the key is not
    "__proto__", the stored value is a plain object whose property of that
    name is [entry], and [entry] is fresh at load time; anything else stored
    gives an empty cache.  Loading later never yields an entry that loading
    earlier would have dropped. *)
Theorem loadCache_keeps_fresh (now : Z) (saved : option value) (k : string)
    (entry : value) :
  (loadCache now saved !! k = Some entry
   <-> k <> "__proto__"
       /\ exists props, saved = Some (VObj props) /\ assoc k props = entry
                        /\ isCacheFresh now entry = true)
  /\ (forall later, now <= later ->
        loadCache later saved !! k = Some entry ->
        loadCache now saved !! k = Some entry).
Proof.
  assert (Hchar : forall t,
            loadCache t saved !! k = Some entry
            <-> k <> "__proto__"
                /\ exists props, saved = Some (VObj props) /\ assoc k props = entry
                                 /\ isCacheFresh t entry = true).
  { intros t. unfold Client.loadCache, Client.pruneCache. split.
    - destruct saved as [[| | | | | |props]|]; try (by rewrite lookup_empty).
      rewrite map_lookup_filter_Some. intros [Hk [Hf Hp]]. simpl in Hf, Hp.
      split; [done|]. exists props. split; [done|]. split; [|done].
      by rewrite list_to_map_assoc, Hk.
    - intros (Hp & props & -> & Hk & Hf).
      rewrite map_lookup_filter_Some. split; [|done].
      rewrite list_to_map_assoc in Hk.
      destruct (list_to_map props !! k) as [v|]; simpl in Hk; [by subst|].
      subst entry. by rewrite unstamped_not_fresh in Hf. }
  split; [apply Hchar|].
  intros later Hle. rewrite !Hchar. intros (Hp & props & Hs & Hk & Hf).
  split; [done|]. exists props. split; [done|]. split; [done|].
  apply isCacheFresh_true in Hf as [Hnz Hage].
  apply isCacheFresh_true. split; [done|].
  rewrite Zle_Qle in Hle. lra.
Qed.

(** X17.  A location made of white space only is ignored by
    [fetchWeather], [fetchExtended], [fetchQuickTemperature] and
    [showCachedWeather] (state unchanged, no request) and by
    [addRecentSearch] and the "Add City" handler (list unchanged). *)
Theorem blank_location_is_ignored (location : string) (force : bool) (now : Z)
    (clock : readings) (st : state) (prev : list string) :
  Forall (fun c => is_space c = true) (list_ascii_of_string location) ->
  fetchWeather location force clock st = (st, None)
  /\ fetchExtended location force clock st = (st, None)
  /\ fetchQuickTemperature location clock st = (st, None)
  /\ showCachedWeather location now clock st = (st, None)
  /\ addRecentSearch location prev = prev
  /\ addLocation location prev = prev.
Proof.
  intros Hblank. apply trim_blank in Hblank.
  unfold Client.fetchWeather, Client.fetchExtended, Client.fetchQuickTemperature,
    Client.showCachedWeather, addRecentSearch, addLocation.
  rewrite Hblank. done.
Qed.

(** The synchronous part of [fetchQuickTemperature] leaves what is on
    display and the cache alone. *)
Lemma fetchQuickTemperature_frame location clock st :
  let out := fetchQuickTemperature location clock st in
  weather out.1 = weather st /\ status out.1 = status st
  /\ error out.1 = error st /\ activeLocation out.1 = activeLocation st
  /\ weatherCache out.1 = weatherCache st.
Proof.
  cbv zeta. unfold Client.fetchQuickTemperature.
  destruct (String.eqb (trim location) ""); [done|].
  destruct (isCacheFresh _ _); [done|].
  unfold Client.suppressed, isInFlight, Client.shouldThrottle.
  destruct (bool_decide _); simpl; [done|].
  destruct (_ <? throttleMs); done.
Qed.

(** X18.  [fetchQuickTemperature] never changes what is on display, the
    active location or, before its reply, the cache.  A successful reply to
    it, stamped at [T] (not 0), is stored in the weather cache without
    touching the display; until [T + cacheTtlMs] a non-forced [fetchWeather]
    of the location then shows it without a request, and a repeated
    [fetchQuickTemperature] does nothing. *)
Theorem quick_reply_feeds_weather_cache (st : state) (location : string)
    (r : reply) (data : value) (T : Z) (clock : readings) :
  let cleaned := trim location in
  let st' := quickSettled cleaned r T st in
  cleaned <> "" ->
  quick_reply_data r = Some data ->
  T <> 0 ->
  at_fresh clock - T < cacheTtlMs ->
  (weather st' = weather st /\ status st' = status st
   /\ activeLocation st' = activeLocation st)
  /\ ((fetchWeather cleaned false clock st').2 = None
      /\ weather (fetchWeather cleaned false clock st').1 = stamp data T
      /\ status (fetchWeather cleaned false clock st').1 = Ready)
  /\ fetchQuickTemperature cleaned clock st' = (st', None)
  /\ (forall l c s,
        weather (fetchQuickTemperature l c s).1 = weather s
        /\ status (fetchQuickTemperature l c s).1 = status s
        /\ error (fetchQuickTemperature l c s).1 = error s
        /\ activeLocation (fetchQuickTemperature l c s).1 = activeLocation s
        /\ weatherCache (fetchQuickTemperature l c s).1 = weatherCache s).
Proof.
  intros cleaned st' Hne Hr HT Hage.
  destruct (stamp_fresh data T (at_fresh clock) HT Hage) as [Ht Hf].
  assert (Htrim : trim cleaned = cleaned) by apply trim_idem.
  assert (Hc : cached_at_key (weatherCache st') cleaned = stamp data T).
  { unfold st', Client.quickSettled, cached_at_key. rewrite Hr. simpl.
    by rewrite lookup_insert_eq. }
  split; [|split; [|split]].
  - unfold st', Client.quickSettled. by rewrite Hr.
  - rewrite fetchWeather_fresh; rewrite Htrim, ?Hc; done.
  - unfold Client.fetchQuickTemperature. rewrite Htrim.
    rewrite (proj2 (String.eqb_neq _ _) Hne). by rewrite Hc, Hf.
  - intros l c s. apply fetchQuickTemperature_frame.
Qed.

(** X19.  [showCachedWeather] on a non-blank location: with a fresh cache
    entry it shows the entry (status "ready", active location set) without a
    request and without touching cache, cooldown stamps or the in-flight
    set; otherwise it is never throttled, and issues a request unless one
    for the location is in flight.  In every case the entry is on display or
    a request for the location is in flight afterwards. *)
Theorem showCachedWeather_shows_or_requests (st : state) (location : string)
    (now : Z) (clock : readings) :
  let cleaned := trim location in
  let cached := cached_at_key (weatherCache st) cleaned in
  let key := "weather:" +:+ toLowerCase cleaned in
  let out := showCachedWeather location now clock st in
  cleaned <> "" ->
  (truthy cached && isCacheFresh now cached = true ->
     out.2 = None /\ weather out.1 = cached /\ status out.1 = Ready
     /\ activeLocation out.1 = cleaned
     /\ weatherCache out.1 = weatherCache st
     /\ requestCooldowns out.1 = requestCooldowns st
     /\ requestInFlight out.1 = requestInFlight st)
  /\ (truthy cached && isCacheFresh now cached = false ->
      (key ∉ requestInFlight st ->
         out.2 = Some cleaned /\ key ∈ requestInFlight out.1
         /\ requestCooldowns out.1 = requestCooldowns st)
      /\ (key ∈ requestInFlight st -> out.2 = None))
  /\ (out.2 = None /\ truthy cached = true /\ weather out.1 = cached
                   /\ status out.1 = Ready
      \/ key ∈ requestInFlight out.1).
Proof.
  intros cleaned cached key out Hne.
  assert (Htrim : trim cleaned = cleaned) by apply trim_idem.
  assert (Hout : out = if truthy cached && isCacheFresh now cached
                       then (setError "" (setStatus Ready
                               (setWeather cached (setActiveLocation cleaned st))), None)
                       else fetchWeather cleaned true clock st).
  { unfold out, Client.showCachedWeather. fold cleaned.
    rewrite (proj2 (String.eqb_neq _ _) Hne). done. }
  clearbody out. subst out.
  pose proof (fetchWeather_forced cacheTtlMs throttleMs Date_parse cleaned clock st) as Hforced.
  pose proof (fetchWeather_in_flight cacheTtlMs throttleMs Date_parse cleaned true clock st) as Hfl.
  cbv zeta in Hforced, Hfl. rewrite Htrim in Hforced, Hfl. fold key in Hforced, Hfl.
  specialize (Hforced Hne). destruct Hforced as [Hgo Hstop].
  destruct (truthy cached && isCacheFresh now cached) eqn:Hfresh.
  - split; [|split]; [done|done|].
    left. apply andb_true_iff in Hfresh as [Ht _]. done.
  - split; [done|]. split.
    + split.
      * intros Hk. destruct (Hgo Hk) as [H2 Hcd]. split; [done|]. split; [|done].
        destruct Hfl as [[Hn _]|(_ & _ & ->)]; [congruence|].
        apply elem_of_union_l. by apply elem_of_singleton.
      * done.
    + destruct (decide (key ∈ requestInFlight st)) as [Hk|Hk].
      * right. destruct Hfl as [[_ ->]|(_ & Hno & _)]; done.
      * right. destruct (Hgo Hk) as [H2 _].
        destruct Hfl as [[Hn _]|(_ & _ & ->)]; [congruence|].
        apply elem_of_union_l. by apply elem_of_singleton.
Qed.

End Fetching.

Lemma reply_is_cached_for_ttl_witness :
  (fetchWeather ttl throttle no_dates "Berlin" false (at_time 3000)
     (weatherSettled failed_text "Berlin" (Replied true (snapshot "Berlin")) 2100
        init)).2 = None
  /\ weather
       (fetchWeather ttl throttle no_dates "Berlin" false (at_time 3000)
          (weatherSettled failed_text "Berlin" (Replied true (snapshot "Berlin")) 2100
             init)).1
     = stamp (snapshot "Berlin") 2100.
Proof.
  destruct (reply_is_cached_for_ttl ttl throttle no_dates failed_text init "Berlin"
              (Replied true (snapshot "Berlin")) (snapshot "Berlin") 2100
              (at_time 3000) ltac:(vm_compute; discriminate) eq_refl
              ltac:(lia) ltac:(vm_compute; reflexivity))
    as [(_ & H2 & Hw & _) _].
  split; [exact H2|exact Hw].
Defined.

Lemma reply_ends_the_request_witness :
  ("weather:berlin" ∉ requestInFlight
     (weatherSettled failed_text "Berlin" Rejected 2100
        (go init [CallWeather "Berlin" false (at_time 2000)]).1))
  /\ (fetchWeather ttl throttle no_dates "Berlin" true (at_time 2101)
        (weatherSettled failed_text "Berlin" Rejected 2100
           (go init [CallWeather "Berlin" false (at_time 2000)]).1)).2
     = Some "Berlin".
Proof.
  destruct (reply_ends_the_request ttl throttle no_dates failed_text
              (go init [CallWeather "Berlin" false (at_time 2000)]).1
              "Berlin" Rejected 2100 (at_time 2101)
              ltac:(vm_compute; discriminate)) as (H1 & H2 & _).
  split; [exact H1|exact H2].
Defined.

Lemma in_flight_request_is_not_repeated_witness :
  filter (fun r => request_for "berlin" r = true)
    (go (go init [CallWeather "Berlin" false (at_time 2000)]).1
        [CallWeather " berlin" true (at_time 2001);
         CallExtended "Berlin" false (at_time 2002);
         CallWeather "BERLIN" false (at_time 9000)]).2
  = []
  /\ "weather:berlin"
     ∈ requestInFlight
         (go (go init [CallWeather "Berlin" false (at_time 2000)]).1
             [CallWeather " berlin" true (at_time 2001);
              CallExtended "Berlin" false (at_time 2002);
              CallWeather "BERLIN" false (at_time 9000)]).1.
Proof.
  apply (in_flight_request_is_not_repeated ttl throttle no_dates failed_text
           "berlin"
           [CallWeather " berlin" true (at_time 2001);
            CallExtended "Berlin" false (at_time 2002);
            CallWeather "BERLIN" false (at_time 9000)]
           (go init [CallWeather "Berlin" false (at_time 2000)]).1).
  - apply (bool_decide_unpack _). vm_compute. exact I.
  - reflexivity.
Defined.

Lemma blank_location_is_ignored_witness :
  fetchWeather ttl throttle no_dates "  " true (at_time 2000) init = (init, None)
  /\ fetchExtended ttl throttle no_dates "  " true (at_time 2000) init = (init, None)
  /\ fetchQuickTemperature ttl throttle no_dates "  " (at_time 2000) init
     = (init, None)
  /\ showCachedWeather ttl throttle no_dates "  " 2000 (at_time 2000) init
     = (init, None)
  /\ addRecentSearch "  " ["Berlin"] = ["Berlin"]
  /\ addLocation "  " ["Berlin"] = ["Berlin"].
Proof.
  apply (blank_location_is_ignored ttl throttle no_dates "  " true 2000
           (at_time 2000) init ["Berlin"]).
  repeat constructor.
Defined.

Lemma quick_reply_feeds_weather_cache_witness :
  (fetchWeather ttl throttle no_dates "Kyoto" false (at_time 5000)
     (quickSettled "Kyoto" (Replied true (snapshot "Kyoto")) 4000 init)).2 = None
  /\ weather
       (fetchWeather ttl throttle no_dates "Kyoto" false (at_time 5000)
          (quickSettled "Kyoto" (Replied true (snapshot "Kyoto")) 4000 init)).1
     = stamp (snapshot "Kyoto") 4000
  /\ weather (quickSettled "Kyoto" (Replied true (snapshot "Kyoto")) 4000 init)
     = VNull.
Proof.
  destruct (quick_reply_feeds_weather_cache ttl throttle no_dates init "Kyoto"
              (Replied true (snapshot "Kyoto")) (snapshot "Kyoto") 4000
              (at_time 5000) ltac:(vm_compute; discriminate) eq_refl
              ltac:(lia) ltac:(vm_compute; reflexivity))
    as ((Hw & _) & (H2 & Hs & _) & _).
  split; [exact H2|]. split; [exact Hs|exact Hw].
Defined.

Lemma showCachedWeather_shows_or_requests_witness :
  (showCachedWeather ttl throttle no_dates "Berlin" 3000 (at_time 3000) warm).2 = None
  /\ weather (showCachedWeather ttl throttle no_dates "Berlin" 3000
                (at_time 3000) warm).1
     = stamp (snapshot "Berlin") 2100
  /\ (showCachedWeather ttl throttle no_dates "Berlin" 400000 (at_time 400000)
        warm).2 = Some "Berlin".
Proof.
  destruct (showCachedWeather_shows_or_requests ttl throttle no_dates warm
              "Berlin" 3000 (at_time 3000) ltac:(vm_compute; discriminate))
    as [Hfresh _].
  destruct (Hfresh eq_refl) as (H1 & H2 & _).
  destruct (showCachedWeather_shows_or_requests ttl throttle no_dates warm
              "Berlin" 400000 (at_time 400000) ltac:(vm_compute; discriminate))
    as (_ & Hstale & _).
  destruct (Hstale eq_refl) as [Hgo _].
  destruct (Hgo ltac:(apply (bool_decide_unpack _); vm_compute; exact I))
    as [H3 _].
  split; [exact H1|]. split; [exact H2|exact H3].
Defined.

End CacheFacts.

(** ** The front end: locations, recent searches, suggestions and units *)

Module ListFacts.
Import Js Client Samples TextFacts.

Lemma trimmed_items (pieces : list string) :
  Forall (fun x => x <> "" /\ trim x = x)
    (filter (fun item => negb (String.eqb item "") = true) (map trim pieces)).
Proof.
  apply Forall_forall. intros x Hx.
  apply list_elem_of_filter in Hx as [Hne Hx].
  apply list_elem_of_fmap in Hx as (y & -> & _).
  split; [|apply trim_idem].
  apply negb_true_iff, String.eqb_neq in Hne. done.
Qed.

(** What is left of the pieces of a comma-separated text is clean. *)
Lemma split_items_clean (value : string) :
  Forall clean_name
    (filter (fun item => negb (String.eqb item "") = true)
            (map trim (split_comma value))).
Proof.
  apply Forall_forall. intros x Hx.
  apply list_elem_of_filter in Hx as [Hne Hx].
  apply list_elem_of_fmap in Hx as (y & -> & Hy).
  split; [|split].
  - apply negb_true_iff, String.eqb_neq in Hne. done.
  - apply trim_idem.
  - apply trim_no_comma.
    pose proof (split_comma_pieces value) as Hp.
    rewrite Forall_forall in Hp. by apply Hp.
Qed.

(** X20.  [normalizeLocations] returns at most six names, each of them not
    empty, without surrounding white space and without a comma. *)
Theorem normalizeLocations_clean (value : string) :
  (length (normalizeLocations value) <= 6)%nat
  /\ Forall clean_name (normalizeLocations value).
Proof.
  unfold normalizeLocations. split.
  - rewrite length_take. unfold maxLocations. lia.
  - apply Forall_take, split_items_clean.
Qed.

Lemma split_comma_space (s : string) :
  map trim (split_comma (String " " s)) = map trim (split_comma s).
Proof.
  destruct (split_comma_cons s) as (p & ps & Hs).
  change (split_comma (String " " s))
    with (match split_comma s with
          | piece :: pieces => String " " piece :: pieces
          | [] => [String " " ""]
          end).
  by rewrite Hs.
Qed.

Lemma join_cons (x y : string) (rest : list string) :
  join ", " (x :: y :: rest) = x +:+ String "," (String " " (join ", " (y :: rest))).
Proof. reflexivity. Qed.

(** Splitting the rendered list gives the list back. *)
Lemma split_join (names : list string) :
  Forall clean_name names ->
  filter (fun item => negb (String.eqb item "") = true)
         (map trim (split_comma (join ", " names)))
  = names.
Proof.
  induction names as [|x names IH]; intros Hall; [done|].
  apply Forall_cons in Hall as [(Hne & Htrim & Hcomma) Hall].
  assert (Hx : negb (String.eqb x "") = true)
    by (by apply negb_true_iff, String.eqb_neq).
  destruct names as [|y rest].
  - simpl. rewrite split_comma_whole by done. simpl. rewrite Htrim.
    by rewrite filter_cons_True by done.
  - rewrite join_cons, split_comma_app by done.
    rewrite fmap_cons, Htrim, split_comma_space.
    rewrite filter_cons_True by done. by rewrite IH.
Qed.

(** X21.  Editing round trip: a list of at most six clean names, rendered
    with [join(", ")] as the editor does, is read back unchanged by
    [normalizeLocations]. *)
Theorem locations_round_trip (names : list string) :
  Forall clean_name names -> (length names <= 6)%nat ->
  normalizeLocations (join ", " names) = names.
Proof.
  intros Hall Hlen. unfold normalizeLocations. rewrite split_join by done.
  apply take_ge. unfold maxLocations. lia.
Qed.

Lemma defaultLocations_clean : Forall clean_name defaultLocations.
Proof. repeat constructor; done. Qed.

(** X22.  Saving the location editor always leaves a non-empty list of at
    most six clean names (the defaults when the draft holds no name), and
    saving the draft it writes back changes nothing. *)
Theorem saveLocations_settles (locationsDraft : string) :
  (saveLocations locationsDraft).1 <> []
  /\ (length (saveLocations locationsDraft).1 <= 6)%nat
  /\ Forall clean_name (saveLocations locationsDraft).1
  /\ saveLocations (saveLocations locationsDraft).2 = saveLocations locationsDraft.
Proof.
  assert (Hlen : (length (normalizeLocations locationsDraft) <= 6)%nat)
    by (unfold normalizeLocations; rewrite length_take; unfold maxLocations; lia).
  assert (Hclean : Forall clean_name (normalizeLocations locationsDraft))
    by (apply Forall_take, split_items_clean).
  assert (Hres : exists resolved,
            saveLocations locationsDraft = (resolved, join ", " resolved)
            /\ resolved <> [] /\ (length resolved <= 6)%nat
            /\ Forall clean_name resolved).
  { unfold saveLocations.
    destruct (normalizeLocations locationsDraft) as [|x next] eqn:E.
    - exists defaultLocations. split; [done|]. split; [done|].
      split; [simpl; lia|apply defaultLocations_clean].
    - exists (x :: next). done. }
  destruct Hres as (resolved & -> & Hne & Hlen' & Hclean'). simpl.
  split; [done|]. split; [done|]. split; [done|].
  unfold saveLocations, normalizeLocations. rewrite split_join by done.
  rewrite take_ge by (unfold maxLocations; lia).
  by destruct resolved.
Qed.

Lemma same_name_eq (a b : string) :
  same_name a b = true <-> toLowerCase a = toLowerCase b.
Proof. unfold same_name. apply String.eqb_eq. Qed.

Lemma same_name_neq (a b : string) :
  same_name a b = false <-> toLowerCase a <> toLowerCase b.
Proof. unfold same_name. apply String.eqb_neq. Qed.

Lemma distinct_names_sublist (l k : list string) :
  sublist k l -> distinct_names l -> distinct_names k.
Proof.
  unfold distinct_names. intros Hsub Hnd.
  eapply sublist_NoDup; [done|]. by apply fmap_sublist.
Qed.

(** X23.  [addRecentSearch] keeps the recent searches free of names that
    differ in letter case only and at most six in number; every entry of the
    result is the trimmed value or an earlier entry, and a non-blank value
    comes first. *)
Theorem addRecentSearch_invariant (value : string) (prev : list string) :
  distinct_names prev -> (length prev <= 6)%nat ->
  distinct_names (addRecentSearch value prev)
  /\ (length (addRecentSearch value prev) <= 6)%nat
  /\ (forall x, x ∈ addRecentSearch value prev -> x = trim value \/ x ∈ prev)
  /\ (trim value <> "" -> head (addRecentSearch value prev) = Some (trim value)).
Proof.
  intros Hnd Hlen. unfold addRecentSearch.
  destruct (String.eqb (trim value) "") eqn:E.
  { apply String.eqb_eq in E. split; [done|]. split; [done|].
    split; [auto|]. intros H. by rewrite E in H. }
  set (cleaned := trim value).
  set (others := filter (fun item => negb (same_name item cleaned) = true) prev).
  assert (Hothers : distinct_names others)
    by (eapply distinct_names_sublist; [apply sublist_filter|done]).
  split; [|split; [|split]].
  - eapply distinct_names_sublist; [apply sublist_take|].
    unfold distinct_names. rewrite fmap_cons. apply NoDup_cons. split; [|done].
    intros Hin. apply list_elem_of_fmap in Hin as (y & Hy & Hin).
    apply list_elem_of_filter in Hin as [Hne _].
    apply negb_true_iff, same_name_neq in Hne. congruence.
  - rewrite length_take. unfold maxRecent. lia.
  - intros x Hx. apply (fun H => elem_of_sublist _ _ _ H (sublist_take _ _)) in Hx.
    apply elem_of_cons in Hx as [->|Hx]; [by left|right].
    by apply list_elem_of_filter in Hx as [_ Hx].
  - intros _. reflexivity.
Qed.

(** X24.  The "Add City" handler keeps the quick locations free of names
    that differ in letter case only and at most six in number; it never
    removes or reorders an entry, adds at most the trimmed value, and
    changes nothing when the value names an entry in another letter
    case. *)
Theorem addLocation_invariant (newLocation : string) (prev : list string) :
  distinct_names prev -> (length prev <= 6)%nat ->
  distinct_names (addLocation newLocation prev)
  /\ (length (addLocation newLocation prev) <= 6)%nat
  /\ prev `prefix_of` addLocation newLocation prev
  /\ (forall x, x ∈ addLocation newLocation prev -> x ∈ prev \/ x = trim newLocation)
  /\ (forall item, item ∈ prev -> same_name item (trim newLocation) = true ->
        addLocation newLocation prev = prev).
Proof.
  intros Hnd Hlen. unfold addLocation.
  destruct (String.eqb (trim newLocation) "") eqn:E.
  { repeat split; auto. }
  set (cleaned := trim newLocation).
  destruct (existsb (fun item => same_name item cleaned) prev) eqn:Hex.
  { repeat split; auto. }
  assert (Hnew : forall item, item ∈ prev -> same_name item cleaned = false).
  { intros item Hin. apply not_true_iff_false. intros Hs.
    apply not_true_iff_false in Hex. apply Hex.
    apply existsb_exists. exists item. split; [by apply list_elem_of_In|done]. }
  split; [|split; [|split; [|split]]].
  - eapply distinct_names_sublist; [apply sublist_take|].
    unfold distinct_names. rewrite fmap_app. apply NoDup_app.
    split; [done|]. split; [|apply NoDup_singleton].
    intros x Hx Hx'. apply list_elem_of_singleton in Hx'. subst x.
    apply list_elem_of_fmap in Hx as (y & Hy & Hin).
    apply Hnew, same_name_neq in Hin. congruence.
  - rewrite length_take. unfold maxLocations. lia.
  - destruct (decide (length prev = 6%nat)) as [H6|H6].
    + rewrite take_app_le by (unfold maxLocations; lia).
      rewrite take_ge by (unfold maxLocations; lia). done.
    + rewrite take_ge by (rewrite length_app; unfold maxLocations; simpl; lia).
      by apply prefix_app_r.
  - intros x Hx. apply (fun H => elem_of_sublist _ _ _ H (sublist_take _ _)) in Hx.
    apply elem_of_app in Hx as [Hx|Hx]; [by left|right].
    by apply list_elem_of_singleton in Hx.
  - intros item Hin Hs. rewrite (Hnew item Hin) in Hs. done.
Qed.

Lemma suggest_cons (needle item : string) (rest : list string)
    (seen : gset string) (results : list string) :
  suggest needle (item :: rest) seen results
  = if String.eqb (trim item) "" then suggest needle rest seen results
    else if negb (includes needle (toLowerCase (trim item)))
            || String.eqb (toLowerCase (trim item)) needle
    then suggest needle rest seen results
    else if bool_decide (toLowerCase (trim item) ∈ seen)
    then suggest needle rest seen results
    else if (6 <=? length (results ++ [trim item]))%nat
    then (results ++ [trim item])%list
    else suggest needle rest ({[toLowerCase (trim item)]} ∪ seen)
           (results ++ [trim item]).
Proof. reflexivity. Qed.

Lemma suggest_sound (needle : string) (pool : list string) (combined : list string) :
  forall (seen : gset string) (results : list string),
  (forall item, item ∈ combined -> item ∈ pool) ->
  (length results < 6)%nat ->
  (forall x, x ∈ seen <-> x ∈ map toLowerCase results) ->
  distinct_names results ->
  Forall (suggested needle pool) results ->
  (length (suggest needle combined seen results) <= 6)%nat
  /\ distinct_names (suggest needle combined seen results)
  /\ Forall (suggested needle pool) (suggest needle combined seen results).
Proof.
  induction combined as [|item rest IH]; intros seen results Hpool Hlen Hseen Hnd Hall.
  { simpl. split; [lia|done]. }
  assert (Hrest : forall item, item ∈ rest -> item ∈ pool)
    by (intros i Hi; apply Hpool; by right).
  rewrite suggest_cons.
  destruct (String.eqb (trim item) "") eqn:Hblank; [by apply IH|].
  destruct (negb (includes needle (toLowerCase (trim item)))
            || String.eqb (toLowerCase (trim item)) needle) eqn:Hskip;
    [by apply IH|].
  apply orb_false_iff in Hskip as [Hinc Hneq].
  apply negb_false_iff in Hinc. apply String.eqb_neq in Hneq.
  apply String.eqb_neq in Hblank.
  destruct (bool_decide (toLowerCase (trim item) ∈ seen)) eqn:Hs; [by apply IH|].
  apply bool_decide_eq_false in Hs.
  assert (Hnd' : distinct_names (results ++ [trim item])).
  { unfold distinct_names. rewrite fmap_app. apply NoDup_app.
    split; [done|]. split; [|apply NoDup_singleton].
    intros x Hx Hx'. apply list_elem_of_singleton in Hx'. subst x.
    by apply Hseen in Hx. }
  assert (Hall' : Forall (suggested needle pool) (results ++ [trim item])).
  { apply Forall_app. split; [done|]. constructor; [|done].
    split; [done|]. split; [done|]. split; [done|].
    exists item. split; [|done]. apply Hpool. by left. }
  destruct (6 <=? length (results ++ [trim item]))%nat eqn:Hfull.
  - split; [|by split]. rewrite length_app. simpl. lia.
  - apply Nat.leb_gt in Hfull. apply IH; try done.
    intros x. rewrite elem_of_union, elem_of_singleton, Hseen.
    rewrite fmap_app, elem_of_app. simpl. rewrite list_elem_of_singleton.
    tauto.
Qed.

(** X25.  [suggestionItems] returns at most six suggestions, no two of
    which differ in letter case only; each is the trimmed form of a recent
    search, a quick location or a cache key, is not empty, and in lower case
    contains the lower-cased trimmed input without being equal to it. *)
Theorem suggestionItems_sound (input : string)
    (recentSearches quickLocations cacheKeys : list string) :
  (length (suggestionItems input recentSearches quickLocations cacheKeys) <= 6)%nat
  /\ distinct_names (suggestionItems input recentSearches quickLocations cacheKeys)
  /\ Forall (suggested (toLowerCase (trim input))
               (recentSearches ++ quickLocations ++ cacheKeys))
       (suggestionItems input recentSearches quickLocations cacheKeys).
Proof.
  unfold suggestionItems.
  destruct (String.eqb (toLowerCase (trim input)) "").
  { split; [simpl; lia|]. split; [apply NoDup_nil_2|done]. }
  apply suggest_sound; try done.
  - simpl. lia.
  - intros x. simpl. rewrite elem_of_empty. split; [done|].
    intros H. by apply elem_of_nil in H.
  - apply NoDup_nil_2.
Qed.

(** X26.  Whatever is stored, [loadUnits] returns a temperature unit "c"
    or "f" and a speed unit "kph" or "mph"; and loading what was stored from
    loaded units returns them unchanged. *)
Theorem loadUnits_valid (saved : option value) :
  (temp (loadUnits saved) = "c" \/ temp (loadUnits saved) = "f")
  /\ (speed (loadUnits saved) = "kph" \/ speed (loadUnits saved) = "mph")
  /\ loadUnits (Some (storedUnits (loadUnits saved))) = loadUnits saved.
Proof.
  unfold loadUnits.
  destruct saved as [[| | | | | |props]|]; simpl; auto.
  destruct (is_string "f" (assoc "temp" props)),
           (is_string "mph" (assoc "speed" props)); simpl; auto.
Qed.

(** X27.  Whatever is stored: [loadLocations] returns a non-empty list of
    non-empty trimmed names; [loadRecentSearches] returns at most six
    non-empty trimmed names.  A stored list of non-empty trimmed names is
    loaded unchanged by [loadLocations] if it is not empty and by
    [loadRecentSearches] if it has at most six entries ([String] being the
    identity on strings). *)
Theorem loaded_lists_are_clean (String_ : value -> string) (saved : option value) :
  loadLocations String_ saved <> []
  /\ Forall (fun x => x <> "" /\ trim x = x) (loadLocations String_ saved)
  /\ (length (loadRecentSearches String_ saved) <= 6)%nat
  /\ Forall (fun x => x <> "" /\ trim x = x) (loadRecentSearches String_ saved)
  /\ ((forall s, String_ (VStr s) = s) ->
      forall names, Forall (fun x => x <> "" /\ trim x = x) names ->
        (names <> [] -> loadLocations String_ (Some (storedStrings names)) = names)
        /\ ((length names <= 6)%nat ->
            loadRecentSearches String_ (Some (storedStrings names)) = names)).
Proof.
  assert (Hdef : Forall (fun x => x <> "" /\ trim x = x) defaultLocations)
    by (repeat constructor; done).
  split; [|split; [|split; [|split]]].
  - unfold loadLocations.
    destruct saved as [[| | | | |items|]|]; try done.
    by destruct (filter _ _).
  - unfold loadLocations.
    destruct saved as [[| | | | |items|]|]; try done.
    pose proof (trimmed_items (map String_ items)) as H.
    rewrite <- list_fmap_compose in H.
    by destruct (filter _ _).
  - unfold loadRecentSearches.
    destruct saved as [[| | | | |items|]|]; simpl; try lia.
    rewrite length_take. unfold maxRecent. lia.
  - unfold loadRecentSearches.
    destruct saved as [[| | | | |items|]|]; try done.
    apply Forall_take.
    pose proof (trimmed_items (map String_ items)) as H.
    by rewrite <- list_fmap_compose in H.
  - intros Hstr names Hall.
    assert (Hsame : filter (fun item => negb (String.eqb item "") = true)
                      (map (fun item => trim (String_ item)) (map VStr names))
                    = names).
    { induction Hall as [|x names [Hne Htrim] Hall IH]; [done|].
      simpl. rewrite Hstr, Htrim.
      rewrite filter_cons_True by (by apply negb_true_iff, String.eqb_neq).
      by rewrite IH. }
    split.
    + intros Hne. unfold loadLocations, storedStrings. rewrite Hsame.
      by destruct names.
    + intros Hlen. unfold loadRecentSearches, storedStrings. rewrite Hsame.
      apply take_ge. unfold maxRecent. lia.
Qed.

Lemma distinct_names_inj (names : list string) (a b : string) :
  distinct_names names -> a ∈ names -> b ∈ names ->
  toLowerCase a = toLowerCase b -> a = b.
Proof.
  unfold distinct_names. induction names as [|x names IH]; intros Hnd Ha Hb Heq.
  { by apply elem_of_nil in Ha. }
  rewrite fmap_cons in Hnd. apply NoDup_cons in Hnd as [Hx Hnd].
  apply elem_of_cons in Ha as [->|Ha], Hb as [->|Hb]; try done.
  - exfalso. apply Hx. rewrite Heq. apply list_elem_of_fmap. eauto.
  - exfalso. apply Hx. rewrite <- Heq. apply list_elem_of_fmap. eauto.
  - by apply IH.
Qed.

(** X28.  When the location matches a quick location up to letter case
    (the quick locations having pairwise different names), [recordSavedTemp]
    files the temperature under the spelling of that quick location, with
    the [fetchedAt] of the data or else the current time, and leaves the
    other saved temperatures alone; without a temperature in the data it
    changes nothing. *)
Theorem recordSavedTemp_uses_card_name (quickLocations : list string)
    (location : string) (data : value) (nowIso : string)
    (prev : gmap string value) (item : string) :
  distinct_names quickLocations ->
  item ∈ quickLocations -> item <> "" ->
  same_name item location = true ->
  let temp := get "temperature" (get "current" data) in
  let next := recordSavedTemp quickLocations location data nowIso prev in
  (nullish temp = true -> next = prev)
  /\ (nullish temp = false ->
      next !! item
      = Some (VObj [("temperature", temp);
                    ("fetchedAt", or_ (get "fetchedAt" data) (VStr nowIso))])
      /\ (forall k, k <> item -> next !! k = prev !! k)).
Proof.
  intros Hnd Hin Hne Hsame temp next.
  assert (Hfind : List.find (fun item => same_name item location) quickLocations
                  = Some item).
  { destruct (List.find _ quickLocations) as [found|] eqn:E.
    - apply find_some in E as [Hf Hs]. apply list_elem_of_In in Hf.
      f_equal. apply (distinct_names_inj quickLocations); try done.
      apply same_name_eq in Hs, Hsame. congruence.
    - apply list_elem_of_In in Hin.
      pose proof (find_none _ _ E item Hin) as Hn. simpl in Hn. congruence. }
  unfold next, recordSavedTemp. fold temp. rewrite Hfind.
  rewrite (proj2 (String.eqb_neq _ _) Hne).
  split.
  - intros Hnull. by destruct temp.
  - intros Hnull. destruct temp; try discriminate;
      (split; [apply lookup_insert_eq|intros k Hk; by apply lookup_insert_ne]).
Qed.

Lemma toLowerCase_empty (s : string) : toLowerCase s = "" <-> s = "".
Proof. by destruct s. Qed.

Lemma getWeatherEffect_text (s : string) :
  getWeatherEffect (VStr s)
  = let normalized := toLowerCase s in
    Some (if String.eqb normalized "" then "clear"
          else if test_any ["snow"; "sleet"; "blizzard"; "ice"; "freezing"] normalized
          then "snow"
          else if test_any ["rain"; "drizzle"; "thunder"; "storm"] normalized
          then "rain"
          else if test_any ["mist"; "fog"; "haze"; "smoke"] normalized
          then "mist"
          else if test_any ["cloud"; "overcast"] normalized
          then "clouds"
          else "clear").
Proof.
  unfold getWeatherEffect, or_. simpl.
  destruct (String.eqb s "") eqn:E; [|done].
  apply String.eqb_eq in E. by subst s.
Qed.

(** X29.  On a text [getWeatherEffect] returns one of "clear", "snow",
    "rain", "mist", "clouds"; two texts with the same lower-case form (texts
    that differ in letter case only) give the same effect, and so does the
    lower-cased text; a text that mentions "snow" in any letter case gives
    "snow" whatever else it mentions; [undefined] and [null] give
    "clear". *)
Theorem getWeatherEffect_ignores_case (s : string) :
  (exists effect, getWeatherEffect (VStr s) = Some effect
                  /\ effect ∈ ["clear"; "snow"; "rain"; "mist"; "clouds"])
  /\ (forall s', toLowerCase s' = toLowerCase s ->
        getWeatherEffect (VStr s') = getWeatherEffect (VStr s))
  /\ getWeatherEffect (VStr (toLowerCase s)) = getWeatherEffect (VStr s)
  /\ (includes "snow" (toLowerCase s) = true ->
      getWeatherEffect (VStr s) = Some "snow")
  /\ getWeatherEffect VUndef = Some "clear"
  /\ getWeatherEffect VNull = Some "clear".
Proof.
  split; [|split; [|split; [|split]]].
  - rewrite getWeatherEffect_text. cbv zeta.
    eexists. split; [reflexivity|].
    repeat (case_match; [set_solver|]). set_solver.
  - intros s' Hs. rewrite !getWeatherEffect_text. cbv zeta. by rewrite Hs.
  - rewrite !getWeatherEffect_text. cbv zeta. by rewrite toLowerCase_idem.
  - intros Hsnow. rewrite getWeatherEffect_text. cbv zeta.
    destruct (String.eqb (toLowerCase s) "") eqn:E.
    { apply String.eqb_eq in E. rewrite E in Hsnow. discriminate. }
    unfold test_any. simpl. by rewrite Hsnow.
  - done.
Qed.

Lemma locations_round_trip_witness :
  normalizeLocations (join ", " ["Copenhagen"; "Kyoto"; "New York"])
  = ["Copenhagen"; "Kyoto"; "New York"].
Proof.
  apply (locations_round_trip ["Copenhagen"; "Kyoto"; "New York"]).
  - repeat constructor; done.
  - simpl. lia.
Defined.

Lemma addRecentSearch_invariant_witness :
  distinct_names (addRecentSearch " Berlin " ["Kyoto"; "berlin"; "Dubai"])
  /\ addRecentSearch " Berlin " ["Kyoto"; "berlin"; "Dubai"]
     = ["Berlin"; "Kyoto"; "Dubai"].
Proof.
  split; [|reflexivity].
  apply (addRecentSearch_invariant " Berlin " ["Kyoto"; "berlin"; "Dubai"]).
  - apply (bool_decide_unpack _). vm_compute. exact I.
  - simpl. lia.
Defined.

Lemma addLocation_invariant_witness :
  distinct_names (addLocation "Oslo " ["Kyoto"; "Berlin"])
  /\ addLocation "Oslo " ["Kyoto"; "Berlin"] = ["Kyoto"; "Berlin"; "Oslo"]
  /\ addLocation "BERLIN" ["Kyoto"; "Berlin"] = ["Kyoto"; "Berlin"].
Proof.
  split; [|split; reflexivity].
  apply (addLocation_invariant "Oslo " ["Kyoto"; "Berlin"]).
  - apply (bool_decide_unpack _). vm_compute. exact I.
  - simpl. lia.
Defined.

Lemma recordSavedTemp_uses_card_name_witness :
  recordSavedTemp defaultLocations "berlin" (snapshot "Berlin") stamp_iso ∅
    !! "Berlin"
  = Some (VObj [("temperature", VNum (43 # 2)); ("fetchedAt", VStr stamp_iso)]).
Proof.
  destruct (recordSavedTemp_uses_card_name defaultLocations "berlin"
              (snapshot "Berlin") stamp_iso ∅ "Berlin"
              ltac:(apply (bool_decide_unpack _); vm_compute; exact I)
              ltac:(apply (bool_decide_unpack _); vm_compute; exact I)
              ltac:(discriminate) eq_refl) as [_ H].
  exact (proj1 (H eq_refl)).
Defined.

End ListFacts.
